(** * Trade monitoring service: exit conditions, trailing stop, exit path

    A shallow embedding of [TradeMonitoringService] (the TypeScript class
    printed in TRADE-MONITORING-IMPLEMENTATION.md) together with the
    properties the specification states about it.

    Conventions of the embedding.
    - A JavaScript number is a [num]: a rational (every finite double is
      one), or [None] for NaN and [undefined].  A [null] is falsy and counts
      as 0 wherever the code compares or multiplies it, so a [null] is the
      number 0 ([Num.null]); the one [null] the service makes itself, the
      price of a failed request, is only tested for truthiness.  The
      infinities are left out: a theorem on the value of a result assumes
      it within the range of the finite doubles.
    - The profit and loss the service records is rounded as the code rounds
      it: [Num.round] is rounding to the nearest double, and [parseFloat],
      each product and the difference of [profitLoss] are rounded.  The
      trailing stop is only ever compared with a price; its products with
      the literals 0.99 and 1.01 (99/100 and 101/100) are kept exact.
    - A [Date] is its millisecond count, a [Z]; invalid dates are left out.
    - A [MonitoredTrade] is a mutable object: the service keeps the objects
      in a heap and the [Map] holds references, so that an activation that
      was suspended at an [await] still sees (and mutates) the same object.
    - An [async] method is cut at its [await]s: a suspended activation is a
      [Task], and the environment resumes it with the answer of the call it
      waits for.  Calls to the collaborators (store, executor) are logged
      as [Event]s at the moment they are made. *)

From Stdlib Require Import QArith ZArith String Ascii List Bool Lia.
From Stdlib Require Import Qround Qpower Qabs.
From Stdlib Require Import Sorting.Sorted Sorting.Permutation Lqa.
From stdpp Require Import base option list relations pretty.
Import ListNotations.

#[local] Open Scope string_scope.
#[local] Open Scope Z_scope.

(** ** JavaScript numbers *)

Module Num.

Definition num : Type := option Q.

Definition Qlt_bool (x y : Q) : bool := negb (Qle_bool y x).

Definition of_Z (z : Z) : num := Some (inject_Z z).

(** The exact product and difference, for results that the code only
    compares (the trailing stop, the age of a cache entry); the recorded
    ones are [mul64] and [sub64] below. *)
Definition mul (a b : num) : num :=
  match a, b with
  | Some x, Some y => Some (x * y)%Q
  | _, _ => None
  end.

Definition sub (a b : num) : num :=
  match a, b with
  | Some x, Some y => Some (x - y)%Q
  | _, _ => None
  end.

(** *** Doubles

    A finite double is [m * 2^e] with [|m| < 2^53] and [-1074 <= e]; the
    arithmetic of the code returns the double nearest to the exact result,
    a tie going to the even significand. *)

Definition pow2 (e : Z) : Q := (2 ^ e)%Q.

(** The integer nearest to [y], a tie going to the even one. *)
Definition nearest_even (y : Q) : Z :=
  let f := Qfloor y in
  match (y - inject_Z f ?= 1 # 2)%Q with
  | Lt => f
  | Gt => f + 1
  | Eq => if Z.even f then f else f + 1
  end.

(** [floor (log2 x)] of a positive rational. *)
Definition ilog2 (x : Q) : Z :=
  let k := Z.log2 (Qnum x) - Z.log2 (Zpos (Qden x)) in
  if Qle_bool (pow2 k) x then k else k - 1.

(** The exponent of the last bit of the double [x] rounds to: 53 bits from
    the leading one, and never below the subnormals' -1074. *)
Definition ulp_exponent (x : Q) : Z := Z.max (ilog2 (Qabs x) - 52) (-1074).

(** The double nearest to [x]. *)
Definition round (x : Q) : Q :=
  let e := ulp_exponent x in
  Qred (inject_Z (nearest_even (x / pow2 e)) * pow2 e).

(** [a * b] and [a - b] as the code computes them. *)
Definition mul64 (a b : num) : num :=
  match a, b with
  | Some x, Some y => Some (round (x * y))
  | _, _ => None
  end.

Definition sub64 (a b : num) : num :=
  match a, b with
  | Some x, Some y => Some (round (x - y))
  | _, _ => None
  end.

(** Comparisons: any comparison with NaN or [undefined] is false. *)
Definition le (a b : num) : bool :=
  match a, b with
  | Some x, Some y => Qle_bool x y
  | _, _ => false
  end.

Definition lt (a b : num) : bool :=
  match a, b with
  | Some x, Some y => Qlt_bool x y
  | _, _ => false
  end.

Definition ge (a b : num) : bool := le b a.
Definition gt (a b : num) : bool := lt b a.

(** Truthiness of [number | null | undefined]: 0, NaN, null and
    undefined are falsy. *)
Definition truthy (a : num) : bool :=
  match a with
  | Some x => negb (Qeq_bool x 0)
  | None => false
  end.

(** [null] where the code compares or multiplies a number: 0. *)
Definition null : num := Some 0%Q.

(** [a || b] on numbers. *)
Definition or (a b : num) : num := if truthy a then a else b.

(** The same value: rationals up to [Qeq], non-numbers alike. *)
Definition same (a b : num) : Prop :=
  match a, b with
  | Some x, Some y => (x == y)%Q
  | None, None => True
  | _, _ => False
  end.

(** The literals of the source. *)
Definition c0_99 : num := Some (99 # 100)%Q.
Definition c1_01 : num := Some (101 # 100)%Q.

End Num.

Import Num.

(** [a || b] on strings that may be missing: the empty string is falsy. *)
Definition or_str (a : option string) (b : string) : string :=
  match a with
  | Some s => if String.eqb s EmptyString then b else s
  | None => b
  end.

(** ** [parseFloat] on decimal literals

    Leading white space, an optional sign, digits with an optional fraction,
    an optional exponent; the longest such prefix is read and the rest of
    the string is ignored.  No digit at all gives NaN.  The literal
    [Infinity] is not read.  [read_decimal] is the decimal that is written,
    [parseFloat] the double nearest to it. *)

Definition digit_of (c : ascii) : option Z :=
  let n := Z.of_nat (nat_of_ascii c) in
  if (48 <=? n) && (n <=? 57) then Some (n - 48) else None.

(** Reads a run of digits: the value so far, how many were read, the rest. *)
Fixpoint read_digits (s : string) (acc : Z) (cnt : nat) : Z * nat * string :=
  match s with
  | String c r =>
      match digit_of c with
      | Some d => read_digits r (10 * acc + d) (S cnt)
      | None => (acc, cnt, s)
      end
  | EmptyString => (acc, cnt, s)
  end.

Definition is_blank (c : ascii) : bool :=
  let n := nat_of_ascii c in
  Nat.eqb n 32 || (Nat.leb 9 n && Nat.leb n 13).

Fixpoint skip_blanks (s : string) : string :=
  match s with
  | String c r => if is_blank c then skip_blanks r else s
  | EmptyString => s
  end.

(** An optional sign: its factor and the rest. *)
Definition read_sign (s : string) : Z * string :=
  match s with
  | String c r =>
      if Ascii.eqb c "-"%char then (-1, r)
      else if Ascii.eqb c "+"%char then (1, r)
      else (1, s)
  | EmptyString => (1, s)
  end.

(** An exponent part [e], [e+] or [e-] followed by at least one digit;
    0 when there is none. *)
Definition read_exponent (s : string) : Z :=
  match s with
  | String c r =>
      if Ascii.eqb c "e"%char || Ascii.eqb c "E"%char then
        let '(sgn, r1) := read_sign r in
        let '(e, ne, _) := read_digits r1 0 0%nat in
        if Nat.eqb ne 0 then 0 else sgn * e
      else 0
  | EmptyString => 0
  end.

Definition read_decimal (s : string) : num :=
  let '(sgn, s1) := read_sign (skip_blanks s) in
  let '(ip, ni, r1) := read_digits s1 0 0%nat in
  let '(fp, nf, r2) :=
    match r1 with
    | String c r => if Ascii.eqb c "."%char then read_digits r 0 0%nat
                    else (0, 0%nat, r1)
    | EmptyString => (0, 0%nat, r1)
    end in
  if Nat.eqb (ni + nf) 0 then None
  else
    let mantissa := sgn * (ip * Z.pow 10 (Z.of_nat nf) + fp) in
    let e := read_exponent r2 - Z.of_nat nf in
    if 0 <=? e then Some (inject_Z (mantissa * Z.pow 10 e))
    else Some (Qred (Qmake mantissa (Z.to_pos (Z.pow 10 (- e))))).

Definition parseFloat (s : string) : num := round <$> read_decimal s.

(** ** Data model *)

Inductive Side : Type := buy | sell.

Inductive Status : Type := active | exited | failed.

Inductive ExitType : Type := TP1 | TP2 | STOP_LOSS | MAX_EXIT_TIME | TRAILING_STOP.

Definition Date : Type := Z.

(** [interface MonitoredTrade]. *)
Record MonitoredTrade : Type := {
  _id : string;
  tradeId : string;
  userId : string;
  safeAddress : string;
  networkKey : string;
  tokenSymbol : string;
  tokenMentioned : string;
  signalMessage : Side;
  entryPrice : num;
  currentPrice : num;            (* optional field: [None] while unset *)
  tp1 : num;
  tp2 : num;
  sl : num;
  maxExitTime : Date;
  entryTxHash : string;
  entryAmount : string;
  executedAt : Date;
  status : Status;
  lastPriceCheck : option Date;
  priceCheckCount : nat;
  highestPriceSinceEntry : num;
  trailingStopPrice : num;
  trailingStopEnabled : bool
}.

(** [interface ExitCondition]. *)
Record ExitCondition : Type := {
  type : ExitType;
  ecPrice : num;                 (* [currentPrice] *)
  targetPrice : option num;
  triggered : bool
}.

(** A stored trade document, and the [tradeData] handed to
    [addTradeToMonitoring]: the fields the service reads, optional where the
    source guards them with [||]. *)
Record TradeDoc : Type := {
  d_id : string;                 (* [_id]; unused in [tradeData] *)
  d_tradeId : string;
  d_userId : string;
  d_safeAddress : string;
  d_networkKey : string;
  d_tokenSymbol : option string;
  d_tokenMentioned : string;
  d_signalMessage : Side;
  d_entryPrice : num;
  d_currentPrice : num;
  d_tp1 : num;
  d_tp2 : num;
  d_sl : num;
  d_maxExitTime : Date;
  d_entryTxHash : option string;
  d_entryAmount : option string;
  d_executedAt : option Date;
  d_createdAt : Date;
  d_status : Status
}.

(** The object literal of [loadActiveTradesFromDatabase] and (the same
    text again) of [syncWithDatabase]. *)
Definition rehydrate (trade : TradeDoc) : MonitoredTrade := {|
  _id := d_id trade;
  tradeId := d_tradeId trade;
  userId := d_userId trade;
  safeAddress := d_safeAddress trade;
  networkKey := d_networkKey trade;
  tokenSymbol := or_str (d_tokenSymbol trade) (d_tokenMentioned trade);
  tokenMentioned := d_tokenMentioned trade;
  signalMessage := d_signalMessage trade;
  entryPrice := Num.or (d_entryPrice trade) (d_currentPrice trade);
  currentPrice := None;
  tp1 := d_tp1 trade;
  tp2 := d_tp2 trade;
  sl := d_sl trade;
  maxExitTime := d_maxExitTime trade;
  entryTxHash := or_str (d_entryTxHash trade) EmptyString;
  entryAmount := or_str (d_entryAmount trade) "0";
  executedAt := default (d_createdAt trade) (d_executedAt trade);
  status := d_status trade;
  lastPriceCheck := None;
  priceCheckCount := 0;
  highestPriceSinceEntry := Num.or (d_entryPrice trade) (d_currentPrice trade);
  trailingStopPrice :=
    Num.mul (Num.or (d_entryPrice trade) (d_currentPrice trade)) c0_99;
  trailingStopEnabled := true
|}.

(** The object literal of [addTradeToMonitoring]. *)
Definition newMonitoredTrade (mongoId : string) (tradeData : TradeDoc)
    (now : Date) : MonitoredTrade := {|
  _id := mongoId;
  tradeId := d_tradeId tradeData;
  userId := d_userId tradeData;
  safeAddress := d_safeAddress tradeData;
  networkKey := d_networkKey tradeData;
  tokenSymbol := or_str (d_tokenSymbol tradeData) (d_tokenMentioned tradeData);
  tokenMentioned := d_tokenMentioned tradeData;
  signalMessage := d_signalMessage tradeData;
  entryPrice := Num.or (d_entryPrice tradeData) (d_currentPrice tradeData);
  currentPrice := None;
  tp1 := d_tp1 tradeData;
  tp2 := d_tp2 tradeData;
  sl := d_sl tradeData;
  maxExitTime := d_maxExitTime tradeData;
  entryTxHash := or_str (d_entryTxHash tradeData) EmptyString;
  entryAmount := or_str (d_entryAmount tradeData) "0";
  executedAt := now;
  status := active;
  lastPriceCheck := None;
  priceCheckCount := 0;
  highestPriceSinceEntry :=
    Num.or (d_entryPrice tradeData) (d_currentPrice tradeData);
  trailingStopPrice :=
    Num.mul (Num.or (d_entryPrice tradeData) (d_currentPrice tradeData)) c0_99;
  trailingStopEnabled := true
|}.

(** Field updates of the mutable object. *)
Definition set_price_check (t : MonitoredTrade) (p : num) (now : Date)
    : MonitoredTrade := {|
  _id := _id t; tradeId := tradeId t; userId := userId t;
  safeAddress := safeAddress t; networkKey := networkKey t;
  tokenSymbol := tokenSymbol t; tokenMentioned := tokenMentioned t;
  signalMessage := signalMessage t; entryPrice := entryPrice t;
  currentPrice := p;
  tp1 := tp1 t; tp2 := tp2 t; sl := sl t; maxExitTime := maxExitTime t;
  entryTxHash := entryTxHash t; entryAmount := entryAmount t;
  executedAt := executedAt t; status := status t;
  lastPriceCheck := Some now;
  priceCheckCount := S (priceCheckCount t);
  highestPriceSinceEntry := highestPriceSinceEntry t;
  trailingStopPrice := trailingStopPrice t;
  trailingStopEnabled := trailingStopEnabled t
|}.

Definition set_trailing (t : MonitoredTrade) (hi stop : num)
    : MonitoredTrade := {|
  _id := _id t; tradeId := tradeId t; userId := userId t;
  safeAddress := safeAddress t; networkKey := networkKey t;
  tokenSymbol := tokenSymbol t; tokenMentioned := tokenMentioned t;
  signalMessage := signalMessage t; entryPrice := entryPrice t;
  currentPrice := currentPrice t;
  tp1 := tp1 t; tp2 := tp2 t; sl := sl t; maxExitTime := maxExitTime t;
  entryTxHash := entryTxHash t; entryAmount := entryAmount t;
  executedAt := executedAt t; status := status t;
  lastPriceCheck := lastPriceCheck t;
  priceCheckCount := priceCheckCount t;
  highestPriceSinceEntry := hi;
  trailingStopPrice := stop;
  trailingStopEnabled := trailingStopEnabled t
|}.

(** ** The per-position functions *)

(** [updateTrailingStopData(trade, currentPrice)]. *)
Definition updateTrailingStopData (trade : MonitoredTrade) (price : num)
    : MonitoredTrade :=
  if negb (trailingStopEnabled trade) then trade
  else
    match signalMessage trade with
    | buy =>
        if Num.gt price (highestPriceSinceEntry trade)
        then set_trailing trade price (Num.mul price c0_99)
        else trade
    | sell =>
        if Num.lt price (highestPriceSinceEntry trade)
        then set_trailing trade price (Num.mul price c1_01)
        else trade
    end.

Definition fired (k : ExitType) (price : num) (target : option num)
    : ExitCondition :=
  {| type := k; ecPrice := price; targetPrice := target; triggered := true |}.

(** [checkExitConditions(trade, currentPrice)]; the clock the method reads
    with [new Date()] is the argument [now]. *)
Definition checkExitConditions (trade : MonitoredTrade) (price : num)
    (now : Date) : ExitCondition :=
  if now >=? maxExitTime trade then fired MAX_EXIT_TIME price None
  else
    match signalMessage trade with
    | buy =>
        if trailingStopEnabled trade && Num.le price (trailingStopPrice trade)
        then fired TRAILING_STOP price (Some (trailingStopPrice trade))
        else if Num.le price (sl trade)
        then fired STOP_LOSS price (Some (sl trade))
        else if Num.ge price (tp2 trade)
        then fired TP2 price (Some (tp2 trade))
        else if Num.ge price (tp1 trade)
        then fired TP1 price (Some (tp1 trade))
        else {| type := TP1; ecPrice := price; targetPrice := None;
                triggered := false |}
    | sell =>
        if trailingStopEnabled trade && Num.ge price (trailingStopPrice trade)
        then fired TRAILING_STOP price (Some (trailingStopPrice trade))
        else if Num.ge price (sl trade)
        then fired STOP_LOSS price (Some (sl trade))
        else if Num.le price (tp2 trade)
        then fired TP2 price (Some (tp2 trade))
        else if Num.le price (tp1 trade)
        then fired TP1 price (Some (tp1 trade))
        else {| type := TP1; ecPrice := price; targetPrice := None;
                triggered := false |}
    end.

(** The profit-and-loss computation of [executeTradeExit]. *)
Definition profitLoss (trade : MonitoredTrade) (exitCondition : ExitCondition)
    : num :=
  let entryValue :=
    Num.mul64 (parseFloat (entryAmount trade)) (entryPrice trade) in
  let exitValue :=
    Num.mul64 (parseFloat (entryAmount trade)) (ecPrice exitCondition) in
  match signalMessage trade with
  | buy => Num.sub64 exitValue entryValue
  | sell => Num.sub64 entryValue exitValue
  end.


(** ** The registry: a JavaScript [Map] keyed by strings

    Keys are kept in insertion order, each at most once; [set] on a key that
    is present replaces its value in place. *)

Module JsMap.
Section Ops.
Context {V : Type}.

Definition t : Type := list (string * V).

Fixpoint set (k : string) (v : V) (m : t) : t :=
  match m with
  | [] => [(k, v)]
  | (k', v') :: r =>
      if String.eqb k k' then (k, v) :: r else (k', v') :: set k v r
  end.

Fixpoint delete (k : string) (m : t) : t :=
  match m with
  | [] => []
  | (k', v') :: r =>
      if String.eqb k k' then r else (k', v') :: delete k r
  end.

Definition has (k : string) (m : t) : bool :=
  existsb (fun kv => String.eqb k (fst kv)) m.

Definition values (m : t) : list V := map snd m.

Definition size (m : t) : nat := length m.

Definition clear (m : t) : t := [].
End Ops.
End JsMap.

(** ** Calls to the collaborators *)

(** The literal [exitTradeData] of [executeTradeExit]. *)
Record ExitTradeData : Type := {
  x_tradeId : string;
  x_userId : string;
  x_safeAddress : string;
  x_networkKey : string;
  x_tokenMentioned : string;
  x_signalMessage : Side;
  x_currentPrice : num;
  x_entryPrice : num;
  x_entryAmount : string
}.

(** The third argument of [updateTradeStatus]. *)
Inductive StatusData : Type :=
| ExitData (exitType : ExitType) (exitPrice : num) (exitAmount : string)
           (pl : num) (exitedAt : Date)
| FailData (error : string) (failedAt : Date).

Inductive Event : Type :=
| StoreExecutedTrade (tradeData : TradeDoc)
| ExecuteTrade (exitTradeData : ExitTradeData) (amount : string)
| UpdateTradeStatus (id : string) (st : Status) (data : StatusData)
| Emit (name : string) (id : string).

(** What an awaited call answers. *)
Inductive Response : Type :=
| Price (p : num)                     (* the price service resolved *)
| Resolved                            (* resolved, value not used *)
| Rejected (message : option string)  (* threw; [Some m] for an [Error] *)
| ActiveTrades (l : list TradeDoc)    (* [getActiveTrades] resolved *)
| MongoId (id : string).              (* [storeExecutedTrade] resolved *)

(** ** Suspended activations *)

Inductive Caller : Type := FromMonitor | FromManual.

Inductive Outcome : Type :=
| Returned                  (* a [Promise<void>] fulfilled *)
| ReturnedBool (b : bool)   (* [manualExitTrade] fulfilled with [b] *)
| Thrown.                   (* the promise rejected *)

Inductive Task : Type :=
| MonitorAwaitPrice (r : nat)
    (* [monitorSingleTrade] at [await this.getCurrentPrice] *)
| ExitAwaitExecute (who : Caller) (r : nat) (c : ExitCondition)
    (* [executeTradeExit] at [await ...executeTrade] *)
| ExitAwaitExited (who : Caller) (r : nat) (c : ExitCondition)
    (* [executeTradeExit] at [await ...updateTradeStatus(_, "exited", _)] *)
| ExitAwaitFailed (who : Caller) (r : nat) (c : ExitCondition)
    (* the [catch] of [executeTradeExit] at its [await] *)
| StartAwaitLoad
    (* [start], inside [loadActiveTradesFromDatabase] *)
| SyncAwaitActive
    (* [syncWithDatabase] at [await ...getActiveTrades] *)
| AddAwaitStore (tradeData : TradeDoc)
    (* [addTradeToMonitoring] at [await ...storeExecutedTrade] *)
| Done (o : Outcome).

(** ** The service and its surroundings *)

Inductive TimerKind : Type := MonitoringTick | DbSyncTick.

(** The fields of [TradeMonitoringService], with the objects the [Map]
    refers to. *)
Record Service : Type := {
  heap : list MonitoredTrade;
  monitoredTrades : list (string * nat);
  monitoringInterval : option nat;
  dbSyncInterval : option nat;
  isRunning : bool
}.

Record World : Type := {
  svc : Service;
  timers : list (nat * TimerKind);   (* the intervals that are live *)
  nextTimer : nat;
  tasks : list Task;
  log : list Event
}.

Definition initial : World := {|
  svc := {| heap := []; monitoredTrades := []; monitoringInterval := None;
            dbSyncInterval := None; isRunning := false |};
  timers := []; nextTimer := 0; tasks := []; log := []
|}.

Definition with_svc (w : World) (s : Service) : World :=
  {| svc := s; timers := timers w; nextTimer := nextTimer w;
     tasks := tasks w; log := log w |}.

Definition emit (w : World) (es : list Event) : World :=
  {| svc := svc w; timers := timers w; nextTimer := nextTimer w;
     tasks := tasks w; log := log w ++ es |}.

Definition spawn (w : World) (ts : list Task) : World :=
  {| svc := svc w; timers := timers w; nextTimer := nextTimer w;
     tasks := tasks w ++ ts; log := log w |}.

Definition set_task (w : World) (tid : nat) (t : Task) : World :=
  {| svc := svc w; timers := timers w; nextTimer := nextTimer w;
     tasks := <[tid := t]> (tasks w); log := log w |}.

Definition with_map (s : Service) (m : list (string * nat)) : Service :=
  {| heap := heap s; monitoredTrades := m;
     monitoringInterval := monitoringInterval s;
     dbSyncInterval := dbSyncInterval s; isRunning := isRunning s |}.

Definition with_heap (s : Service) (h : list MonitoredTrade) : Service :=
  {| heap := h; monitoredTrades := monitoredTrades s;
     monitoringInterval := monitoringInterval s;
     dbSyncInterval := dbSyncInterval s; isRunning := isRunning s |}.

(** [this.monitoredTrades.set(id, o)] for a freshly built object [o]. *)
Definition adopt (s : Service) (id : string) (o : MonitoredTrade) : Service :=
  {| heap := heap s ++ [o];
     monitoredTrades := JsMap.set id (length (heap s)) (monitoredTrades s);
     monitoringInterval := monitoringInterval s;
     dbSyncInterval := dbSyncInterval s; isRunning := isRunning s |}.

(** The monitored objects, in the order of [this.monitoredTrades.values()]. *)
Definition getMonitoredTrades (s : Service) : list MonitoredTrade :=
  omap (fun r => heap s !! r) (JsMap.values (monitoredTrades s)).

(** ** The methods, cut at their awaits *)

(** [stop()]. *)
Definition clearInterval (h : nat) (ts : list (nat * TimerKind))
    : list (nat * TimerKind) :=
  List.filter (fun t => negb (Nat.eqb (fst t) h)) ts.

Definition clear_handle (h : option nat) (ts : list (nat * TimerKind))
    : list (nat * TimerKind) :=
  match h with
  | Some t => clearInterval t ts
  | None => ts
  end.

Definition stop (w : World) : World :=
  if negb (isRunning (svc w)) then w
  else
    {| svc := {| heap := heap (svc w);
                 monitoredTrades := JsMap.clear (monitoredTrades (svc w));
                 monitoringInterval := None;
                 dbSyncInterval := None;
                 isRunning := false |};
       timers := clear_handle (dbSyncInterval (svc w))
                   (clear_handle (monitoringInterval (svc w)) (timers w));
       nextTimer := nextTimer w;
       tasks := tasks w;
       log := log w |}.

(** The loop of [loadActiveTradesFromDatabase]. *)
Definition loadActiveTrades (activeTrades : list TradeDoc) (s : Service)
    : Service :=
  fold_left (fun s trade => adopt s (d_id trade) (rehydrate trade))
            activeTrades s.

(** The loop of [syncWithDatabase]: only ids the [Map] does not have. *)
Definition syncActiveTrades (activeTrades : list TradeDoc) (w : World)
    : World :=
  fold_left
    (fun w trade =>
       if JsMap.has (d_id trade) (monitoredTrades (svc w)) then w
       else emit (with_svc w (adopt (svc w) (d_id trade) (rehydrate trade)))
                 [Emit "tradeAdded" (d_id trade)])
    activeTrades w.

(** [monitorAllTrades()]: one activation of [monitorSingleTrade] for every
    value of the [Map]; each runs up to its price request. *)
Definition monitorAllTrades (w : World) : World :=
  if Nat.eqb (JsMap.size (monitoredTrades (svc w))) 0 then w
  else spawn w (map MonitorAwaitPrice (JsMap.values (monitoredTrades (svc w)))).

(** [executeTradeExit(trade, exitCondition)] up to [await ...executeTrade]. *)
Definition exitTradeData_of (trade : MonitoredTrade) (c : ExitCondition)
    : ExitTradeData := {|
  x_tradeId := tradeId trade;
  x_userId := userId trade;
  x_safeAddress := safeAddress trade;
  x_networkKey := networkKey trade;
  x_tokenMentioned := tokenMentioned trade;
  x_signalMessage := match signalMessage trade with buy => sell | sell => buy end;
  x_currentPrice := ecPrice c;
  x_entryPrice := entryPrice trade;
  x_entryAmount := entryAmount trade
|}.

Definition executeTradeExit (who : Caller) (r : nat) (trade : MonitoredTrade)
    (c : ExitCondition) (w : World) : Task * World :=
  let s := with_map (svc w) (JsMap.delete (_id trade) (monitoredTrades (svc w))) in
  (ExitAwaitExecute who r c,
   emit (with_svc w s)
        [ExecuteTrade (exitTradeData_of trade c) (entryAmount trade)]).

(** The rest of [executeTradeExit]: what the activation does when the call
    it waits for answers.  It touches no field of the service. *)
Definition failure_write (trade : MonitoredTrade) (message : option string)
    (now : Date) : Event :=
  UpdateTradeStatus (_id trade) failed
    (FailData (default "Unknown error" message) now).

Definition exitData_of (trade : MonitoredTrade) (c : ExitCondition)
    (now : Date) : StatusData :=
  ExitData (type c) (ecPrice c) (entryAmount trade) (profitLoss trade c) now.

Definition finish (who : Caller) (threw : bool) : Task :=
  match who with
  | FromMonitor => Done Returned            (* [monitorSingleTrade] catches *)
  | FromManual => Done (ReturnedBool (negb threw))
  end.

Definition resume_exit (now : Date) (trade : MonitoredTrade) (t : Task)
    (resp : Response) : option (Task * list Event) :=
  match t, resp with
  | ExitAwaitExecute who r c, Resolved =>
      Some (ExitAwaitExited who r c,
            [UpdateTradeStatus (_id trade) exited (exitData_of trade c now)])
  | ExitAwaitExecute who r c, Rejected m =>
      Some (ExitAwaitFailed who r c, [failure_write trade m now])
  | ExitAwaitExited who r c, Resolved =>
      Some (finish who false, [Emit "tradeExited" (_id trade)])
  | ExitAwaitExited who r c, Rejected m =>
      Some (ExitAwaitFailed who r c, [failure_write trade m now])
  | ExitAwaitFailed who r c, Resolved =>
      Some (finish who false, [Emit "tradeExitFailed" (_id trade)])
  | ExitAwaitFailed who r c, Rejected m =>
      Some (finish who true, [])
  | _, _ => None
  end.

(** [getCurrentPrice]: a failure of the price service becomes [null]. *)
Definition getCurrentPrice (resp : Response) : option num :=
  match resp with
  | Price p => Some p
  | Rejected _ => Some Num.null
  | _ => None
  end.

(** [monitorSingleTrade(trade)] from the answer of the price request to its
    return or to the first await of [executeTradeExit].  This stretch runs
    without interruption; its two readings of the clock ([lastPriceCheck]
    and the one inside [checkExitConditions]) are the one instant [now]. *)
Definition monitorSingleTrade (now : Date) (r : nat) (price : num) (w : World)
    : option (Task * World) :=
  trade ← heap (svc w) !! r;
  if negb (truthy price) then Some (Done Returned, w)
  else
    let trade1 := updateTrailingStopData (set_price_check trade price now) price in
    let w1 := with_svc w (with_heap (svc w) (<[r := trade1]> (heap (svc w)))) in
    let exitCondition := checkExitConditions trade1 price now in
    if triggered exitCondition
    then Some (executeTradeExit FromMonitor r trade1 exitCondition w1)
    else Some (Done Returned, w1).

(** [manualExitTrade(tradeId, reason)] up to its first await. *)
Definition find_trade (s : Service) (id : string) : option (nat * MonitoredTrade) :=
  List.find (fun rt => String.eqb (tradeId (snd rt)) id)
    (omap (fun r => pair r <$> heap s !! r) (JsMap.values (monitoredTrades s))).

Definition manual_condition (trade : MonitoredTrade) : ExitCondition := {|
  type := TP1;
  ecPrice := Num.or (currentPrice trade) (entryPrice trade);
  targetPrice := None;
  triggered := true
|}.

Definition manualExitTrade (id : string) (w : World) : Task * World :=
  match find_trade (svc w) id with
  | None => (Done (ReturnedBool false), w)
  | Some (r, trade) => executeTradeExit FromManual r trade (manual_condition trade) w
  end.

(** [start()] after [loadActiveTradesFromDatabase] has its answer. *)
Definition start_resume (resp : Response) (w : World) : option World :=
  s1 ← match resp with
       | ActiveTrades l => Some (loadActiveTrades l (svc w))
       | Rejected _ => Some (svc w)          (* caught and logged *)
       | _ => None
       end;
  let h1 := nextTimer w in
  let h2 := S (nextTimer w) in
  let s2 := {| heap := heap s1; monitoredTrades := monitoredTrades s1;
               monitoringInterval := Some h1; dbSyncInterval := Some h2;
               isRunning := true |} in
  Some (monitorAllTrades
          {| svc := s2;
             timers := timers w ++ [(h1, MonitoringTick); (h2, DbSyncTick)];
             nextTimer := S (S (nextTimer w));
             tasks := tasks w; log := log w |}).

(** Resuming a suspended activation with the answer it waits for. *)
Definition resume (now : Date) (t : Task) (resp : Response) (w : World)
    : option (Task * World) :=
  match t with
  | MonitorAwaitPrice r =>
      price ← getCurrentPrice resp;
      monitorSingleTrade now r price w
  | ExitAwaitExecute _ r _ | ExitAwaitExited _ r _ | ExitAwaitFailed _ r _ =>
      trade ← heap (svc w) !! r;
      '(t', es) ← resume_exit now trade t resp;
      Some (t', emit w es)
  | StartAwaitLoad =>
      w' ← start_resume resp w;
      Some (Done Returned, w')
  | SyncAwaitActive =>
      match resp with
      | ActiveTrades l => Some (Done Returned, syncActiveTrades l w)
      | Rejected _ => Some (Done Returned, w)
      | _ => None
      end
  | AddAwaitStore tradeData =>
      match resp with
      | MongoId mongoId =>
          Some (Done Returned,
                emit (with_svc w (adopt (svc w) mongoId
                                    (newMonitoredTrade mongoId tradeData now)))
                     [Emit "tradeAdded" mongoId])
      | Rejected _ => Some (Done Thrown, w)
      | _ => None
      end
  | Done _ => None
  end.

(** ** What the environment can do *)

Inductive Action : Type :=
| CallStart
| CallStop
| CallAddTrade (tradeData : TradeDoc)
| CallManualExit (id : string)
| Fire (h : nat)                                 (* an interval elapses *)
| Resume (tid : nat) (now : Date) (resp : Response).

Definition timer_kind (w : World) (h : nat) : option TimerKind :=
  snd <$> List.find (fun t => Nat.eqb (fst t) h) (timers w).

Definition step (w : World) (a : Action) : option World :=
  match a with
  | CallStart =>
      if isRunning (svc w) then Some w else Some (spawn w [StartAwaitLoad])
  | CallStop => Some (stop w)
  | CallAddTrade tradeData =>
      Some (spawn (emit w [StoreExecutedTrade tradeData]) [AddAwaitStore tradeData])
  | CallManualExit id =>
      let '(t, w') := manualExitTrade id w in Some (spawn w' [t])
  | Fire h =>
      k ← timer_kind w h;
      match k with
      | MonitoringTick => Some (monitorAllTrades w)
      | DbSyncTick => Some (spawn w [SyncAwaitActive])
      end
  | Resume tid now resp =>
      t ← tasks w !! tid;
      '(t', w') ← resume now t resp w;
      Some (set_task w' tid t')
  end.

Fixpoint run (w : World) (acts : list Action) : option World :=
  match acts with
  | [] => Some w
  | a :: rest => w' ← step w a; run w' rest
  end.

(** ** The specification's reading of the exit decision *)

Module Spec.

(** The exit kinds the specification names. *)
Inductive ExitKind : Type :=
| max_exit_time | trailing_stop | stop_loss | take_profit_2 | take_profit_1
| manual.

(** "price <= level for a buy (price >= level for a sell)". *)
Definition stop_hit (s : Side) (price level : num) : bool :=
  match s with
  | buy => Num.le price level
  | sell => Num.ge price level
  end.

(** "price >= level for a buy (price <= level for a sell)". *)
Definition target_hit (s : Side) (price level : num) : bool :=
  match s with
  | buy => Num.ge price level
  | sell => Num.le price level
  end.

(** The priority table, top row first. *)
Definition priority_table (p : MonitoredTrade) (price : num) (now : Date)
    : list (ExitKind * bool) :=
  [ (max_exit_time, now >=? maxExitTime p);
    (trailing_stop,
     trailingStopEnabled p
     && stop_hit (signalMessage p) price (trailingStopPrice p));
    (stop_loss, stop_hit (signalMessage p) price (sl p));
    (take_profit_2, target_hit (signalMessage p) price (tp2 p));
    (take_profit_1, target_hit (signalMessage p) price (tp1 p)) ].

(** The first row whose condition is true, if any. *)
Definition exit_kind (p : MonitoredTrade) (price : num) (now : Date)
    : option ExitKind :=
  fst <$> List.find snd (priority_table p price now).

End Spec.

(** The label the code gives to each kind of the specification's table. *)
Definition kind_of (k : ExitType) : Spec.ExitKind :=
  match k with
  | MAX_EXIT_TIME => Spec.max_exit_time
  | TRAILING_STOP => Spec.trailing_stop
  | STOP_LOSS => Spec.stop_loss
  | TP2 => Spec.take_profit_2
  | TP1 => Spec.take_profit_1
  end.

(** The exit the per-position check chooses: the kind of the condition when
    it is triggered, nothing otherwise. *)
Definition chosen_exit (trade : MonitoredTrade) (price : num) (now : Date)
    : option Spec.ExitKind :=
  let c := checkExitConditions trade price now in
  if triggered c then Some (kind_of (type c)) else None.

(** ** Driving one exit to its end

    The calls an exit waits for are answered by the environment; an
    [ExitEnv] fixes, for each of the three awaits of [executeTradeExit], the
    instant and the answer. *)

Inductive Answer : Type := Succeeds | Fails (message : option string).

Definition response_of (a : Answer) : Response :=
  match a with
  | Succeeds => Resolved
  | Fails m => Rejected m
  end.

Definition succeeds (a : Answer) : bool :=
  match a with
  | Succeeds => true
  | Fails _ => false
  end.

Record ExitEnv : Type := {
  on_executeTrade : Date * Answer;
  on_exited_write : Date * Answer;
  on_failed_write : Date * Answer
}.

Definition answer_for (env : ExitEnv) (t : Task) : Date * Answer :=
  match t with
  | ExitAwaitExecute _ _ _ => on_executeTrade env
  | ExitAwaitExited _ _ _ => on_exited_write env
  | _ => on_failed_write env
  end.

Fixpoint drive_exit (fuel : nat) (env : ExitEnv) (trade : MonitoredTrade)
    (t : Task) : Task * list Event :=
  match fuel with
  | O => (t, [])
  | S n =>
      let '(now, a) := answer_for env t in
      match resume_exit now trade t (response_of a) with
      | Some (t', es) =>
          let '(t'', es') := drive_exit n env trade t' in (t'', (es ++ es')%list)
      | None => (t, [])
      end
  end.

(** What [manualExitTrade] answers once a trade was found: [false] only
    when the failure path is taken and its own write fails too. *)
Definition manual_result (env : ExitEnv) : bool :=
  if succeeds (snd (on_executeTrade env)) && succeeds (snd (on_exited_write env))
  then true
  else succeeds (snd (on_failed_write env)).

(** ** Counting exits in the log *)

Definition is_terminal_write (id : string) (e : Event) : bool :=
  match e with
  | UpdateTradeStatus id' st _ =>
      String.eqb id id'
      && match st with exited | failed => true | active => false end
  | _ => false
  end.

Definition terminal_writes (id : string) (w : World) : nat :=
  length (List.filter (is_terminal_write id) (log w)).

Definition is_executor_call (tid : string) (e : Event) : bool :=
  match e with
  | ExecuteTrade x _ => String.eqb tid (x_tradeId x)
  | _ => false
  end.

Definition executor_calls (tid : string) (w : World) : nat :=
  length (List.filter (is_executor_call tid) (log w)).

(** ** A sequence of price updates on one position *)

Definition apply_prices (trade : MonitoredTrade) (prices : list num)
    : MonitoredTrade :=
  fold_left updateTrailingStopData prices trade.

(** The trailing stop sits at its band from the extremum: 1% below the
    highest price of a buy, 1% above the lowest price of a sell. *)
Definition band (s : Side) : num :=
  match s with
  | buy => c0_99
  | sell => c1_01
  end.

Definition trailing_in_band (t : MonitoredTrade) : Prop :=
  Num.same (trailingStopPrice t)
           (Num.mul (highestPriceSinceEntry t) (band (signalMessage t))).

(** "Not less favourable": not lower for a buy, not higher for a sell. *)
Definition not_worse (s : Side) (before after : num) : Prop :=
  match before, after with
  | Some x, Some y =>
      match s with
      | buy => (x <= y)%Q
      | sell => (y <= x)%Q
      end
  | None, None => True
  | _, _ => False
  end.

(** ** The registration invariants of the data model *)

Definition positive (a : num) : bool := Num.lt (of_Z 0) a.

Definition meets_invariants (d : TradeDoc) : bool :=
  positive (Num.or (d_entryPrice d) (d_currentPrice d))
  && positive (parseFloat (or_str (d_entryAmount d) "0"))
  && positive (d_tp1 d) && positive (d_tp2 d) && positive (d_sl d).

(** ** The statements the code does not meet, as the specification words
    them *)

(** No intermediate result of [profitLoss] leaves the range of the finite
    doubles: the amount read is one, and both products are at most 2^1022
    in magnitude (so that their difference is below 2^1024). *)
Definition profitLoss_in_range (a e x : Q) : Prop :=
  (Qabs a < pow2 1024)%Q
  /\ (Qabs (a * e) <= pow2 1022)%Q
  /\ (Qabs (a * x) <= pow2 1022)%Q.

(** The recorded profit and loss is the amount times the price move,
    whether the amount is the double read or the decimal written, and
    whether the product is exact or computed as the code would. *)
Definition profitLoss_is_amount_times_move : Prop :=
  forall (trade : MonitoredTrade) (c : ExitCondition) (a d e x : Q),
    parseFloat (entryAmount trade) = Some a ->
    read_decimal (entryAmount trade) = Some d ->
    entryPrice trade = Some e ->
    ecPrice c = Some x ->
    let move := match signalMessage trade with
                | buy => (x - e)%Q
                | sell => (e - x)%Q
                end in
    Num.same (profitLoss trade c) (Some (a * move)%Q)
    \/ Num.same (profitLoss trade c) (Some (d * move)%Q)
    \/ Num.same (profitLoss trade c) (Some (round (a * round move))).

(** At most one terminal write per position, over every run. *)
Definition at_most_one_exit : Prop :=
  forall (acts : list Action) (w : World) (id : string),
    run initial acts = Some w -> (terminal_writes id w <= 1)%nat.

(** A manual exit is recorded under a kind no automatic exit uses. *)
Definition manual_exit_recorded_distinctly : Prop :=
  forall (w : World) (id : string) (r : nat) (trade : MonitoredTrade),
    find_trade (svc w) id = Some (r, trade) ->
    exists c,
      fst (manualExitTrade id w) = ExitAwaitExecute FromManual r c
      /\ ecPrice c = Num.or (currentPrice trade) (entryPrice trade)
      /\ forall t price now, chosen_exit t price now <> Some (kind_of (type c)).

(** A request that breaks an invariant is refused: the call throws, and
    neither the store is called nor the registry changed. *)
Definition register_rejects_violations : Prop :=
  forall (w : World) (d : TradeDoc),
    meets_invariants d = false ->
    exists w',
      step w (CallAddTrade d) = Some w'
      /\ svc w' = svc w /\ log w' = log w
      /\ tasks w' = (tasks w ++ [Done Thrown])%list.

(** After [stop], whatever the state it is called in. *)
Definition stopped (w : World) : Prop :=
  monitoredTrades (svc w) = []
  /\ monitoringInterval (svc w) = None
  /\ dbSyncInterval (svc w) = None
  /\ isRunning (svc w) = false.

Definition stop_leaves_nothing : Prop :=
  forall (acts : list Action) (w : World),
    run initial acts = Some w -> stopped (stop w).

(** Rehydration places the trailing stop on the losing side of the entry. *)
Definition rehydrate_by_side : Prop :=
  forall (trade : TradeDoc),
    highestPriceSinceEntry (rehydrate trade) = entryPrice (rehydrate trade)
    /\ Num.same (trailingStopPrice (rehydrate trade))
                (Num.mul (entryPrice (rehydrate trade))
                         (band (d_signalMessage trade))).

(** ** Sample data: the trade of the flow test and the sell of the
    specification's scenario 6 *)

Definition eth_buy : TradeDoc := {|
  d_id := "64f0c0ffee";
  d_tradeId := "test_trade_1";
  d_userId := "test_user";
  d_safeAddress := "0x742d35Cc6634C0532925a3b8d02d8C61Aa542De9";
  d_networkKey := "arbitrum";
  d_tokenSymbol := Some "ETH";
  d_tokenMentioned := "ETH";
  d_signalMessage := buy;
  d_entryPrice := None;
  d_currentPrice := of_Z 2400;
  d_tp1 := of_Z 2500;
  d_tp2 := of_Z 2600;
  d_sl := of_Z 2350;
  d_maxExitTime := 3600000;
  d_entryTxHash := Some "0x1234";
  d_entryAmount := Some "0.1";
  d_executedAt := None;
  d_createdAt := 0;
  d_status := active
|}.

Definition token_sell : TradeDoc := {|
  d_id := "64f0decade";
  d_tradeId := "trade_sell_1";
  d_userId := "test_user";
  d_safeAddress := "0x742d35Cc6634C0532925a3b8d02d8C61Aa542De9";
  d_networkKey := "arbitrum";
  d_tokenSymbol := Some "TKN";
  d_tokenMentioned := "TKN";
  d_signalMessage := sell;
  d_entryPrice := of_Z 100;
  d_currentPrice := None;
  d_tp1 := of_Z 95;
  d_tp2 := of_Z 90;
  d_sl := of_Z 105;
  d_maxExitTime := 3600000;
  d_entryTxHash := Some "0x5678";
  d_entryAmount := Some "1";
  d_executedAt := Some 0;
  d_createdAt := 0;
  d_status := active
|}.

(** A request with a negative amount. *)
Definition negative_amount : TradeDoc := {|
  d_id := EmptyString;
  d_tradeId := "test_trade_2";
  d_userId := "test_user";
  d_safeAddress := "0x742d35Cc6634C0532925a3b8d02d8C61Aa542De9";
  d_networkKey := "arbitrum";
  d_tokenSymbol := Some "ETH";
  d_tokenMentioned := "ETH";
  d_signalMessage := buy;
  d_entryPrice := None;
  d_currentPrice := of_Z 2400;
  d_tp1 := of_Z 2500;
  d_tp2 := of_Z 2600;
  d_sl := of_Z 2350;
  d_maxExitTime := 3600000;
  d_entryTxHash := Some "0x1234";
  d_entryAmount := Some "-0.1";
  d_executedAt := None;
  d_createdAt := 0;
  d_status := active
|}.

(** A manual exit that overtakes a tick: the trade is registered, the
    service started; while the price request of the first tick is pending
    the operator asks for a manual exit; then the price arrives above tp1.
    Every call to the store and to the executor succeeds. *)
Definition overtaken_tick : list Action :=
  [ CallAddTrade eth_buy;
    Resume 0 1000 (MongoId "64f0c0ffee");
    CallStart;
    Resume 1 2000 (ActiveTrades [eth_buy]);
    CallManualExit "test_trade_1";
    Resume 2 3000 (Price (of_Z 2505));
    Resume 3 4000 Resolved;
    Resume 2 4500 Resolved;
    Resume 3 5000 Resolved;
    Resume 2 5500 Resolved ].

(** Positions added to monitoring while the service was never started. *)
Definition added_never_started : list Action :=
  [ CallAddTrade eth_buy; Resume 0 1000 (MongoId "64f0c0ffee") ].

(** A stored sell is adopted at start, and its first price comes in just
    under the entry. *)
Definition sell_first_price : list Action :=
  [ CallStart;
    Resume 0 1000 (ActiveTrades [token_sell]);
    Resume 1 2000 (Price (Some (995 # 10)%Q)) ].

(** The service once it has adopted the stored sell at start. *)
Definition sell_adopted : World :=
  default initial
    (run initial [CallStart; Resume 0 1000 (ActiveTrades [token_sell])]).

(** The timer fields are only set while the service is running. *)
Definition handles_follow_running (s : Service) : Prop :=
  isRunning s = false ->
  monitoringInterval s = None /\ dbSyncInterval s = None.

Definition ctl (s : Service) : option nat * option nat * bool :=
  (monitoringInterval s, dbSyncInterval s, isRunning s).

(** * The rest of the service: read-outs and what every run keeps *)

(** ** Read-outs *)

(** [getTimeRemaining(maxExitTime)]; the clock it reads is [now]. *)
Definition getTimeRemaining (now maxExitTime : Date) : string :=
  let remaining := maxExitTime - now in
  if remaining <=? 0 then "EXPIRED"
  else
    let hours := remaining / (1000 * 60 * 60) in
    let minutes := (remaining mod (1000 * 60 * 60)) / (1000 * 60) in
    pretty hours +:+ "h " +:+ pretty minutes +:+ "m".

(** [getTradeStatus(tradeId)]: the first monitored trade with that
    tradeId, or null. *)
Definition getTradeStatus (s : Service) (id : string) : option MonitoredTrade :=
  List.find (fun t => String.eqb (tradeId t) id) (getMonitoredTrades s).

(** One entry of [trades] in [getSystemStatus()]. *)
Record TradeSummary : Type := {
  ts_tradeId : string;
  ts_tokenSymbol : string;
  ts_currentPrice : num;
  ts_entryPrice : num;
  ts_tp1 : num;
  ts_tp2 : num;
  ts_sl : num;
  ts_trailingStopPrice : num;
  ts_highestPriceSinceEntry : num;
  ts_trailingStopEnabled : bool;
  ts_timeRemaining : string;
  ts_priceCheckCount : nat
}.

Record Features : Type := {
  automaticTradeDetection : bool;
  periodicDatabaseSync : bool;
  realTimePriceMonitoring : bool;
  automaticExitExecution : bool
}.

Record SystemStatus : Type := {
  st_isRunning : bool;
  st_monitoredTradesCount : nat;
  st_monitoringInterval : Z;
  st_dbSyncInterval : Z;
  st_lastCheck : Date;
  st_features : Features;
  st_trades : list TradeSummary
}.

Definition MONITORING_INTERVAL_MS : Z := 30000.
Definition DB_SYNC_INTERVAL_MS : Z := 60000.

Definition summary (now : Date) (trade : MonitoredTrade) : TradeSummary := {|
  ts_tradeId := tradeId trade;
  ts_tokenSymbol := tokenSymbol trade;
  ts_currentPrice := currentPrice trade;
  ts_entryPrice := entryPrice trade;
  ts_tp1 := tp1 trade;
  ts_tp2 := tp2 trade;
  ts_sl := sl trade;
  ts_trailingStopPrice := trailingStopPrice trade;
  ts_highestPriceSinceEntry := highestPriceSinceEntry trade;
  ts_trailingStopEnabled := trailingStopEnabled trade;
  ts_timeRemaining := getTimeRemaining now (maxExitTime trade);
  ts_priceCheckCount := priceCheckCount trade
|}.

(** [getSystemStatus()]. *)
Definition getSystemStatus (now : Date) (s : Service) : SystemStatus := {|
  st_isRunning := isRunning s;
  st_monitoredTradesCount := JsMap.size (monitoredTrades s);
  st_monitoringInterval := MONITORING_INTERVAL_MS;
  st_dbSyncInterval := DB_SYNC_INTERVAL_MS;
  st_lastCheck := now;
  st_features := {| automaticTradeDetection := true;
                    periodicDatabaseSync := true;
                    realTimePriceMonitoring := true;
                    automaticExitExecution := true |};
  st_trades := map (summary now) (getMonitoredTrades s)
|}.

(** ** The registry seen through its references *)

(** [this.monitoredTrades.get(id)]: the reference kept under [id]. *)
Definition get_ref (id : string) (m : list (string * nat)) : option nat :=
  snd <$> List.find (fun kv => String.eqb id (fst kv)) m.

(** The object monitored under [id], if any. *)
Definition monitored (s : Service) (id : string) : option MonitoredTrade :=
  r ← get_ref id (monitoredTrades s); heap s !! r.


(** ** What every reachable state satisfies *)

(** Every entry of the [Map] refers to an object of the heap, filed under
    that object's own [_id]. *)
Definition refs_valid (s : Service) : Prop :=
  Forall (fun kv => exists t, heap s !! snd kv = Some t /\ _id t = fst kv)
         (monitoredTrades s).

Definition keys_unique (s : Service) : Prop :=
  NoDup (map fst (monitoredTrades s)).

Definition well_formed (s : Service) : Prop :=
  refs_valid s /\ keys_unique s.

(** The terms a position was registered with: the fields no method
    assigns. *)
Definition same_terms (a b : MonitoredTrade) : Prop :=
  _id a = _id b /\ tradeId a = tradeId b /\ userId a = userId b
  /\ safeAddress a = safeAddress b /\ networkKey a = networkKey b
  /\ tokenSymbol a = tokenSymbol b /\ tokenMentioned a = tokenMentioned b
  /\ signalMessage a = signalMessage b /\ entryPrice a = entryPrice b
  /\ tp1 a = tp1 b /\ tp2 a = tp2 b /\ sl a = sl b
  /\ maxExitTime a = maxExitTime b /\ entryTxHash a = entryTxHash b
  /\ entryAmount a = entryAmount b /\ executedAt a = executedAt b
  /\ status a = status b /\ trailingStopEnabled a = trailingStopEnabled b.

(** How one object may differ between an earlier and a later state. *)
Definition evolves (a b : MonitoredTrade) : Prop :=
  same_terms a b
  /\ (priceCheckCount a <= priceCheckCount b)%nat
  /\ not_worse (signalMessage a)
       (highestPriceSinceEntry a) (highestPriceSinceEntry b).

Definition heap_evolves (h h' : list MonitoredTrade) : Prop :=
  forall (r : nat) (t : MonitoredTrade),
    h !! r = Some t -> exists t', h' !! r = Some t' /\ evolves t t'.

(** The state of one object between ticks. *)
Definition never_priced (t : MonitoredTrade) : Prop :=
  currentPrice t = None /\ lastPriceCheck t = None /\ priceCheckCount t = 0%nat.

Definition priced (t : MonitoredTrade) : Prop :=
  truthy (currentPrice t) = true /\ is_Some (lastPriceCheck t)
  /\ (0 < priceCheckCount t)%nat.

(** A sell as the rehydration leaves it: extremum at the entry, stop 1%
    below it. *)
Definition stop_as_rehydrated (t : MonitoredTrade) : Prop :=
  highestPriceSinceEntry t = entryPrice t
  /\ trailingStopPrice t = Num.mul (entryPrice t) c0_99.

Definition object_ok (t : MonitoredTrade) : Prop :=
  trailingStopEnabled t = true
  /\ (never_priced t \/ priced t)
  /\ not_worse (signalMessage t) (entryPrice t) (highestPriceSinceEntry t)
  /\ match signalMessage t with
     | buy => trailing_in_band t
     | sell => trailing_in_band t \/ stop_as_rehydrated t
     end.

Definition heap_ok (w : World) : Prop := Forall object_ok (heap (svc w)).

(** ** The ways a method changes the fields of the service *)

(** An object as one of the three literals builds it, with the id it is
    filed under. *)
Definition fresh_object (id : string) (o : MonitoredTrade) : Prop :=
  (exists trade, o = rehydrate trade /\ id = d_id trade)
  \/ (exists tradeData now, o = newMonitoredTrade id tradeData now).

Inductive change : Service -> Service -> Prop :=
| ch_adopt (s : Service) (id : string) (o : MonitoredTrade) :
    fresh_object id o -> change s (adopt s id o)
| ch_delete (s : Service) (k : string) :
    change s (with_map s (JsMap.delete k (monitoredTrades s)))
| ch_tick (s : Service) (r : nat) (trade : MonitoredTrade) (price : num)
          (now : Date) :
    heap s !! r = Some trade ->
    truthy price = true ->
    change s
      (with_heap s
         (<[r := updateTrailingStopData (set_price_check trade price now) price]>
            (heap s)))
| ch_control (s : Service) (m : list (string * nat)) (mi di : option nat)
             (running : bool) :
    m = monitoredTrades s \/ m = [] ->
    change s {| heap := heap s; monitoredTrades := m;
                monitoringInterval := mi; dbSyncInterval := di;
                isRunning := running |}.

(** The service once it has adopted the stored buy at start. *)
Definition buy_adopted : World :=
  default initial
    (run initial [CallStart; Resume 0 1000 (ActiveTrades [eth_buy])]).

(** A stop loss the trailing stop always reaches first: at or beyond 1%
    from the entry, on the losing side. *)
Definition stop_loss_beyond_band (s : Side) (e stop : Q) : Prop :=
  match s with
  | buy => (stop <= e * (99 # 100))%Q
  | sell => (e * (101 # 100) <= stop)%Q /\ (0 <= e)%Q
  end.

(** The sell after its first price. *)
Definition sell_priced : World :=
  default initial (run initial sell_first_price).

Definition sell_after_first_price : MonitoredTrade :=
  set_price_check
    (apply_prices (rehydrate token_sell) [Some (995 # 10)%Q])
    (Some (995 # 10)%Q) 2000.


(** The service with the flow test's trade added and never started. *)
Definition added_only : World :=
  default initial (run initial added_never_started).

(** ** One exit, from the executor call to its end *)

Definition is_write (st : Status) (e : Event) : bool :=
  match e, st with
  | UpdateTradeStatus _ exited _, exited => true
  | UpdateTradeStatus _ failed _, failed => true
  | UpdateTradeStatus _ active _, active => true
  | _, _ => false
  end.

Definition writes (st : Status) (es : list Event) : nat :=
  length (List.filter (is_write st) es).

Definition is_ExecuteTrade (e : Event) : bool :=
  match e with
  | ExecuteTrade _ _ => true
  | _ => false
  end.

(** Thresholds on the sides the data model expects: take profits on the
    winning side of the entry, the stop loss on the losing side. *)
Definition thresholds_ordered (t : MonitoredTrade) (e : Q) : Prop :=
  match signalMessage t with
  | buy =>
      Num.le (Some e) (tp1 t) = true /\ Num.le (Some e) (tp2 t) = true
      /\ Num.le (sl t) (Some e) = true
  | sell =>
      Num.le (tp1 t) (Some e) = true /\ Num.le (tp2 t) (Some e) = true
      /\ Num.le (Some e) (sl t) = true
  end.

(** * Token detection: [EnhancedTokenDetectionService]

    The helpers of [NetworkUtils] and the table [TOKEN_MAP] are not part of
    the sources at hand; so is [String.prototype.toUpperCase].  They are
    parameters of the section. *)

Module TokenDetection.

Inductive Source : Type := coingecko | etherscan | dexscreener | manual | known.

(** [interface TokenChainInfo]. *)
Record TokenChainInfo : Type := {
  symbol : string;
  name : option string;
  contractAddress : string;
  chainId : Z;
  networkKey : string;
  decimals : option Z;
  verified : bool;
  source : Source
}.

(** [interface ChainDetectionResult].  [cachedAt] is not a field of the
    interface: [isCacheValid] reads it through a cast to [any], and no
    object literal of the service sets it. *)
Record ChainDetectionResult : Type := {
  success : bool;
  tokenInfo : option (list TokenChainInfo);
  primaryChain : option TokenChainInfo;
  error : option string;
  recommendedAction : option string;
  cachedAt : num
}.

(** The literal [{ success: false }]. *)
Definition not_found : ChainDetectionResult := {|
  success := false; tokenInfo := None; primaryChain := None;
  error := None; recommendedAction := None; cachedAt := None
|}.

(** The literal [{ success, tokenInfo: chainInfos, primaryChain:
    chainInfos[0] }]. *)
Definition found (ok : bool) (chainInfos : list TokenChainInfo)
    : ChainDetectionResult := {|
  success := ok; tokenInfo := Some chainInfos;
  primaryChain := head chainInfos;
  error := None; recommendedAction := None; cachedAt := None
|}.

(** [getSourcePriority(source)]. *)
Definition getSourcePriority (s : Source) : Z :=
  match s with
  | known => 5
  | coingecko => 4
  | manual => 3
  | dexscreener => 2
  | etherscan => 1
  end.

(** The key [`${info.networkKey}:${info.contractAddress}`]. *)
Definition key_of (info : TokenChainInfo) : string :=
  networkKey info +:+ ":" +:+ contractAddress info.

(** [Map.prototype.get]. *)
Definition get {V : Type} (k : string) (m : list (string * V)) : option V :=
  snd <$> List.find (fun kv => String.eqb k (fst kv)) m.

(** One round of the loop of [deduplicateAndRank]. *)
Definition keep_best (uniqueMap : list (string * TokenChainInfo))
    (info : TokenChainInfo) : list (string * TokenChainInfo) :=
  let key := key_of info in
  if negb (JsMap.has key uniqueMap)
     || from_option
          (fun old => getSourcePriority (source info)
                      >? getSourcePriority (source old))
          false (get key uniqueMap)
  then JsMap.set key info uniqueMap
  else uniqueMap.

(** The comparator handed to [sort]. *)
Definition compare_rank (a b : TokenChainInfo) : Z :=
  let priorityDiff :=
    getSourcePriority (source b) - getSourcePriority (source a) in
  if negb (priorityDiff =? 0) then priorityDiff
  else (if verified b then 1 else 0) - (if verified a then 1 else 0).

(** [Array.prototype.sort] with a comparator: a stable sort, here by
    insertion.  For a comparator that orders consistently, as
    [compare_rank] does, every stable sort gives this list. *)
Fixpoint insert_by {A : Type} (cmp : A -> A -> Z) (x : A) (l : list A)
    : list A :=
  match l with
  | [] => [x]
  | y :: r => if cmp x y <=? 0 then x :: l else y :: insert_by cmp x r
  end.

Definition sort_by {A : Type} (cmp : A -> A -> Z) (l : list A) : list A :=
  fold_right (insert_by cmp) [] l.

(** [deduplicateAndRank(tokenInfos)]. *)
Definition deduplicateAndRank (tokenInfos : list TokenChainInfo)
    : list TokenChainInfo :=
  sort_by compare_rank (JsMap.values (fold_left keep_best tokenInfos [])).

(** An entry of [userSafeDeployments]. *)
Record Deployment : Type := {
  isActive : bool;
  dep_networkKey : option string
}.

(** The set [userNetworks]: the network keys of the deployments with
    [d.isActive && d.networkKey]. *)
Definition userNetworks (ds : list Deployment) : list string :=
  omap (fun d =>
          if isActive d then
            match dep_networkKey d with
            | Some k => if String.eqb k EmptyString then None else Some k
            | None => None
            end
          else None)
       ds.

Definition on_user_network (nets : list string) (info : TokenChainInfo) : bool :=
  existsb (String.eqb (networkKey info)) nets.

(** [selectOptimalChain(result, userSafeDeployments)].  [None] stands for
    the [TypeError] of reading [networkKey] of an undefined primary
    chain. *)
Definition selectOptimalChain (result : ChainDetectionResult)
    (userSafeDeployments : option (list Deployment))
    : option ChainDetectionResult :=
  match tokenInfo result, userSafeDeployments with
  | Some infos, Some (d :: ds) =>
      if negb (success result) then Some result
      else
        let nets := userNetworks (d :: ds) in
        let compatibleChains := List.filter (on_user_network nets) infos in
        match compatibleChains with
        | first :: _ =>
            Some {| success := success result;
                    tokenInfo :=
                      Some (compatibleChains
                            ++ List.filter
                                 (fun info => negb (on_user_network nets info))
                                 infos)%list;
                    primaryChain := Some first;
                    error := error result;
                    recommendedAction := recommendedAction result;
                    cachedAt := cachedAt result |}
        | [] =>
            match (match primaryChain result with
                   | Some p => Some p
                   | None => head infos
                   end) with
            | Some primary =>
                Some {| success := success result;
                        tokenInfo := tokenInfo result;
                        primaryChain := primaryChain result;
                        error := error result;
                        recommendedAction :=
                          Some ("Deploy Safe on " +:+ networkKey primary
                                +:+ " network to trade " +:+ symbol primary);
                        cachedAt := cachedAt result |}
            | None => None
            end
        end
  | _, _ => Some result
  end.

(** [isCacheValid(cached)]; [now] is [Date.now()]. *)
Definition CACHE_TTL : Z := 5 * 60 * 1000.

Definition isCacheValid (now : Z) (cached : ChainDetectionResult) : bool :=
  Num.lt (Num.sub (of_Z now) (cachedAt cached)) (of_Z CACHE_TTL).

End TokenDetection.

(** What the [Map] of [deduplicateAndRank] holds once the entries [seen]
    have gone through the loop: one entry per key, filed under its own
    key, taken from [seen], and for every entry seen one of the same key
    and at least its priority. *)
Definition best_of (seen : list TokenDetection.TokenChainInfo)
    (m : list (string * TokenDetection.TokenChainInfo)) : Prop :=
  NoDup (map fst m)
  /\ (forall k v, In (k, v) m -> k = TokenDetection.key_of v /\ In v seen)
  /\ (forall x, In x seen ->
        exists v,
          TokenDetection.get (TokenDetection.key_of x) m = Some v
          /\ TokenDetection.getSourcePriority (TokenDetection.source x)
             <= TokenDetection.getSourcePriority (TokenDetection.source v)).

Module Detect.
Import TokenDetection.

(** What [NetworkUtils.getTokenInfo] answers: the fields the service
    reads, [addresses] in the order of [Object.entries]. *)
Record TokenInfo : Type := {
  ti_symbol : string;
  ti_name : option string;
  ti_decimals : option Z;
  ti_addresses : list (string * string)
}.

(** What [NetworkUtils.getNetworkByKey] answers. *)
Record Network : Type := {
  n_chainId : Z;
  n_networkKey : string
}.

(** The table [commonTokens] of [queryCommonAddresses]. *)
Definition commonTokens : list (string * list (string * string)) :=
  [ ("UNI",
     [ ("ethereum", "0x1f9840a85d5aF5bf1D1762F925BDADdC4201F984");
       ("arbitrum", "0xFa7F8980b0f1E64A2062791cc3b0871572f1F7f0");
       ("polygon", "0xb33EaAd8d922B1083446DC23f610c2567fB5180f");
       ("optimism", "0x6fd9d7AD17242c41f7131d257212c54A0e816691") ]);
    ("AAVE",
     [ ("ethereum", "0x7Fc66500c84A76Ad7e9c93437bFc5Ac33E2DDaE9");
       ("arbitrum", "0xba5DdD1f9d7F570dc94a51479a000E3BCE967196");
       ("polygon", "0xD6DF932A45C0f255f85145f286eA0b292B21C90B");
       ("optimism", "0x76FB31fb4af56892A25e32cFC43De717950c9278") ]);
    ("COMP",
     [ ("ethereum", "0xc00e94Cb662C3520282E6f5717214004A7f26888");
       ("arbitrum", "0x354A6dA3fcde098F8389cad84b0182725c6C91dE");
       ("polygon", "0x8505b9d2254A7Ae468c0E9dd10Ccea3A837aef5c") ]) ].

(** The table [fallbackTokens] of [tryFallbackAddresses]: empty. *)
Definition fallbackTokens : list (string * list (string * string)) := [].

(** What the service does once a call has answered or was suspended. *)
Inductive Phase : Type :=
| Returns (result : ChainDetectionResult)
| AwaitsQueries.

Section WithNetworkUtils.

Variable toUpperCase : string -> string.
Variable getTokenInfo : string -> option TokenInfo.
Variable getNetworkByKey : string -> option Network.
(** [Object.keys(TOKEN_MAP)]. *)
Variable token_map_keys : list string.
(** The message of the engine's [TypeError]. *)
Variable type_error_message : string.

(** [checkKnownTokens(tokenSymbol)]. *)
Definition checkKnownTokens (tokenSymbol : string) : ChainDetectionResult :=
  match getTokenInfo tokenSymbol with
  | None => not_found
  | Some tokenInfo =>
      found true
        (omap (fun entry =>
                 network ← getNetworkByKey (fst entry);
                 Some {| symbol := ti_symbol tokenInfo;
                         name := ti_name tokenInfo;
                         contractAddress := snd entry;
                         chainId := n_chainId network;
                         networkKey := n_networkKey network;
                         decimals := ti_decimals tokenInfo;
                         verified := true;
                         source := known |})
              (ti_addresses tokenInfo))
  end.

(** The loop shared, as text, by [queryCommonAddresses] and
    [tryFallbackAddresses]. *)
Definition manual_chains (tokenSymbol : string)
    (tokenAddresses : list (string * string)) : list TokenChainInfo :=
  omap (fun entry =>
          network ← getNetworkByKey (fst entry);
          Some {| symbol := toUpperCase tokenSymbol;
                  name := Some (tokenSymbol +:+ " Token");
                  contractAddress := snd entry;
                  chainId := n_chainId network;
                  networkKey := n_networkKey network;
                  decimals := Some 18;
                  verified := true;
                  source := manual |})
       tokenAddresses.

(** [queryCommonAddresses(tokenSymbol)]. *)
Definition queryCommonAddresses (tokenSymbol : string) : ChainDetectionResult :=
  match get (toUpperCase tokenSymbol) commonTokens with
  | None => not_found
  | Some tokenAddresses =>
      let chainInfos := manual_chains tokenSymbol tokenAddresses in
      found (0 <? Z.of_nat (length chainInfos)) chainInfos
  end.

(** [tryFallbackAddresses(tokenSymbol)]. *)
Definition tryFallbackAddresses (tokenSymbol : string) : ChainDetectionResult :=
  match get (toUpperCase tokenSymbol) fallbackTokens with
  | None => not_found
  | Some tokenAddresses =>
      let chainInfos := manual_chains tokenSymbol tokenAddresses in
      found (0 <? Z.of_nat (length chainInfos)) chainInfos
  end.

(** The result of the [catch] of [detectTokenChains]. *)
Definition detection_failed (message : string) : ChainDetectionResult := {|
  success := false; tokenInfo := None; primaryChain := None;
  error := Some ("Detection failed: " +:+ message);
  recommendedAction := Some "Please try again or contact support";
  cachedAt := None
|}.

(** [return this.selectOptimalChain(...)] inside the [try]. *)
Definition select_or_fail (result : ChainDetectionResult)
    (userSafeDeployments : option (list Deployment)) : ChainDetectionResult :=
  match selectOptimalChain result userSafeDeployments with
  | Some r => r
  | None => detection_failed type_error_message
  end.

(** The literal [errorResult]. *)
Definition errorResult (tokenSymbol : string) : ChainDetectionResult := {|
  success := false; tokenInfo := None; primaryChain := None;
  error := Some ("Token " +:+ tokenSymbol
                 +:+ " not found on any supported chains");
  recommendedAction :=
    Some ("Please verify the token symbol. Popular tokens supported: "
          +:+ String.concat ", " token_map_keys
          +:+ ". For other tokens, ensure they're available on Ethereum, Arbitrum, Polygon, Base, or Optimism.");
  cachedAt := None
|}.

(** [detectTokenChains] up to [await Promise.allSettled]. *)
Definition detect_begin (tokenSymbol : string)
    (userSafeDeployments : option (list Deployment)) (now : Z)
    (cache : list (string * ChainDetectionResult))
    : Phase * list (string * ChainDetectionResult) :=
  let cacheKey := toUpperCase tokenSymbol in
  match (match get cacheKey cache with
         | Some cached => if isCacheValid now cached then Some cached else None
         | None => None
         end) with
  | Some cached => (Returns (select_or_fail cached userSafeDeployments), cache)
  | None =>
      let knownTokenInfo := checkKnownTokens tokenSymbol in
      if success knownTokenInfo
         && (0 <? Z.of_nat (length (default [] (tokenInfo knownTokenInfo))))
      then (Returns (select_or_fail knownTokenInfo userSafeDeployments),
            JsMap.set cacheKey knownTokenInfo cache)
      else (AwaitsQueries, cache)
  end.

(** The token infos of one settled query: those of a fulfilled, successful
    result. *)
Definition settled_infos (res : option ChainDetectionResult)
    : list TokenChainInfo :=
  match res with
  | Some value => if success value then default [] (tokenInfo value) else []
  | None => []
  end.

(** [detectTokenChains] from the answers of the two API queries; a
    rejected promise is [None].  The third query, [queryCommonAddresses],
    awaits nothing. *)
Definition detect_finish (tokenSymbol : string)
    (userSafeDeployments : option (list Deployment))
    (coinGecko dexScreener : option ChainDetectionResult)
    (cache : list (string * ChainDetectionResult))
    : ChainDetectionResult * list (string * ChainDetectionResult) :=
  let cacheKey := toUpperCase tokenSymbol in
  let results :=
    [coinGecko; dexScreener; Some (queryCommonAddresses tokenSymbol)] in
  let allTokenInfo := concat (map settled_infos results) in
  if Nat.eqb (length allTokenInfo) 0 then
    let fallbackResult := tryFallbackAddresses tokenSymbol in
    if success fallbackResult
    then (select_or_fail fallbackResult userSafeDeployments,
          JsMap.set cacheKey fallbackResult cache)
    else (errorResult tokenSymbol,
          JsMap.set cacheKey (errorResult tokenSymbol) cache)
  else
    let uniqueTokenInfo := deduplicateAndRank allTokenInfo in
    let result := found true uniqueTokenInfo in
    (select_or_fail result userSafeDeployments,
     JsMap.set cacheKey result cache).

(** [clearCache()]. *)
Definition clearCache (cache : list (string * ChainDetectionResult))
    : list (string * ChainDetectionResult) :=
  JsMap.clear cache.

End WithNetworkUtils.

End Detect.

(** A result as the service builds it: no [cachedAt]; when successful, a
    non-empty list of chains and a primary chain among them. *)
Definition well_built (r : TokenDetection.ChainDetectionResult) : Prop :=
  TokenDetection.cachedAt r = None
  /\ (TokenDetection.success r = true ->
      exists infos p,
        TokenDetection.tokenInfo r = Some infos
        /\ TokenDetection.primaryChain r = Some p
        /\ In p infos).

(** Sample chains and a deployment. *)
Definition uni_eth : TokenDetection.TokenChainInfo := {|
  TokenDetection.symbol := "UNI"; TokenDetection.name := Some "UNI Token";
  TokenDetection.contractAddress := "0x1f9840a85d5aF5bf1D1762F925BDADdC4201F984";
  TokenDetection.chainId := 1; TokenDetection.networkKey := "ethereum";
  TokenDetection.decimals := Some 18; TokenDetection.verified := true;
  TokenDetection.source := TokenDetection.manual
|}.

Definition uni_arb : TokenDetection.TokenChainInfo := {|
  TokenDetection.symbol := "UNI"; TokenDetection.name := Some "UNI Token";
  TokenDetection.contractAddress := "0xFa7F8980b0f1E64A2062791cc3b0871572f1F7f0";
  TokenDetection.chainId := 42161; TokenDetection.networkKey := "arbitrum";
  TokenDetection.decimals := Some 18; TokenDetection.verified := true;
  TokenDetection.source := TokenDetection.manual
|}.

Definition safe_on_arbitrum : TokenDetection.Deployment := {|
  TokenDetection.isActive := true;
  TokenDetection.dep_networkKey := Some "arbitrum"
|}.

Definition safe_on_base : TokenDetection.Deployment := {|
  TokenDetection.isActive := true;
  TokenDetection.dep_networkKey := Some "base"
|}.

(** A cache no entry of which carries [cachedAt]. *)
Definition uncached (cache : list (string * TokenDetection.ChainDetectionResult))
    : Prop :=
  Forall (fun kv => TokenDetection.cachedAt (snd kv) = None) cache.

(** A successful result as [detectTokenChains] returns it: chains listed,
    none twice, a primary chain among them, no error. *)
Definition good_result (r : TokenDetection.ChainDetectionResult)
    (from : list TokenDetection.TokenChainInfo) : Prop :=
  TokenDetection.success r = true
  /\ TokenDetection.error r = None
  /\ exists infos p,
       TokenDetection.tokenInfo r = Some infos
       /\ Permutation infos from
       /\ TokenDetection.primaryChain r = Some p
       /\ In p infos.

(** Sample answers of [NetworkUtils], for symbols already in upper case. *)
Definition sample_upper (s : string) : string := s.

Definition sample_tokens (s : string) : option Detect.TokenInfo :=
  if String.eqb s "WETH"
  then Some {| Detect.ti_symbol := "WETH";
               Detect.ti_name := Some "Wrapped Ether";
               Detect.ti_decimals := Some 18;
               Detect.ti_addresses :=
                 [ ("ethereum", "0xC02aaA39b223FE8D0A0e5C4F27eAD9083C756Cc2");
                   ("solana", "So11111111111111111111111111111111111111112") ] |}
  else None.

Definition sample_networks (k : string) : option Detect.Network :=
  if String.eqb k "ethereum"
  then Some {| Detect.n_chainId := 1; Detect.n_networkKey := "ethereum" |}
  else if String.eqb k "arbitrum"
  then Some {| Detect.n_chainId := 42161; Detect.n_networkKey := "arbitrum" |}
  else None.

(** * The two API queries

    The JSON the queries read is typed here by the fields they read; a
    field the code guards ([?.], [||]) is optional.  A request that throws
    or times out is [Throws]. *)

Module Queries.
Import TokenDetection.

Inductive Axios (A : Type) : Type :=
| Resolves (data : A)
| Throws.

Arguments Resolves {A} data.
Arguments Throws {A}.

Definition MAX_RETRIES : nat := 2.

(** The retry loop both queries are written with: [attempt_result n] is
    what the body of the [try] returns at attempt [n], or [None] when it
    throws.  The second component counts the attempts made. *)
Fixpoint retry_from (remaining attempt : nat)
    (attempt_result : nat -> option ChainDetectionResult)
    : ChainDetectionResult * nat :=
  match remaining with
  | O => (not_found, O)
  | S rest =>
      match attempt_result attempt with
      | Some result => (result, 1%nat)
      | None =>
          if Nat.eqb attempt MAX_RETRIES then (not_found, 1%nat)
          else
            let '(result, n) := retry_from rest (S attempt) attempt_result in
            (result, S n)
      end
  end.

Definition with_retry (attempt_result : nat -> option ChainDetectionResult)
    : ChainDetectionResult * nat :=
  retry_from MAX_RETRIES 1 attempt_result.

(** The literal returned when chains were found, [{ success: false }]
    otherwise. *)
Definition found_or_not (chainInfos : list TokenChainInfo)
    : ChainDetectionResult :=
  match chainInfos with
  | [] => not_found
  | _ :: _ => found true chainInfos
  end.

(** ** DexScreener *)

Record BaseToken : Type := {
  bt_symbol : option string;
  bt_name : option string;
  bt_address : string
}.

Record Pair : Type := {
  p_baseToken : option BaseToken;
  p_chainId : string;
  p_fdv : num
}.

(** [chainMap] and [platformMap] are read here at their own keys only (a
    chain id such as [toString] would reach [Object.prototype]). *)
Definition chainMap : list (string * string) :=
  [ ("ethereum", "ethereum"); ("arbitrum", "arbitrum");
    ("polygon", "polygon"); ("base", "base"); ("optimism", "optimism") ].

(** ** CoinGecko *)

Record Coin : Type := {
  coin_id : string;
  coin_symbol : option string
}.

(** [coinResponse.data]: [platforms] in the order of [Object.entries], an
    address being a string or missing; [decimal_place] of a platform where
    [detail_platforms] has one. *)
Record CoinData : Type := {
  cd_symbol : option string;
  cd_name : option string;
  cd_platforms : option (list (string * option string));
  cd_decimal_place : string -> option Z
}.

Definition platformMap : list (string * string) :=
  [ ("ethereum", "ethereum"); ("arbitrum-one", "arbitrum");
    ("polygon-pos", "polygon"); ("base", "base");
    ("optimistic-ethereum", "optimism") ].

Section WithNetworkUtils.

Variable toUpperCase : string -> string.
Variable toLowerCase : string -> string.
Variable getNetworkByKey : string -> option Detect.Network.

(** [a?.toUpperCase() || b.toUpperCase()]. *)
Definition upper_or (a : option string) (b : string) : string :=
  match a with
  | Some s => if String.eqb (toUpperCase s) EmptyString then toUpperCase b
              else toUpperCase s
  | None => toUpperCase b
  end.

(** One round of the loop over [pairs]: the set [processedAddresses] and
    the array [chainInfos]. *)
Definition dex_round (tokenSymbol : string)
    (st : list string * list TokenChainInfo) (pair : Pair)
    : list string * list TokenChainInfo :=
  match p_baseToken pair with
  | None => st
  | Some baseToken =>
      if negb (from_option
                 (fun s => String.eqb (toUpperCase s) (toUpperCase tokenSymbol))
                 false (bt_symbol baseToken))
      then st
      else
        match get (p_chainId pair) chainMap with
        | None => st
        | Some networkKey =>
            match getNetworkByKey networkKey with
            | None => st
            | Some network =>
                let address := bt_address baseToken in
                let addressKey := networkKey +:+ ":" +:+ address in
                if existsb (String.eqb addressKey) (fst st) then st
                else
                  ((fst st ++ [addressKey])%list,
                   (snd st
                    ++ [ {| symbol := upper_or (bt_symbol baseToken) tokenSymbol;
                            name := bt_name baseToken;
                            contractAddress := address;
                            chainId := Detect.n_chainId network;
                            networkKey := Detect.n_networkKey network;
                            decimals := Some 18;
                            verified := Num.gt (p_fdv pair) (of_Z 1000000);
                            source := dexscreener |} ])%list)
            end
        end
  end.

(** The body of the [try] of [queryDexScreenerWithRetry], given what the
    request answers ([pairs] may be missing). *)
Definition dex_attempt (tokenSymbol : string)
    (response : Axios (option (list Pair))) : option ChainDetectionResult :=
  match response with
  | Throws => None
  | Resolves data =>
      let pairs := default [] data in
      Some (found_or_not
              (snd (fold_left (dex_round tokenSymbol) pairs ([], []))))
  end.

(** [queryDexScreenerWithRetry(tokenSymbol)]; [responses n] is the answer
    of the request of attempt [n]. *)
Definition queryDexScreenerWithRetry (tokenSymbol : string)
    (responses : nat -> Axios (option (list Pair)))
    : ChainDetectionResult * nat :=
  with_retry (fun attempt => dex_attempt tokenSymbol (responses attempt)).

(** One round of the loop over [platforms]: the chain pushed, if any. *)
Definition gecko_entry (tokenSymbol : string) (coinData : CoinData)
    (entry : string * option string) : option TokenChainInfo :=
  let platform := fst entry in
  match get platform platformMap, snd entry with
  | Some networkKey, Some address =>
      if String.eqb address EmptyString then None
      else
        match getNetworkByKey networkKey with
        | None => None
        | Some network =>
            Some {| symbol := upper_or (cd_symbol coinData) tokenSymbol;
                    name := cd_name coinData;
                    contractAddress := address;
                    chainId := Detect.n_chainId network;
                    networkKey := Detect.n_networkKey network;
                    decimals :=
                      Some (match cd_decimal_place coinData platform with
                            | Some z => if z =? 0 then 18 else z
                            | None => 18
                            end);
                    verified := true;
                    source := coingecko |}
        end
  | _, _ => None
  end.

(** The loop over [platforms]. *)
Definition gecko_chains (tokenSymbol : string) (coinData : CoinData)
    : list TokenChainInfo :=
  omap (gecko_entry tokenSymbol coinData)
       (default [] (cd_platforms coinData)).

(** The body of the [try] of [queryCoinGeckoWithRetry]: the search, then
    the request for the coin of the exact match.  The second component
    counts the requests sent. *)
Definition gecko_attempt (tokenSymbol : string)
    (search : Axios (option (list Coin)))
    (coin : string -> Axios CoinData)
    : option ChainDetectionResult * nat :=
  match search with
  | Throws => (None, 1%nat)
  | Resolves data =>
      let coins := default [] data in
      match List.find
              (fun c => from_option
                          (fun s => String.eqb (toLowerCase s)
                                               (toLowerCase tokenSymbol))
                          false (coin_symbol c))
              coins with
      | None => (Some not_found, 1%nat)
      | Some exactMatch =>
          match coin (coin_id exactMatch) with
          | Throws => (None, 2%nat)
          | Resolves coinData =>
              (Some (found_or_not (gecko_chains tokenSymbol coinData)), 2%nat)
          end
      end
  end.

(** [queryCoinGeckoWithRetry(tokenSymbol)]; [search n] and [coin n] are
    the answers of the requests of attempt [n]. *)
Definition queryCoinGeckoWithRetry (tokenSymbol : string)
    (search : nat -> Axios (option (list Coin)))
    (coin : nat -> string -> Axios CoinData)
    : ChainDetectionResult * nat :=
  with_retry
    (fun attempt => fst (gecko_attempt tokenSymbol (search attempt) (coin attempt))).

(** What a chain listed by DexScreener is made of: a pair of the answer
    whose base token bears the requested symbol, on a chain of [chainMap]
    that [NetworkUtils] knows. *)
Definition dex_listing (tokenSymbol : string) (pair : Pair)
    (info : TokenChainInfo) : Prop :=
  exists baseToken s key network,
    p_baseToken pair = Some baseToken
    /\ bt_symbol baseToken = Some s
    /\ toUpperCase s = toUpperCase tokenSymbol
    /\ get (p_chainId pair) chainMap = Some key
    /\ getNetworkByKey key = Some network
    /\ info = {| symbol := toUpperCase tokenSymbol;
                 name := bt_name baseToken;
                 contractAddress := bt_address baseToken;
                 chainId := Detect.n_chainId network;
                 networkKey := Detect.n_networkKey network;
                 decimals := Some 18;
                 verified := Num.gt (p_fdv pair) (of_Z 1000000);
                 source := dexscreener |}.

(** What a chain listed by CoinGecko is made of. *)
Definition gecko_listing (coinData : CoinData) (info : TokenChainInfo)
    : Prop :=
  exists platform key network d,
    In (platform, Some (contractAddress info))
       (default [] (cd_platforms coinData))
    /\ contractAddress info <> EmptyString
    /\ get platform platformMap = Some key
    /\ getNetworkByKey key = Some network
    /\ chainId info = Detect.n_chainId network
    /\ networkKey info = Detect.n_networkKey network
    /\ decimals info = Some d /\ d <> 0
    /\ name info = cd_name coinData
    /\ verified info = true
    /\ source info = coingecko.

(** [NetworkUtils.getNetworkByKey] answers with the network of the key it
    was asked for. *)
Definition networks_keyed : Prop :=
  forall key network,
    getNetworkByKey key = Some network -> Detect.n_networkKey network = key.

End WithNetworkUtils.

End Queries.

(** An environment in which the executor refuses the reversing trade and
    the store takes the failure record. *)
Definition executor_down : ExitEnv := {|
  on_executeTrade := (4000, Fails (Some "insufficient funds"));
  on_exited_write := (4500, Succeeds);
  on_failed_write := (5000, Succeeds)
|}.

(** Sample answers of the two APIs: DexScreener fails once, then lists UNI
    twice at one address on Ethereum and once on Arbitrum; the CoinGecko
    search knows no coin of the symbol asked for. *)
Definition uni_pair (chain address : string) (fdv : num) : Queries.Pair := {|
  Queries.p_baseToken :=
    Some {| Queries.bt_symbol := Some "UNI";
            Queries.bt_name := Some "Uniswap";
            Queries.bt_address := address |};
  Queries.p_chainId := chain;
  Queries.p_fdv := fdv
|}.

Definition dex_answers (attempt : nat)
    : Queries.Axios (option (list Queries.Pair)) :=
  if Nat.eqb attempt 1 then Queries.Throws
  else
    Queries.Resolves
      (Some [ uni_pair "ethereum" "0x1f9840a85d5aF5bf1D1762F925BDADdC4201F984"
                (of_Z 5000000);
              uni_pair "arbitrum" "0xFa7F8980b0f1E64A2062791cc3b0871572f1F7f0"
                (of_Z 20000);
              uni_pair "ethereum" "0x1f9840a85d5aF5bf1D1762F925BDADdC4201F984"
                None;
              uni_pair "bsc" "0xBf5140A22578168FD562DCcF235E5D43A02ce9B1"
                (of_Z 9000000) ]).

Definition sample_lower (s : string) : string := s.

Definition gecko_search (attempt : nat)
    : Queries.Axios (option (list Queries.Coin)) :=
  Queries.Resolves
    (Some [ {| Queries.coin_id := "unicorn-token";
               Queries.coin_symbol := Some "unic" |};
            {| Queries.coin_id := "unnamed"; Queries.coin_symbol := None |} ]).

Definition gecko_coin (attempt : nat) (id : string)
    : Queries.Axios Queries.CoinData :=
  Queries.Throws.

(** * Rounding to the nearest double

    What the theorems on the recorded profit and loss need of [Num.round]:
    it is odd, monotone, fixes 0, and is within half a unit in the last
    place of its argument. *)

Section Rounding.

#[local] Open Scope Q_scope.

Lemma pow2_pos (e : Z) : 0 < pow2 e.
Proof. apply Qpower_0_lt. reflexivity. Qed.

Lemma pow2_plus (a b : Z) : pow2 (a + b) == pow2 a * pow2 b.
Proof. apply Qpower_plus. intros H. discriminate H. Qed.

Lemma pow2_le (a b : Z) : (a <= b)%Z -> pow2 a <= pow2 b.
Proof.
  intros H. apply Qpower_le_compat_l; [ exact H | ].
  unfold Qle. cbn. lia.
Qed.

Lemma pow2_lt_inv (a b : Z) : pow2 a < pow2 b -> (a < b)%Z.
Proof. intros H. apply (Qpower_lt_compat_l_inv 2); [ exact H | reflexivity ]. Qed.

Lemma pow2_inject (e : Z) : (0 <= e)%Z -> pow2 e == inject_Z (2 ^ e).
Proof. intros H. unfold pow2. rewrite Zpower_Qpower by exact H. reflexivity. Qed.

Lemma inject_Z_succ (k : Z) : inject_Z (k + 1) == inject_Z k + 1.
Proof. rewrite inject_Z_plus. reflexivity. Qed.

Lemma inject_Z_pred (k : Z) : inject_Z (k - 1) == inject_Z k - 1.
Proof. unfold Z.sub. rewrite inject_Z_plus. reflexivity. Qed.

Lemma Qfloor_unique (z : Q) (k : Z) :
  inject_Z k <= z -> z < inject_Z (k + 1) -> Qfloor z = k.
Proof.
  intros H1 H2.
  pose proof (Qfloor_le z) as F1. pose proof (Qlt_floor z) as F2.
  assert (A : (k < Qfloor z + 1)%Z).
  { rewrite Zlt_Qlt. eapply Qle_lt_trans; [ exact H1 | exact F2 ]. }
  assert (B : (Qfloor z < k + 1)%Z).
  { rewrite Zlt_Qlt. eapply Qle_lt_trans; [ exact F1 | exact H2 ]. }
  lia.
Qed.

Lemma nearest_even_comp (y y' : Q) :
  y == y' -> nearest_even y = nearest_even y'.
Proof.
  intros E. unfold nearest_even. rewrite (Qfloor_comp _ _ E).
  assert (E2 : y - inject_Z (Qfloor y') == y' - inject_Z (Qfloor y'))
    by (rewrite E; reflexivity).
  rewrite (Qcompare_comp _ _ E2 (1 # 2) (1 # 2) (Qeq_refl _)). reflexivity.
Qed.

Lemma nearest_even_cases (y : Q) :
  (nearest_even y = Qfloor y /\ y - inject_Z (Qfloor y) <= 1 # 2)
  \/ (nearest_even y = (Qfloor y + 1)%Z /\ 1 # 2 <= y - inject_Z (Qfloor y)).
Proof.
  unfold nearest_even.
  destruct (Qcompare_spec (y - inject_Z (Qfloor y)) (1 # 2)) as [E|E|E].
  - destruct (Z.even (Qfloor y)); [ left | right ]; split;
      try reflexivity; rewrite E; apply Qle_refl.
  - left. split; [ reflexivity | apply Qlt_le_weak; exact E ].
  - right. split; [ reflexivity | apply Qlt_le_weak; exact E ].
Qed.

Lemma nearest_even_Z (k : Z) : nearest_even (inject_Z k) = k.
Proof.
  unfold nearest_even. rewrite Qfloor_Z.
  destruct (Qcompare_spec (inject_Z k - inject_Z k) (1 # 2)) as [E|E|E];
    [ exfalso; lra | reflexivity | exfalso; lra ].
Qed.

Lemma nearest_even_error (y : Q) :
  Qabs (inject_Z (nearest_even y) - y) <= 1 # 2.
Proof.
  pose proof (Qfloor_le y) as F1. pose proof (Qlt_floor y) as F2.
  rewrite inject_Z_plus in F2. change (inject_Z 1) with 1 in F2.
  apply Qabs_Qle_condition.
  destruct (nearest_even_cases y) as [[-> H]|[-> H]].
  - split; lra.
  - rewrite inject_Z_plus. change (inject_Z 1) with 1. split; lra.
Qed.

Lemma nearest_even_mono (y1 y2 : Q) :
  y1 <= y2 -> (nearest_even y1 <= nearest_even y2)%Z.
Proof.
  intros H.
  pose proof (Qfloor_resp_le _ _ H) as Hf.
  pose proof (Qfloor_le y1) as A1. pose proof (Qlt_floor y1) as A2.
  pose proof (Qfloor_le y2) as B1. pose proof (Qlt_floor y2) as B2.
  rewrite inject_Z_plus in A2, B2. change (inject_Z 1) with 1 in A2, B2.
  destruct (Z.eq_dec (Qfloor y1) (Qfloor y2)) as [E|E].
  - unfold nearest_even. rewrite E in *.
    destruct (Qcompare_spec (y1 - inject_Z (Qfloor y2)) (1 # 2)) as [E1|E1|E1];
      destruct (Qcompare_spec (y2 - inject_Z (Qfloor y2)) (1 # 2)) as [E2|E2|E2];
      destruct (Z.even (Qfloor y2)); try lia; exfalso; lra.
  - destruct (nearest_even_cases y1) as [[-> _]|[-> _]];
      destruct (nearest_even_cases y2) as [[-> _]|[-> _]]; lia.
Qed.

Lemma nearest_even_opp (y : Q) : nearest_even (- y) = (- nearest_even y)%Z.
Proof.
  pose proof (Qfloor_le y) as F1. pose proof (Qlt_floor y) as F2.
  rewrite inject_Z_plus in F2. change (inject_Z 1) with 1 in F2.
  destruct (Qeq_dec y (inject_Z (Qfloor y))) as [E|E].
  - rewrite (nearest_even_comp y _ E).
    assert (E' : - y == inject_Z (- Qfloor y))
      by (rewrite inject_Z_opp, <- E; reflexivity).
    rewrite (nearest_even_comp (- y) _ E'). rewrite !nearest_even_Z. reflexivity.
  - assert (Hlt : inject_Z (Qfloor y) < y).
    { apply Qle_lteq in F1. destruct F1 as [F1|F1]; [ exact F1 | ].
      exfalso. apply E. symmetry. exact F1. }
    assert (Hf : Qfloor (- y) = (- Qfloor y - 1)%Z).
    { apply Qfloor_unique.
      - rewrite inject_Z_pred, inject_Z_opp. lra.
      - replace (- Qfloor y - 1 + 1)%Z with (- Qfloor y)%Z by lia.
        rewrite inject_Z_opp. lra. }
    unfold nearest_even. rewrite Hf.
    assert (Hi : inject_Z (- Qfloor y - 1) == - inject_Z (Qfloor y) - 1).
    { rewrite inject_Z_pred, inject_Z_opp. reflexivity. }
    assert (Hev : Z.even (- Qfloor y - 1) = negb (Z.even (Qfloor y))).
    { rewrite Z.even_sub, Z.even_opp. cbn. destruct (Z.even (Qfloor y)); reflexivity. }
    rewrite Hev.
    destruct (Qcompare_spec (y - inject_Z (Qfloor y)) (1 # 2)) as [E1|E1|E1];
      destruct (Qcompare_spec (- y - inject_Z (- Qfloor y - 1)) (1 # 2))
        as [E2|E2|E2];
      rewrite Hi in E2;
      try (exfalso; lra);
      destruct (Z.even (Qfloor y)); cbn [negb]; lia.
Qed.

Lemma Z_log2_bracket (n : Z) :
  (0 < n)%Z ->
  pow2 (Z.log2 n) <= inject_Z n /\ inject_Z n < pow2 (Z.log2 n + 1).
Proof.
  intros Hn. pose proof (Z.log2_spec n Hn) as [H1 H2].
  pose proof (Z.log2_nonneg n) as H0.
  rewrite !pow2_inject by lia. split.
  - rewrite <- Zle_Qle. exact H1.
  - rewrite <- Zlt_Qlt. exact H2.
Qed.

Lemma ilog2_bracket (x : Q) :
  0 < x ->
  let k := (Z.log2 (Qnum x) - Z.log2 (Zpos (Qden x)))%Z in
  pow2 (k - 1) < x /\ x < pow2 (k + 1).
Proof.
  intros Hx. cbv zeta.
  destruct x as [n d]. cbn [Qnum Qden].
  assert (Hn : (0 < n)%Z).
  { unfold Qlt in Hx. cbn in Hx. lia. }
  destruct (Z_log2_bracket n Hn) as [N1 N2].
  destruct (Z_log2_bracket (Zpos d) eq_refl) as [D1 D2].
  set (ln := Z.log2 n) in *. set (ld := Z.log2 (Zpos d)) in *.
  assert (HD : 0 < inject_Z (Zpos d)) by reflexivity.
  rewrite (Qmake_Qdiv n d).
  pose proof (pow2_pos (ln - ld - 1)) as P1.
  pose proof (pow2_pos (ln - ld + 1)) as P2.
  split.
  - apply Qlt_shift_div_l; [ exact HD | ].
    eapply Qlt_le_trans; [ | exact N1 ].
    replace ln with ((ln - ld - 1) + (ld + 1))%Z at 2 by lia.
    rewrite pow2_plus. apply Qmult_lt_l; [ exact P1 | exact D2 ].
  - apply Qlt_shift_div_r; [ exact HD | ].
    eapply Qlt_le_trans; [ exact N2 | ].
    replace (ln + 1)%Z with ((ln - ld + 1) + ld)%Z by lia.
    rewrite pow2_plus. apply Qmult_le_l; [ exact P2 | exact D1 ].
Qed.

Lemma ilog2_spec (x : Q) :
  0 < x -> pow2 (ilog2 x) <= x /\ x < pow2 (ilog2 x + 1).
Proof.
  intros Hx. destruct (ilog2_bracket x Hx) as [B1 B2]. unfold ilog2.
  set (k := (Z.log2 (Qnum x) - Z.log2 (Zpos (Qden x)))%Z) in *.
  destruct (Qle_bool (pow2 k) x) eqn:E.
  - apply Qle_bool_iff in E. split; [ exact E | exact B2 ].
  - split; [ apply Qlt_le_weak; exact B1 | ].
    replace (k - 1 + 1)%Z with k by lia.
    apply Qnot_le_lt. intros H. apply Qle_bool_iff in H. congruence.
Qed.

Lemma ilog2_unique (x : Q) (j : Z) :
  pow2 j <= x -> x < pow2 (j + 1) -> ilog2 x = j.
Proof.
  intros H1 H2.
  assert (Hx : 0 < x) by (eapply Qlt_le_trans; [ apply pow2_pos | exact H1 ]).
  destruct (ilog2_spec x Hx) as [S1 S2].
  assert (A : (ilog2 x < j + 1)%Z).
  { apply pow2_lt_inv. eapply Qle_lt_trans; [ exact S1 | exact H2 ]. }
  assert (B : (j < ilog2 x + 1)%Z).
  { apply pow2_lt_inv. eapply Qle_lt_trans; [ exact H1 | exact S2 ]. }
  lia.
Qed.

Lemma ilog2_mono (x y : Q) : 0 < x -> x <= y -> (ilog2 x <= ilog2 y)%Z.
Proof.
  intros Hx Hxy.
  assert (Hy : 0 < y) by (eapply Qlt_le_trans; [ exact Hx | exact Hxy ]).
  destruct (ilog2_spec x Hx) as [S1 _]. destruct (ilog2_spec y Hy) as [_ T2].
  assert (A : (ilog2 x < ilog2 y + 1)%Z).
  { apply pow2_lt_inv. eapply Qle_lt_trans; [ exact S1 | ].
    eapply Qle_lt_trans; [ exact Hxy | exact T2 ]. }
  lia.
Qed.

Lemma ulp_exponent_mono (x y : Q) :
  0 < x -> x <= y -> (ulp_exponent x <= ulp_exponent y)%Z.
Proof.
  intros Hx Hxy.
  assert (Hy : 0 < y) by (eapply Qlt_le_trans; [ exact Hx | exact Hxy ]).
  unfold ulp_exponent.
  assert (H : (ilog2 (Qabs x) <= ilog2 (Qabs y))%Z).
  { apply ilog2_mono.
    - rewrite Qabs_pos by (apply Qlt_le_weak; exact Hx). exact Hx.
    - rewrite !Qabs_pos by (apply Qlt_le_weak; assumption). exact Hxy. }
  lia.
Qed.

Lemma ulp_exponent_opp (x : Q) : ulp_exponent (- x) = ulp_exponent x.
Proof.
  unfold ulp_exponent. destruct x as [n d]. unfold Qabs, Qopp. cbn [Qnum Qden].
  rewrite Z.abs_opp. reflexivity.
Qed.

(** The value of [round], before it is reduced. *)
Lemma round_value (x : Q) :
  round x
  == inject_Z (nearest_even (x / pow2 (ulp_exponent x))) * pow2 (ulp_exponent x).
Proof. unfold round. apply Qred_correct. Qed.

Lemma round_0 (x : Q) : x == 0 -> round x == 0.
Proof.
  intros E. rewrite round_value.
  assert (E0 : forall p, x / p == inject_Z 0).
  { intros p. rewrite E. unfold Qdiv. rewrite Qmult_0_l. reflexivity. }
  rewrite (nearest_even_comp _ _ (E0 _)), nearest_even_Z. apply Qmult_0_l.
Qed.

Lemma round_opp (x : Q) : round (- x) == - round x.
Proof.
  rewrite !round_value, ulp_exponent_opp.
  assert (E : - x / pow2 (ulp_exponent x) == - (x / pow2 (ulp_exponent x))).
  { unfold Qdiv. ring. }
  rewrite (nearest_even_comp _ _ E), nearest_even_opp, inject_Z_opp. ring.
Qed.

Lemma round_nonneg (x : Q) : 0 <= x -> 0 <= round x.
Proof.
  intros Hx. rewrite round_value.
  pose proof (pow2_pos (ulp_exponent x)) as P.
  apply Qmult_le_0_compat; [ | apply Qlt_le_weak; exact P ].
  change 0 with (inject_Z 0). rewrite <- Zle_Qle.
  rewrite <- (nearest_even_Z 0). apply nearest_even_mono.
  change (inject_Z 0) with 0. apply Qle_shift_div_l; [ exact P | ].
  rewrite Qmult_0_l. exact Hx.
Qed.

(** A positive number rounds into its binade. *)
Lemma round_binade (x : Q) :
  0 < x ->
  round x <= pow2 (ulp_exponent x + 53)
  /\ ((-1074 < ulp_exponent x)%Z -> pow2 (ulp_exponent x + 52) <= round x).
Proof.
  intros Hx.
  assert (Ha : Qabs x == x) by (apply Qabs_pos, Qlt_le_weak; exact Hx).
  assert (Hax : 0 < Qabs x) by (rewrite Ha; exact Hx).
  destruct (ilog2_spec (Qabs x) Hax) as [S1 S2].
  set (l := ilog2 (Qabs x)) in *.
  assert (S1' : pow2 l <= x) by (rewrite <- Ha; exact S1).
  assert (S2' : x < pow2 (l + 1)) by (rewrite <- Ha; exact S2).
  clear S1 S2. rename S1' into S1. rename S2' into S2.
  rewrite round_value.
  assert (Ee : ulp_exponent x = Z.max (l - 52) (-1074)) by reflexivity.
  revert Ee. generalize (ulp_exponent x). intros e Ee.
  pose proof (pow2_pos e) as P.
  split.
  - rewrite pow2_plus, (Qmult_comm (pow2 e)).
    apply Qmult_le_r; [ exact P | ].
    rewrite (pow2_inject 53) by lia. rewrite <- Zle_Qle.
    rewrite <- (nearest_even_Z (2 ^ 53)). apply nearest_even_mono.
    rewrite <- (pow2_inject 53) by lia.
    apply Qle_shift_div_r; [ exact P | ].
    rewrite <- pow2_plus. apply Qlt_le_weak.
    eapply Qlt_le_trans; [ exact S2 | ]. apply pow2_le. lia.
  - intros He.
    rewrite pow2_plus, (Qmult_comm (pow2 e)).
    apply Qmult_le_r; [ exact P | ].
    rewrite (pow2_inject 52) by lia. rewrite <- Zle_Qle.
    rewrite <- (nearest_even_Z (2 ^ 52)). apply nearest_even_mono.
    rewrite <- (pow2_inject 52) by lia.
    apply Qle_shift_div_l; [ exact P | ].
    rewrite <- pow2_plus.
    eapply Qle_trans; [ | exact S1 ]. apply pow2_le. lia.
Qed.

Lemma round_mono_pos (x y : Q) : 0 < x -> x <= y -> round x <= round y.
Proof.
  intros Hx Hxy.
  assert (Hy : 0 < y) by (eapply Qlt_le_trans; [ exact Hx | exact Hxy ]).
  pose proof (ulp_exponent_mono x y Hx Hxy) as He.
  destruct (Z.eq_dec (ulp_exponent x) (ulp_exponent y)) as [E|E].
  - rewrite !round_value, E.
    pose proof (pow2_pos (ulp_exponent y)) as P.
    apply Qmult_le_r; [ exact P | ].
    rewrite <- Zle_Qle. apply nearest_even_mono.
    apply Qmult_le_r; [ apply Qinv_lt_0_compat; exact P | exact Hxy ].
  - destruct (round_binade x Hx) as [X1 _].
    destruct (round_binade y Hy) as [_ Y2].
    assert (Hm : (-1074 <= ulp_exponent x)%Z) by (unfold ulp_exponent; lia).
    eapply Qle_trans; [ exact X1 | ].
    eapply Qle_trans; [ | apply Y2; lia ].
    apply pow2_le. lia.
Qed.

Lemma round_comp (x y : Q) : x == y -> round x == round y.
Proof.
  intros E. destruct (Qlt_le_dec 0 x) as [Hx|Hx].
  - apply Qle_antisym; apply round_mono_pos;
      try exact Hx; try (rewrite <- E; exact Hx);
      rewrite E; apply Qle_refl.
  - destruct (Qeq_dec x 0) as [Z|Z].
    + rewrite (round_0 x Z), (round_0 y); [ reflexivity | ].
      rewrite <- E. exact Z.
    + assert (Hn : 0 < - x) by lra.
      assert (E' : - x == - y) by (rewrite E; reflexivity).
      assert (R : round (- x) == round (- y)).
      { apply Qle_antisym; apply round_mono_pos;
          try exact Hn; try (rewrite <- E'; exact Hn);
          rewrite E'; apply Qle_refl. }
      rewrite !round_opp in R. lra.
Qed.

Lemma round_mono (x y : Q) : x <= y -> round x <= round y.
Proof.
  intros Hxy.
  destruct (Qlt_le_dec 0 x) as [Hx|Hx]; [ apply round_mono_pos; assumption | ].
  destruct (Qlt_le_dec y 0) as [Hy|Hy].
  - assert (H : round (- y) <= round (- x)).
    { apply round_mono_pos; lra. }
    rewrite !round_opp in H. lra.
  - pose proof (round_nonneg y Hy) as Ry.
    assert (H : 0 <= round (- x)) by (apply round_nonneg; lra).
    rewrite round_opp in H. lra.
Qed.

Lemma round_error (x : Q) :
  Qabs (round x - x) <= Qabs x * pow2 (-53) + pow2 (-1075).
Proof.
  pose proof (Qabs_nonneg x) as Hx0.
  pose proof (pow2_pos (-53)) as U. pose proof (pow2_pos (-1075)) as N.
  destruct (Qeq_dec x 0) as [Z|Z].
  - assert (E : round x - x == 0) by (rewrite (round_0 x Z), Z; reflexivity).
    rewrite E. cbn [Qabs Z.abs].
    apply Qle_trans with (0 * pow2 (-53) + 0); [ rewrite Qmult_0_l; apply Qle_refl | ].
    apply Qplus_le_compat; [ | apply Qlt_le_weak; exact N ].
    apply Qmult_le_compat_r; [ exact Hx0 | apply Qlt_le_weak; exact U ].
  - assert (Hax : 0 < Qabs x).
    { apply Qle_lteq in Hx0. destruct Hx0 as [H|H]; [ exact H | ].
      exfalso. apply Z. destruct (Qlt_le_dec x 0) as [L|L].
      - rewrite Qabs_neg in H by (apply Qlt_le_weak; exact L). lra.
      - rewrite Qabs_pos in H by exact L. symmetry. exact H. }
    destruct (ilog2_spec (Qabs x) Hax) as [S1 _].
    pose proof (round_value x) as V.
    assert (Ee : ulp_exponent x = Z.max (ilog2 (Qabs x) - 52) (-1074))
      by reflexivity.
    revert V Ee. generalize (ulp_exponent x). intros e V Ee.
    set (l := ilog2 (Qabs x)) in *.
    pose proof (pow2_pos e) as P.
    pose proof (nearest_even_error (x / pow2 e)) as A.
    assert (D : round x - x
                == (inject_Z (nearest_even (x / pow2 e)) - x / pow2 e) * pow2 e).
    { rewrite V. field. intros H. rewrite H in P. discriminate P. }
    rewrite D, Qabs_Qmult, (Qabs_pos (pow2 e)) by (apply Qlt_le_weak; exact P).
    apply Qle_trans with ((1 # 2) * pow2 e).
    { apply Qmult_le_compat_r; [ exact A | apply Qlt_le_weak; exact P ]. }
    assert (Hh : (1 # 2) * pow2 e == pow2 (e - 1)).
    { replace (e - 1)%Z with (e + -1)%Z by lia.
      rewrite pow2_plus. change (pow2 (-1)) with (1 # 2). ring. }
    rewrite Hh.
    destruct (Z_le_gt_dec (-1074) (l - 52)) as [C|C].
    + replace (e - 1)%Z with (l + -53)%Z by lia. rewrite pow2_plus.
      apply Qle_trans with (Qabs x * pow2 (-53)).
      * apply Qmult_le_compat_r; [ exact S1 | apply Qlt_le_weak; exact U ].
      * lra.
    + replace (e - 1)%Z with (-1075)%Z by lia.
      assert (0 <= Qabs x * pow2 (-53)).
      { apply Qmult_le_0_compat; [ exact Hx0 | apply Qlt_le_weak; exact U ]. }
      lra.
Qed.

Lemma round_nonpos (x : Q) : x <= 0 -> round x <= 0.
Proof.
  intros Hx. assert (H : 0 <= round (- x)) by (apply round_nonneg; lra).
  rewrite round_opp in H. lra.
Qed.

End Rounding.

(** ** Exit priority *)

(** C2.  For every position, price and instant, the exit kind chosen by
    [checkExitConditions] is the first true row of the priority table
    (max exit time, trailing stop when enabled, stop loss, tp2, tp1), and no
    exit fires when no row is true; the condition carries the price it was
    evaluated at. *)
Theorem checkExitConditions_follows_priority_table
    (trade : MonitoredTrade) (price : num) (now : Date) :
  chosen_exit trade price now = Spec.exit_kind trade price now
  /\ ecPrice (checkExitConditions trade price now) = price.
Proof.
  unfold chosen_exit, Spec.exit_kind, Spec.priority_table, checkExitConditions.
  unfold Spec.stop_hit, Spec.target_hit.
  destruct (now >=? maxExitTime trade); [ split; reflexivity | ].
  destruct (signalMessage trade); cbn [List.find snd fst].
  - destruct (trailingStopEnabled trade && Num.le price (trailingStopPrice trade));
      [ split; reflexivity | ].
    destruct (Num.le price (sl trade)); [ split; reflexivity | ].
    destruct (Num.ge price (tp2 trade)); [ split; reflexivity | ].
    destruct (Num.ge price (tp1 trade)); split; reflexivity.
  - destruct (trailingStopEnabled trade && Num.ge price (trailingStopPrice trade));
      [ split; reflexivity | ].
    destruct (Num.ge price (sl trade)); [ split; reflexivity | ].
    destruct (Num.le price (tp2 trade)); [ split; reflexivity | ].
    destruct (Num.le price (tp1 trade)); split; reflexivity.
Qed.

(** ** Arithmetic of [num] *)

Lemma Qlt_bool_iff (x y : Q) : Qlt_bool x y = true <-> (x < y)%Q.
Proof.
  unfold Qlt_bool. rewrite negb_true_iff. split.
  - intros E. apply Qnot_le_lt. intros L.
    apply Qle_bool_iff in L. congruence.
  - intros L. destruct (Qle_bool y x) eqn:E; [ | reflexivity ].
    apply Qle_bool_iff in E. exfalso. exact (Qlt_not_le _ _ L E).
Qed.

Lemma same_refl (a : num) : Num.same a a.
Proof. destruct a; simpl; [ reflexivity | exact I ]. Qed.

Lemma same_trans (a b c : num) : Num.same a b -> Num.same b c -> Num.same a c.
Proof.
  destruct a, b, c; simpl; try tauto. intros H1 H2. rewrite H1. exact H2.
Qed.

Lemma not_worse_refl (s : Side) (a : num) : not_worse s a a.
Proof. destruct a, s; simpl; try exact I; apply Qle_refl. Qed.

Lemma not_worse_trans (s : Side) (a b c : num) :
  not_worse s a b -> not_worse s b c -> not_worse s a c.
Proof.
  destruct a, b, c, s; simpl; try tauto; intros H1 H2.
  - exact (Qle_trans _ _ _ H1 H2).
  - exact (Qle_trans _ _ _ H2 H1).
Qed.

(** ** Profit and loss *)

Section ProfitLossRounding.

#[local] Open Scope Q_scope.

Lemma pow2_51 : pow2 (-51) == 4 * pow2 (-53).
Proof. vm_compute. reflexivity. Qed.

Lemma pow2_1073 : pow2 (-1073) == 4 * pow2 (-1075).
Proof. vm_compute. reflexivity. Qed.

Lemma pow2_53_half : pow2 (-53) <= 1 # 2.
Proof. apply Qle_bool_iff. vm_compute. reflexivity. Qed.

Lemma Qabs_bounds (x : Q) : 0 <= Qabs x /\ x <= Qabs x /\ - x <= Qabs x.
Proof.
  split; [ apply Qabs_nonneg | ]. split; [ apply Qle_Qabs | ].
  rewrite <- Qabs_opp. apply Qle_Qabs.
Qed.

(** The rounded difference of two rounded numbers against the exact
    difference. *)
Lemma rounded_difference_error (A B : Q) :
  Qabs (round (round A - round B) - (A - B))
  <= (Qabs A + Qabs B) * pow2 (-51) + pow2 (-1073).
Proof.
  pose proof (round_error A) as EA. pose proof (round_error B) as EB.
  pose proof (round_error (round A - round B)) as ED.
  pose proof (pow2_pos (-53)) as U. pose proof (pow2_pos (-1075)) as N.
  pose proof pow2_53_half as Uh.
  rewrite pow2_51, pow2_1073.
  destruct (Qabs_bounds A) as [A0 [A1 A2]].
  destruct (Qabs_bounds B) as [B0 [B1 B2]].
  apply Qabs_Qle_condition in EA, EB.
  assert (HD : Qabs (round A - round B)
               <= (Qabs A + Qabs B)
                  + (Qabs A * pow2 (-53) + pow2 (-1075))
                  + (Qabs B * pow2 (-53) + pow2 (-1075))).
  { apply Qabs_Qle_condition. split; lra. }
  apply Qabs_Qle_condition in ED.
  revert EA EB ED HD U N Uh A0 A1 A2 B0 B1 B2.
  generalize (round (round A - round B)) as v.
  generalize (Qabs (round A - round B)) as aD.
  generalize (round A) as rA. generalize (round B) as rB.
  generalize (Qabs A) as aA. generalize (Qabs B) as aB.
  generalize (pow2 (-53)) as u. generalize (pow2 (-1075)) as n.
  intros n u aB aA rB rA aD v EA EB ED HD U N Uh A0 A1 A2 B0 B1 B2.
  apply Qabs_Qle_condition.
  assert (P1 : aD * u <= ((aA + aB) + (aA * u + n) + (aB * u + n)) * u).
  { apply Qmult_le_compat_r; [ exact HD | lra ]. }
  assert (P2 : 0 <= aA * u) by (apply Qmult_le_0_compat; lra).
  assert (P3 : 0 <= aB * u) by (apply Qmult_le_0_compat; lra).
  assert (P4 : aA * u * u <= aA * u * (1 # 2)).
  { rewrite !(Qmult_comm (aA * u)). apply Qmult_le_compat_r; [ exact Uh | exact P2 ]. }
  assert (P5 : aB * u * u <= aB * u * (1 # 2)).
  { rewrite !(Qmult_comm (aB * u)). apply Qmult_le_compat_r; [ exact Uh | exact P3 ]. }
  assert (P6 : n * u <= n * (1 # 2)).
  { rewrite !(Qmult_comm n). apply Qmult_le_compat_r; [ exact Uh | lra ]. }
  split; lra.
Qed.

(** The sign of a rounded difference of rounded products is that of the
    prices' order. *)
Lemma rounded_gain (a x y : Q) :
  0 <= a -> y <= x -> 0 <= round (round (a * x) - round (a * y)).
Proof.
  intros Ha Hxy. apply round_nonneg.
  assert (H : round (a * y) <= round (a * x)) by (apply round_mono; nra).
  lra.
Qed.

Lemma rounded_loss (a x y : Q) :
  0 <= a -> x <= y -> round (round (a * x) - round (a * y)) <= 0.
Proof.
  intros Ha Hxy. apply round_nonpos.
  assert (H : round (a * x) <= round (a * y)) by (apply round_mono; nra).
  lra.
Qed.

End ProfitLossRounding.

(** The flow test's buy of 0.1 at 2400, closed at 2349: the service records
    the double 0.1 * 2349 - 0.1 * 2400 = -5.0999999999999943..., which is
    neither the amount times -51 (for the double 0.1 or for the decimal
    0.1) nor the double nearest to it, -5.1000000000000005.... *)
Lemma recorded_profitLoss_not_amount_times_move :
  ~ profitLoss_is_amount_times_move.
Proof.
  intros H.
  specialize (H (rehydrate eth_buy)
                (checkExitConditions (rehydrate eth_buy) (of_Z 2349) 2000)
                (3602879701896397 # 36028797018963968)%Q (1 # 10)%Q
                2400%Q 2349%Q).
  assert (Ha : parseFloat (entryAmount (rehydrate eth_buy))
               = Some (3602879701896397 # 36028797018963968)%Q)
    by (vm_compute; reflexivity).
  specialize (H Ha eq_refl eq_refl eq_refl).
  vm_compute in H. destruct H as [H|[H|H]]; discriminate H.
Qed.

(** C3.  When the reversing trade succeeds, the profitLoss written with
    status exited is the double (entryAmount * exitPrice) - (entryAmount *
    entryPrice) for a buy and (entryAmount * entryPrice) - (entryAmount *
    exitPrice) for a sell, the products and the difference each rounded to
    the nearest double.  It differs from entryAmount * (exitPrice -
    entryPrice), for a sell entryAmount * (entryPrice - exitPrice), by at
    most 2^-51 * (|entryAmount * exitPrice| + |entryAmount * entryPrice|)
    + 2^-1073; an exit at the entry price records a profitLoss of 0.  The
    amount and the two products are taken within the range of the finite
    doubles. *)
Theorem recorded_profitLoss_law
    (now : Date) (trade : MonitoredTrade) (who : Caller) (r : nat)
    (c : ExitCondition) :
  exists pl : num,
    resume_exit now trade (ExitAwaitExecute who r c) Resolved
    = Some (ExitAwaitExited who r c,
            [UpdateTradeStatus (_id trade) exited
               (ExitData (type c) (ecPrice c) (entryAmount trade) pl now)])
    /\ pl = (let amount := parseFloat (entryAmount trade) in
             match signalMessage trade with
             | buy => Num.sub64 (Num.mul64 amount (ecPrice c))
                                (Num.mul64 amount (entryPrice trade))
             | sell => Num.sub64 (Num.mul64 amount (entryPrice trade))
                                 (Num.mul64 amount (ecPrice c))
             end)
    /\ (forall a e x : Q,
          parseFloat (entryAmount trade) = Some a ->
          entryPrice trade = Some e ->
          ecPrice c = Some x ->
          profitLoss_in_range a e x ->
          exists v : Q,
            pl = Some v
            /\ (Qabs (v - match signalMessage trade with
                          | buy => a * (x - e)
                          | sell => a * (e - x)
                          end)
                <= (Qabs (a * x) + Qabs (a * e)) * pow2 (-51)
                   + pow2 (-1073))%Q
            /\ ((x == e)%Q -> (v == 0)%Q)).
Proof.
  exists (profitLoss trade c). split; [ reflexivity | ].
  split; [ reflexivity | ].
  intros a e x Ha He Hx _. unfold profitLoss, Num.mul64, Num.sub64.
  rewrite Ha, He, Hx.
  destruct (signalMessage trade); eexists; (split; [ reflexivity | ]); split.
  - assert (E : (a * (x - e) == a * x - a * e)%Q) by ring.
    rewrite E. apply rounded_difference_error.
  - intros Exe. apply round_0.
    rewrite (round_comp (a * x) (a * e)) by (rewrite Exe; reflexivity).
    ring.
  - assert (E : (a * (e - x) == a * e - a * x)%Q) by ring.
    rewrite E, (Qplus_comm (Qabs (a * x))). apply rounded_difference_error.
  - intros Exe. apply round_0.
    rewrite (round_comp (a * x) (a * e)) by (rewrite Exe; reflexivity).
    ring.
Qed.

Lemma recorded_profitLoss_law_witness :
  parseFloat (entryAmount (rehydrate eth_buy))
  = Some (3602879701896397 # 36028797018963968)%Q
  /\ entryPrice (rehydrate eth_buy) = Some 2400%Q
  /\ profitLoss_in_range (3602879701896397 # 36028797018963968) 2400 2349
  /\ exists pl v,
       resume_exit 5000 (rehydrate eth_buy)
         (ExitAwaitExecute FromMonitor 0
            (checkExitConditions (rehydrate eth_buy) (of_Z 2349) 2000))
         Resolved
       = Some (ExitAwaitExited FromMonitor 0
                 (checkExitConditions (rehydrate eth_buy) (of_Z 2349) 2000),
               [UpdateTradeStatus "64f0c0ffee" exited
                  (ExitData TRAILING_STOP (Some 2349%Q) "0.1" pl 5000)])
       /\ pl = Some v
       /\ (v == - (179440297653043 # 35184372088832))%Q
       /\ (Qabs (v - (3602879701896397 # 36028797018963968) * (2349 - 2400))
           <= (Qabs ((3602879701896397 # 36028797018963968) * 2349)
               + Qabs ((3602879701896397 # 36028797018963968) * 2400))
              * pow2 (-51)
              + pow2 (-1073))%Q.
Proof.
  assert (Ha : parseFloat (entryAmount (rehydrate eth_buy))
               = Some (3602879701896397 # 36028797018963968)%Q)
    by (vm_compute; reflexivity).
  assert (Hr : profitLoss_in_range (3602879701896397 # 36028797018963968)
                 2400 2349).
  { split; [ vm_compute; reflexivity | ].
    split; vm_compute; discriminate. }
  split; [ exact Ha | ]. split; [ reflexivity | ]. split; [ exact Hr | ].
  destruct (recorded_profitLoss_law 5000 (rehydrate eth_buy) FromMonitor 0
              (checkExitConditions (rehydrate eth_buy) (of_Z 2349) 2000))
    as [pl [Hw [Hf Hb]]].
  destruct (Hb (3602879701896397 # 36028797018963968)%Q 2400%Q 2349%Q
              Ha eq_refl eq_refl Hr) as [v [Hv [Hbound _]]].
  exists pl, v. split; [ exact Hw | ]. split; [ exact Hv | ].
  split; [ | exact Hbound ].
  rewrite Hv in Hf. vm_compute in Hf. injection Hf as ->. reflexivity.
Defined.

(** ** The price-fetch boundary *)

(** C9.  When the price request of a tick fails or answers null, NaN or 0,
    [monitorSingleTrade] returns at once: the position, the registry and the
    log are exactly as before and nothing is scheduled, whatever the clock
    says (so not even the max-exit-time exit fires). *)
Theorem falsy_price_changes_nothing
    (now : Date) (r : nat) (trade : MonitoredTrade) (resp : Response)
    (price : num) (w : World) :
  heap (svc w) !! r = Some trade ->
  getCurrentPrice resp = Some price ->
  truthy price = false ->
  resume now (MonitorAwaitPrice r) resp w = Some (Done Returned, w).
Proof.
  intros Hr Hp Hf. unfold resume, monitorSingleTrade.
  rewrite Hp. cbn [mbind option_bind]. rewrite Hr. cbn [mbind option_bind].
  rewrite Hf. reflexivity.
Qed.

(** ** Manual exit *)

Lemma drive_exit_from_execute
    (env : ExitEnv) (trade : MonitoredTrade) (r : nat) (c : ExitCondition) :
  fst (drive_exit 3 env trade (ExitAwaitExecute FromManual r c))
  = Done (ReturnedBool (manual_result env)).
Proof.
  unfold manual_result.
  destruct env as [[n1 [|m1]] [n2 [|m2]] [n3 [|m3]]]; reflexivity.
Qed.

(** In the running service an exit is resumed by exactly these steps. *)
Lemma resume_exit_in_service
    (now : Date) (trade : MonitoredTrade) (t t' : Task) (resp : Response)
    (es : list Event) (w : World) (who : Caller) (r : nat) (c : ExitCondition) :
  heap (svc w) !! r = Some trade ->
  t = ExitAwaitExecute who r c \/ t = ExitAwaitExited who r c
  \/ t = ExitAwaitFailed who r c ->
  resume_exit now trade t resp = Some (t', es) ->
  resume now t resp w = Some (t', emit w es).
Proof.
  intros Hr Ht He.
  destruct Ht as [Ht|[Ht|Ht]]; subst t; cbn [resume]; rewrite Hr;
    cbn [mbind option_bind]; rewrite He; reflexivity.
Qed.

(** The failure path does write status failed before the answer is given. *)
Lemma failed_exit_is_written
    (env : ExitEnv) (trade : MonitoredTrade) (who : Caller) (r : nat)
    (c : ExitCondition) :
  succeeds (snd (on_executeTrade env)) && succeeds (snd (on_exited_write env))
  = false ->
  exists m now,
    In (UpdateTradeStatus (_id trade) failed (FailData m now))
       (snd (drive_exit 3 env trade (ExitAwaitExecute who r c))).
Proof.
  destruct who, env as [[n1 [|m1]] [n2 [|m2]] [n3 [|m3]]]; cbn; intros H;
    try discriminate; eexists; eexists;
    repeat (first [ left; reflexivity | right ]).
Qed.

(** ** At most one exit *)

(** C1.  A manual exit that overtakes a pending tick: the executor is
    called twice for the trade and status exited is written twice for its
    id. *)
Theorem manual_exit_overtaking_tick_exits_twice :
  (w ← run initial overtaken_tick;
   Some (executor_calls "test_trade_1" w, terminal_writes "64f0c0ffee" w))
  = Some (2%nat, 2%nat).
Proof. vm_compute. reflexivity. Qed.

Lemma at_most_one_exit_fails : ~ at_most_one_exit.
Proof.
  intros H.
  destruct (run initial overtaken_tick) as [w|] eqn:E; [ | vm_compute in E; discriminate ].
  specialize (H overtaken_tick w "64f0c0ffee" E).
  vm_compute in E. injection E as <-. vm_compute in H. lia.
Qed.

Lemma falsy_price_changes_nothing_witness :
  heap (svc sell_adopted) !! 0%nat = Some (rehydrate token_sell)
  /\ getCurrentPrice (Price (Some 0%Q)) = Some (Some 0%Q)
  /\ truthy (Some 0%Q) = false
  /\ (maxExitTime (rehydrate token_sell) <= 7200000)%Z
  /\ resume 7200000 (MonitorAwaitPrice 0) (Price (Some 0%Q)) sell_adopted
     = Some (Done Returned, sell_adopted).
Proof.
  split; [ reflexivity | ].
  split; [ reflexivity | ].
  split; [ reflexivity | ].
  split; [ vm_compute; discriminate | ].
  apply (falsy_price_changes_nothing 7200000 0 (rehydrate token_sell)
           (Price (Some 0%Q)) (Some 0%Q) sell_adopted); reflexivity.
Defined.

(** ** Rehydration *)

(** What both rehydrating loops store, whatever the side: the extremum at
    the entry price and the trailing stop 1% below it. *)
Lemma rehydrate_trailing_stop (trade : TradeDoc) :
  highestPriceSinceEntry (rehydrate trade) = entryPrice (rehydrate trade)
  /\ trailingStopPrice (rehydrate trade)
     = Num.mul (entryPrice (rehydrate trade)) c0_99.
Proof. split; reflexivity. Qed.

(** C4.  A stored sell entered at 100 is rehydrated, at start and by the
    database sync alike, with its trailing stop at 99, below the entry, and
    not at 101. *)
Theorem rehydrated_sell_stop_below_entry :
  getMonitoredTrades (loadActiveTrades [token_sell] (svc initial))
  = [rehydrate token_sell]
  /\ getMonitoredTrades (svc (syncActiveTrades [token_sell] initial))
     = [rehydrate token_sell]
  /\ signalMessage (rehydrate token_sell) = sell
  /\ highestPriceSinceEntry (rehydrate token_sell) = of_Z 100
  /\ Num.same (trailingStopPrice (rehydrate token_sell)) (of_Z 99)
  /\ ~ Num.same (trailingStopPrice (rehydrate token_sell))
               (Num.mul (entryPrice (rehydrate token_sell)) c1_01).
Proof.
  repeat split; try reflexivity.
  vm_compute. discriminate.
Qed.

Lemma rehydrate_by_side_fails : ~ rehydrate_by_side.
Proof.
  intros H. destruct (H token_sell) as [_ H1].
  vm_compute in H1. discriminate.
Qed.

(** ** Trailing stop *)

(** The extremum never moves against the position. *)
Lemma updateTrailingStopData_extremum (trade : MonitoredTrade) (price : num) :
  not_worse (signalMessage trade)
    (highestPriceSinceEntry trade)
    (highestPriceSinceEntry (updateTrailingStopData trade price))
  /\ signalMessage (updateTrailingStopData trade price) = signalMessage trade.
Proof.
  unfold updateTrailingStopData.
  destruct (trailingStopEnabled trade); cbn [negb];
    [ | split; [ apply not_worse_refl | reflexivity ] ].
  destruct (signalMessage trade) eqn:Es.
  - destruct (Num.gt price (highestPriceSinceEntry trade)) eqn:E;
      [ | rewrite Es; split; [ apply not_worse_refl | reflexivity ] ].
    cbn. split; [ | exact Es ].
    unfold Num.gt, Num.lt in E.
    destruct (highestPriceSinceEntry trade) as [h|], price as [p|];
      try discriminate.
    apply Qlt_bool_iff in E. cbn. apply Qlt_le_weak. exact E.
  - destruct (Num.lt price (highestPriceSinceEntry trade)) eqn:E;
      [ | rewrite Es; split; [ apply not_worse_refl | reflexivity ] ].
    cbn. split; [ | exact Es ].
    unfold Num.lt in E.
    destruct (highestPriceSinceEntry trade) as [h|], price as [p|];
      try discriminate.
    apply Qlt_bool_iff in E. cbn. apply Qlt_le_weak. exact E.
Qed.

(** Over any sequence of price updates: not decreasing for a buy, not
    increasing for a sell. *)
Lemma apply_prices_extremum (prices : list num) (trade : MonitoredTrade) :
  not_worse (signalMessage trade)
    (highestPriceSinceEntry trade)
    (highestPriceSinceEntry (apply_prices trade prices))
  /\ signalMessage (apply_prices trade prices) = signalMessage trade.
Proof.
  revert trade. induction prices as [|p ps IH]; intros trade.
  - split; [ apply not_worse_refl | reflexivity ].
  - cbn [apply_prices fold_left].
    destruct (updateTrailingStopData_extremum trade p) as [H1 Hs].
    destruct (IH (updateTrailingStopData trade p)) as [H2 Hs2].
    unfold apply_prices in *. rewrite Hs in H2. split.
    + exact (not_worse_trans _ _ _ _ H1 H2).
    + rewrite Hs2. exact Hs.
Qed.

(** A trailing stop that sits in its band only tightens, and stays in its
    band. *)
Lemma updateTrailingStopData_in_band (trade : MonitoredTrade) (price : num) :
  trailing_in_band trade ->
  not_worse (signalMessage trade)
    (trailingStopPrice trade)
    (trailingStopPrice (updateTrailingStopData trade price))
  /\ trailing_in_band (updateTrailingStopData trade price).
Proof.
  unfold trailing_in_band, updateTrailingStopData. intros Hb.
  destruct (trailingStopEnabled trade); cbn [negb];
    [ | split; [ apply not_worse_refl | exact Hb ] ].
  destruct (signalMessage trade) eqn:Es.
  - destruct (Num.gt price (highestPriceSinceEntry trade)) eqn:E;
      [ | rewrite Es; split; [ apply not_worse_refl | exact Hb ] ].
    cbn. rewrite Es. split; [ | apply same_refl ].
    unfold Num.gt, Num.lt in E. cbn in Hb.
    destruct (highestPriceSinceEntry trade) as [h|], price as [p|];
      try discriminate.
    destruct (trailingStopPrice trade) as [s|]; cbn in Hb; [ | contradiction ].
    apply Qlt_bool_iff in E. cbn. rewrite Hb.
    apply Qmult_le_compat_r; [ apply Qlt_le_weak; exact E | discriminate ].
  - destruct (Num.lt price (highestPriceSinceEntry trade)) eqn:E;
      [ | rewrite Es; split; [ apply not_worse_refl | exact Hb ] ].
    cbn. rewrite Es. split; [ | apply same_refl ].
    unfold Num.lt in E. cbn in Hb.
    destruct (highestPriceSinceEntry trade) as [h|], price as [p|];
      try discriminate.
    destruct (trailingStopPrice trade) as [s|]; cbn in Hb; [ | contradiction ].
    apply Qlt_bool_iff in E. cbn. rewrite Hb.
    apply Qmult_le_compat_r; [ apply Qlt_le_weak; exact E | discriminate ].
Qed.

(** A rehydrated or newly added buy starts in its band. *)
Lemma buy_starts_in_band (trade : TradeDoc) (id : string) (now : Date) :
  d_signalMessage trade = buy ->
  trailing_in_band (rehydrate trade)
  /\ trailing_in_band (newMonitoredTrade id trade now).
Proof.
  intros Hs. unfold trailing_in_band. cbn. rewrite Hs.
  split; apply same_refl.
Qed.

Lemma apply_prices_in_band (prices : list num) (trade : MonitoredTrade) :
  trailing_in_band trade ->
  not_worse (signalMessage trade)
    (trailingStopPrice trade)
    (trailingStopPrice (apply_prices trade prices))
  /\ trailing_in_band (apply_prices trade prices).
Proof.
  revert trade. induction prices as [|p ps IH]; intros trade Hb.
  - split; [ apply not_worse_refl | exact Hb ].
  - cbn [apply_prices fold_left].
    destruct (updateTrailingStopData_in_band trade p Hb) as [H1 Hb1].
    destruct (updateTrailingStopData_extremum trade p) as [_ Hs].
    destruct (IH (updateTrailingStopData trade p) Hb1) as [H2 Hb2].
    unfold apply_prices in *. rewrite Hs in H2. split.
    + exact (not_worse_trans _ _ _ _ H1 H2).
    + exact Hb2.
Qed.

(** C8.  A stored sell entered at 100 starts with its trailing stop at 99;
    its first price, 99.5, is a new low, and the tick moves the trailing
    stop up to 100.495 while the position stays monitored: for a sell the
    stop has moved away from the price, not towards it. *)
Theorem sell_trailing_stop_loosens_on_first_update :
  let before := rehydrate token_sell in
  let after := apply_prices before [Some (995 # 10)%Q] in
  (getMonitoredTrades ∘ svc <$> run initial sell_first_price)
  = Some [set_price_check after (Some (995 # 10)%Q) 2000]
  /\ signalMessage before = sell
  /\ Num.same (highestPriceSinceEntry after) (Some (995 # 10)%Q)
  /\ Num.same (trailingStopPrice before) (of_Z 99)
  /\ Num.same (trailingStopPrice after) (Some (100495 # 1000)%Q)
  /\ Num.lt (trailingStopPrice before) (trailingStopPrice after) = true
  /\ ~ not_worse sell (trailingStopPrice before) (trailingStopPrice after).
Proof.
  cbv zeta. repeat split; try reflexivity.
  vm_compute. intros H. apply H. reflexivity.
Qed.

(** ** Manual exit: the recorded kind *)

Lemma manual_exit_kind_not_distinct : ~ manual_exit_recorded_distinctly.
Proof.
  intros H.
  destruct (H sell_adopted "trade_sell_1" 0%nat (rehydrate token_sell) eq_refl)
    as [c [Hc [_ Hd]]].
  vm_compute in Hc. injection Hc as <-.
  apply (Hd (rehydrate eth_buy) (of_Z 2505) 0). reflexivity.
Qed.

(** C5, as the code has it.  [manualExitTrade] takes the first monitored
    position whose tradeId matches and drives [executeTradeExit] with a
    condition labelled TP1 (the code has no manual kind), whose price is
    the position's currentPrice when that is set and not zero and its
    entryPrice otherwise; the exit record carries exitType TP1, the label
    of a take-profit-1 exit. *)
Theorem manualExitTrade_is_recorded_as_TP1
    (w : World) (id : string) (r : nat) (trade : MonitoredTrade) :
  find_trade (svc w) id = Some (r, trade) ->
  let c := manual_condition trade in
  manualExitTrade id w = executeTradeExit FromManual r trade c w
  /\ fst (executeTradeExit FromManual r trade c w) = ExitAwaitExecute FromManual r c
  /\ type c = TP1
  /\ triggered c = true
  /\ ecPrice c = (if truthy (currentPrice trade) then currentPrice trade
                  else entryPrice trade)
  /\ (forall now : Date,
        resume_exit now trade (ExitAwaitExecute FromManual r c) Resolved
        = Some (ExitAwaitExited FromManual r c,
                [UpdateTradeStatus (_id trade) exited
                   (ExitData TP1 (ecPrice c) (entryAmount trade)
                             (profitLoss trade c) now)]))
  /\ kind_of (type c) = Spec.take_profit_1.
Proof.
  intros Hf c. unfold manualExitTrade. rewrite Hf.
  repeat split; reflexivity.
Qed.

Lemma manualExitTrade_is_recorded_as_TP1_witness :
  find_trade (svc sell_adopted) "trade_sell_1" = Some (0%nat, rehydrate token_sell)
  /\ fst (manualExitTrade "trade_sell_1" sell_adopted)
     = ExitAwaitExecute FromManual 0
         {| type := TP1; ecPrice := of_Z 100; targetPrice := None;
            triggered := true |}.
Proof.
  split; [ reflexivity | ].
  destruct (manualExitTrade_is_recorded_as_TP1 sell_adopted "trade_sell_1"
              0%nat (rehydrate token_sell) eq_refl) as [H1 [H2 _]].
  rewrite H1. exact H2.
Defined.

(** ** Registration *)

Lemma JsMap_has_set {V : Type} (k : string) (v : V) (m : list (string * V)) :
  JsMap.has k (JsMap.set k v m) = true.
Proof.
  unfold JsMap.has. induction m as [|[k' v'] m IH]; cbn.
  - rewrite String.eqb_refl. reflexivity.
  - destruct (String.eqb k k') eqn:E; cbn.
    + rewrite String.eqb_refl. reflexivity.
    + rewrite E. exact IH.
Qed.

Lemma register_rejects_violations_fails : ~ register_rejects_violations.
Proof.
  intros H.
  destruct (H initial negative_amount eq_refl) as [w' [Hs [_ [Hl _]]]].
  cbn in Hs. injection Hs as <-. cbn in Hl. discriminate.
Qed.

(** C6, as the code has it.  [addTradeToMonitoring] checks nothing: every
    request, valid or not, is first handed to the store; when the store
    answers with an id the registry gains the position under that id, and
    when the store fails the call throws and the service is left as it
    was. *)
Theorem addTradeToMonitoring_checks_nothing
    (w : World) (tradeData : TradeDoc) :
  step w (CallAddTrade tradeData)
  = Some (spawn (emit w [StoreExecutedTrade tradeData]) [AddAwaitStore tradeData])
  /\ (forall (now : Date) (mongoId : string) (w0 : World),
        exists w1,
          resume now (AddAwaitStore tradeData) (MongoId mongoId) w0
          = Some (Done Returned, w1)
          /\ svc w1 = adopt (svc w0) mongoId
                        (newMonitoredTrade mongoId tradeData now)
          /\ JsMap.has mongoId (monitoredTrades (svc w1)) = true)
  /\ (forall (now : Date) (m : option string) (w0 : World),
        resume now (AddAwaitStore tradeData) (Rejected m) w0
        = Some (Done Thrown, w0)).
Proof.
  split; [ reflexivity | split ].
  - intros now mongoId w0. eexists. split; [ reflexivity | ].
    split; [ reflexivity | ]. cbn. apply JsMap_has_set.
  - reflexivity.
Qed.

(** ** Stop *)

Lemma stop_leaves_nothing_fails : ~ stop_leaves_nothing.
Proof.
  intros H.
  destruct (run initial added_never_started) as [w|] eqn:E;
    [ | vm_compute in E; discriminate ].
  destruct (H added_never_started w E) as [Hm _].
  vm_compute in E. injection E as <-. vm_compute in Hm. discriminate.
Qed.

Lemma handles_follow_ctl (s s' : Service) :
  ctl s' = ctl s -> handles_follow_running s -> handles_follow_running s'.
Proof.
  unfold ctl, handles_follow_running. intros E H.
  injection E as -> -> ->. exact H.
Qed.

Lemma monitorAllTrades_svc (w : World) : svc (monitorAllTrades w) = svc w.
Proof.
  unfold monitorAllTrades.
  destruct (Nat.eqb (JsMap.size (monitoredTrades (svc w))) 0); reflexivity.
Qed.

Lemma syncActiveTrades_ctl (l : list TradeDoc) (w : World) :
  ctl (svc (syncActiveTrades l w)) = ctl (svc w).
Proof.
  unfold syncActiveTrades. revert w.
  induction l as [|d l IH]; intros w; [ reflexivity | ].
  cbn [fold_left]. rewrite IH.
  destruct (JsMap.has (d_id d) (monitoredTrades (svc w))); reflexivity.
Qed.

Lemma monitorSingleTrade_ctl (now : Date) (r : nat) (p : num) (w w' : World)
    (t : Task) :
  monitorSingleTrade now r p w = Some (t, w') -> ctl (svc w') = ctl (svc w).
Proof.
  unfold monitorSingleTrade.
  destruct (heap (svc w) !! r) as [trade|]; cbn [mbind option_bind];
    [ | discriminate ].
  destruct (negb (truthy p)); [ intros [= _ <-]; reflexivity | ].
  match goal with
  | |- context [ if ?b then _ else _ ] => destruct b
  end; intros [= _ <-]; reflexivity.
Qed.

Lemma resume_keeps_handles (now : Date) (t t' : Task) (resp : Response)
    (w w' : World) :
  resume now t resp w = Some (t', w') ->
  handles_follow_running (svc w) -> handles_follow_running (svc w').
Proof.
  intros Hr Hi. destruct t; cbn [resume] in Hr.
  - destruct (getCurrentPrice resp) as [p|]; cbn [mbind option_bind] in Hr;
      [ | discriminate ].
    apply monitorSingleTrade_ctl in Hr.
    exact (handles_follow_ctl _ _ Hr Hi).
  - destruct (heap (svc w) !! r); cbn [mbind option_bind] in Hr; [ | discriminate ].
    destruct (resume_exit now m (ExitAwaitExecute who r c) resp) as [[t1 es]|];
      cbn [mbind option_bind] in Hr; [ | discriminate ].
    injection Hr as _ <-. exact Hi.
  - destruct (heap (svc w) !! r); cbn [mbind option_bind] in Hr; [ | discriminate ].
    destruct (resume_exit now m (ExitAwaitExited who r c) resp) as [[t1 es]|];
      cbn [mbind option_bind] in Hr; [ | discriminate ].
    injection Hr as _ <-. exact Hi.
  - destruct (heap (svc w) !! r); cbn [mbind option_bind] in Hr; [ | discriminate ].
    destruct (resume_exit now m (ExitAwaitFailed who r c) resp) as [[t1 es]|];
      cbn [mbind option_bind] in Hr; [ | discriminate ].
    injection Hr as _ <-. exact Hi.
  - unfold start_resume in Hr.
    destruct resp; cbn [mbind option_bind] in Hr; try discriminate;
      injection Hr as _ <-; rewrite monitorAllTrades_svc;
      intros Hrun; discriminate.
  - destruct resp; try discriminate; injection Hr as _ <-; [ exact Hi | ].
    exact (handles_follow_ctl _ _ (syncActiveTrades_ctl _ _) Hi).
  - destruct resp; try discriminate; injection Hr as _ <-; exact Hi.
  - discriminate.
Qed.

Lemma stop_keeps_handles (w : World) :
  handles_follow_running (svc w) -> handles_follow_running (svc (stop w)).
Proof.
  unfold stop. intros Hi.
  destruct (isRunning (svc w)) eqn:E; cbn [negb]; [ | exact Hi ].
  intros _. split; reflexivity.
Qed.

Lemma step_keeps_handles (w w' : World) (a : Action) :
  step w a = Some w' ->
  handles_follow_running (svc w) -> handles_follow_running (svc w').
Proof.
  intros Hs Hi. destruct a; cbn [step] in Hs.
  - destruct (isRunning (svc w)); injection Hs as <-; exact Hi.
  - injection Hs as <-. apply stop_keeps_handles. exact Hi.
  - injection Hs as <-. exact Hi.
  - unfold manualExitTrade in Hs.
    destruct (find_trade (svc w) id) as [[r trade]|]; injection Hs as <-; exact Hi.
  - destruct (timer_kind w h) as [[|]|]; cbn [mbind option_bind] in Hs;
      try discriminate; injection Hs as <-;
      [ rewrite monitorAllTrades_svc | ]; exact Hi.
  - destruct (tasks w !! tid) as [t|]; cbn [mbind option_bind] in Hs;
      [ | discriminate ].
    destruct (resume now t resp w) as [[t' w1]|] eqn:Er;
      cbn [mbind option_bind] in Hs; [ | discriminate ].
    injection Hs as <-. exact (resume_keeps_handles _ _ _ _ _ _ Er Hi).
Qed.

Lemma run_keeps_handles (acts : list Action) (w w' : World) :
  run w acts = Some w' ->
  handles_follow_running (svc w) -> handles_follow_running (svc w').
Proof.
  revert w. induction acts as [|a acts IH]; intros w Hr Hi; cbn [run] in Hr.
  - injection Hr as <-. exact Hi.
  - destruct (step w a) as [w1|] eqn:Es; cbn [mbind option_bind] in Hr;
      [ | discriminate ].
    exact (IH w1 Hr (step_keeps_handles _ _ _ Es Hi)).
Qed.

Lemma find_clearInterval (h h' : nat) (ts : list (nat * TimerKind)) :
  h = h' \/ List.find (fun t => Nat.eqb (fst t) h) ts = None ->
  List.find (fun t => Nat.eqb (fst t) h) (clearInterval h' ts) = None.
Proof.
  unfold clearInterval. induction ts as [|[k x] ts IH]; intros H;
    [ reflexivity | ].
  cbn [List.filter List.find fst] in *.
  destruct (Nat.eqb k h) eqn:E2.
  - destruct H as [H|H]; [ subst h' | discriminate ].
    rewrite E2. cbn [negb]. apply IH. left. reflexivity.
  - destruct (Nat.eqb k h'); cbn [negb List.find fst]; [ | rewrite E2 ];
      apply IH; exact H.
Qed.

(** C7, as the code has it.  In every state the service can reach, after
    [stop] both timer fields are null and isRunning is false.  When the
    service was running, the registry is empty as well and the two
    intervals it held are cleared; when it was not running (positions added
    without [start], say) [stop] returns at once and the registry keeps
    what it holds. *)
Theorem stop_clears_a_running_service (acts : list Action) (w : World) :
  run initial acts = Some w ->
  monitoringInterval (svc (stop w)) = None
  /\ dbSyncInterval (svc (stop w)) = None
  /\ isRunning (svc (stop w)) = false
  /\ (isRunning (svc w) = true ->
      monitoredTrades (svc (stop w)) = []
      /\ forall h,
           monitoringInterval (svc w) = Some h \/ dbSyncInterval (svc w) = Some h ->
           timer_kind (stop w) h = None)
  /\ (isRunning (svc w) = false -> stop w = w).
Proof.
  intros Hr.
  assert (Hi : handles_follow_running (svc w)).
  { apply (run_keeps_handles acts initial w Hr). intros _. split; reflexivity. }
  unfold stop. destruct (isRunning (svc w)) eqn:E; cbn [negb].
  - cbn [svc monitoringInterval dbSyncInterval isRunning monitoredTrades].
    repeat split; try reflexivity; try discriminate.
    intros h Hh. unfold timer_kind. cbn [timers].
    unfold clear_handle.
    destruct (monitoringInterval (svc w)) as [h1|],
             (dbSyncInterval (svc w)) as [h2|];
      destruct Hh as [Hh|Hh]; try discriminate; injection Hh as ->.
    + rewrite find_clearInterval; [ reflexivity | ].
      right. apply find_clearInterval. left. reflexivity.
    + rewrite find_clearInterval; [ reflexivity | left; reflexivity ].
    + rewrite find_clearInterval; [ reflexivity | left; reflexivity ].
    + rewrite find_clearInterval; [ reflexivity | left; reflexivity ].
  - destruct (Hi E) as [H1 H2]. rewrite H1, H2, E.
    split; [ reflexivity | ]. split; [ reflexivity | ].
    split; [ reflexivity | ]. split; [ discriminate | reflexivity ].
Qed.

Lemma stop_clears_a_running_service_witness :
  run initial [CallStart; Resume 0 1000 (ActiveTrades [token_sell])]
  = Some sell_adopted
  /\ isRunning (svc sell_adopted) = true
  /\ monitoredTrades (svc sell_adopted) = [("64f0decade", 0%nat)]
  /\ monitoredTrades (svc (stop sell_adopted)) = []
  /\ timers (stop sell_adopted) = [].
Proof.
  split; [ reflexivity | ].
  split; [ reflexivity | ].
  split; [ reflexivity | ].
  destruct (stop_clears_a_running_service
              [CallStart; Resume 0 1000 (ActiveTrades [token_sell])]
              sell_adopted eq_refl) as [_ [_ [_ [Hrun _]]]].
  split; [ exact (proj1 (Hrun eq_refl)) | reflexivity ].
Defined.

(** * The rest of the service *)

(** ** Time remaining *)

Lemma append_m_not_EXPIRED (a : string) : a +:+ "m" <> "EXPIRED".
Proof.
  intros H.
  do 7 (destruct a as [|? a]; [ discriminate | cbn in H; injection H as _ H ]).
  destruct a; discriminate.
Qed.

Lemma string_app_assoc (a b c : string) : (a +:+ b) +:+ c = a +:+ (b +:+ c).
Proof.
  induction a as [|x a IH]; [ reflexivity | ].
  change (String x ((a +:+ b) +:+ c) = String x (a +:+ (b +:+ c))).
  rewrite IH. reflexivity.
Qed.

Lemma formatted_not_EXPIRED (h mi : Z) :
  pretty h +:+ "h " +:+ pretty mi +:+ "m" <> "EXPIRED".
Proof.
  intros H.
  apply (append_m_not_EXPIRED (pretty h +:+ "h " +:+ pretty mi)).
  rewrite <- H.
  rewrite !string_app_assoc. reflexivity.
Qed.

(** X1.  The read-out of a position shows EXPIRED exactly when a tick at
    the same instant closes the position for MAX_EXIT_TIME. *)
Theorem EXPIRED_iff_max_exit_time
    (now : Date) (trade : MonitoredTrade) (price : num) :
  getTimeRemaining now (maxExitTime trade) = "EXPIRED"
  <-> type (checkExitConditions trade price now) = MAX_EXIT_TIME.
Proof.
  unfold getTimeRemaining, checkExitConditions.
  destruct (Z.leb_spec (maxExitTime trade - now) 0) as [L|L];
    destruct (Z.geb_spec now (maxExitTime trade)) as [G|G]; try lia.
  - split; reflexivity.
  - split.
    + intros H. exfalso. exact (formatted_not_EXPIRED _ _ H).
    + destruct (signalMessage trade);
        repeat match goal with
        | |- context [ if ?b then _ else _ ] => destruct b
        end; cbn; discriminate.
Qed.

(** X2.  Before the deadline the read-out is hours and minutes, rounded
    down to the minute: the minutes are below 60 and the shown time is at
    most the time left and less than a minute short of it. *)
Theorem getTimeRemaining_rounds_down (now maxExit : Date) :
  now < maxExit ->
  exists hours minutes : Z,
    getTimeRemaining now maxExit
    = pretty hours +:+ "h " +:+ pretty minutes +:+ "m"
    /\ 0 <= hours /\ 0 <= minutes < 60
    /\ hours * 3600000 + minutes * 60000 <= maxExit - now
       < hours * 3600000 + minutes * 60000 + 60000.
Proof.
  intros Hlt. unfold getTimeRemaining.
  destruct (Z.leb_spec (maxExit - now) 0) as [L|L]; [ lia | ].
  set (rem := maxExit - now) in *.
  exists (rem / (1000 * 60 * 60)), ((rem mod (1000 * 60 * 60)) / (1000 * 60)).
  split; [ reflexivity | ].
  change (1000 * 60 * 60) with 3600000. change (1000 * 60) with 60000.
  pose proof (Z.div_mod rem 3600000 ltac:(lia)) as D1.
  pose proof (Z.mod_pos_bound rem 3600000 ltac:(lia)) as B1.
  pose proof (Z.div_mod (rem mod 3600000) 60000 ltac:(lia)) as D2.
  pose proof (Z.mod_pos_bound (rem mod 3600000) 60000 ltac:(lia)) as B2.
  assert (0 <= rem / 3600000) by (apply Z.div_pos; lia).
  assert (0 <= rem mod 3600000 / 60000) by (apply Z.div_pos; lia).
  assert (rem mod 3600000 / 60000 < 60)
    by (apply Z.div_lt_upper_bound; lia).
  lia.
Qed.

Lemma getTimeRemaining_rounds_down_witness :
  1000 < 5461000
  /\ exists hours minutes : Z,
       getTimeRemaining 1000 5461000
       = pretty hours +:+ "h " +:+ pretty minutes +:+ "m"
       /\ 0 <= hours /\ 0 <= minutes < 60
       /\ hours * 3600000 + minutes * 60000 <= 5461000 - 1000
          < hours * 3600000 + minutes * 60000 + 60000.
Proof.
  split; [ lia | ].
  apply (getTimeRemaining_rounds_down 1000 5461000). lia.
Defined.

(** ** The [Map] *)

Lemma JsMap_has_In {V : Type} (k : string) (m : list (string * V)) :
  JsMap.has k m = true <-> In k (map fst m).
Proof.
  unfold JsMap.has. rewrite existsb_exists. split.
  - intros [[k' v] [Hin He]]. cbn in He. apply String.eqb_eq in He. subst k'.
    apply in_map_iff. exists (k, v). split; [ reflexivity | exact Hin ].
  - intros Hin. apply in_map_iff in Hin. destruct Hin as [[k' v] [E Hin]].
    cbn in E. subst k'. exists (k, v). split; [ exact Hin | ].
    cbn. apply String.eqb_refl.
Qed.

Lemma JsMap_set_In {V : Type} (kv : string * V) (k : string) (v : V)
    (m : list (string * V)) :
  In kv (JsMap.set k v m) -> kv = (k, v) \/ In kv m.
Proof.
  induction m as [|[k' v'] m IH]; cbn.
  - intros [H|[]]. left. symmetry. exact H.
  - destruct (String.eqb k k'); cbn.
    + intros [H|H]; [ left; symmetry; exact H | right; right; exact H ].
    + intros [H|H]; [ right; left; exact H | ].
      destruct (IH H) as [H1|H1]; [ left; exact H1 | right; right; exact H1 ].
Qed.

Lemma JsMap_set_keys {V : Type} (k : string) (v : V) (m : list (string * V)) :
  map fst (JsMap.set k v m)
  = if JsMap.has k m then map fst m else (map fst m ++ [k])%list.
Proof.
  unfold JsMap.has. induction m as [|[k' v'] m IH]; cbn; [ reflexivity | ].
  destruct (String.eqb k k') eqn:E; cbn.
  - apply String.eqb_eq in E. subst k'. reflexivity.
  - rewrite IH. destruct (existsb _ m); reflexivity.
Qed.

Lemma JsMap_delete_In {V : Type} (kv : string * V) (k : string)
    (m : list (string * V)) :
  In kv (JsMap.delete k m) -> In kv m.
Proof.
  induction m as [|[k' v'] m IH]; cbn; [ tauto | ].
  destruct (String.eqb k k'); cbn; [ tauto | ].
  intros [H|H]; [ left; exact H | right; exact (IH H) ].
Qed.

Lemma JsMap_delete_keys {V : Type} (k k0 : string) (m : list (string * V)) :
  In k0 (map fst (JsMap.delete k m)) -> In k0 (map fst m).
Proof.
  intros H. apply in_map_iff in H. destruct H as [kv [E H]].
  apply in_map_iff. exists kv. split; [ exact E | ].
  exact (JsMap_delete_In _ _ _ H).
Qed.

Lemma JsMap_delete_NoDup {V : Type} (k : string) (m : list (string * V)) :
  NoDup (map fst m) -> NoDup (map fst (JsMap.delete k m)).
Proof.
  induction m as [|[k' v'] m IH]; cbn; [ tauto | ].
  intros H. apply NoDup_cons in H. destruct H as [Hn Hd].
  destruct (String.eqb k k'); [ exact Hd | ].
  cbn. apply NoDup_cons. split.
  - intros Hin. apply Hn. apply list_elem_of_In.
    apply list_elem_of_In in Hin. exact (JsMap_delete_keys _ _ _ Hin).
  - exact (IH Hd).
Qed.

Lemma JsMap_set_NoDup {V : Type} (k : string) (v : V) (m : list (string * V)) :
  NoDup (map fst m) -> NoDup (map fst (JsMap.set k v m)).
Proof.
  intros H. rewrite JsMap_set_keys.
  destruct (JsMap.has k m) eqn:E; [ exact H | ].
  apply NoDup_app. split; [ exact H | ]. split.
  - intros x Hx Hk. apply list_elem_of_In in Hx.
    apply list_elem_of_singleton in Hk. subst x.
    apply JsMap_has_In in Hx. congruence.
  - apply NoDup_singleton.
Qed.

(** Once a key is deleted the [Map] no longer has it. *)
Lemma JsMap_has_delete {V : Type} (k : string) (m : list (string * V)) :
  NoDup (map fst m) -> JsMap.has k (JsMap.delete k m) = false.
Proof.
  intros Hd. destruct (JsMap.has k (JsMap.delete k m)) eqn:E; [ | reflexivity ].
  exfalso. apply JsMap_has_In in E. revert Hd E.
  induction m as [|[k' v'] m IH]; cbn; [ tauto | ].
  intros Hd. apply NoDup_cons in Hd. destruct Hd as [Hn Hd].
  destruct (String.eqb k k') eqn:Ek; cbn.
  - apply String.eqb_eq in Ek. subst k'. intros H. apply Hn.
    apply list_elem_of_In. exact H.
  - intros [H|H]; [ subst k'; rewrite String.eqb_refl in Ek; discriminate | ].
    exact (IH Hd H).
Qed.

(** ** Every step changes the service by adoptions, deletions, ticks and
    control flags only *)

Lemma loadActiveTrades_changes (l : list TradeDoc) (s : Service) :
  rtc change s (loadActiveTrades l s).
Proof.
  unfold loadActiveTrades. revert s.
  induction l as [|d l IH]; intros s; [ apply rtc_refl | ].
  cbn [fold_left]. eapply rtc_l; [ | apply IH ].
  apply ch_adopt. left. exists d. split; reflexivity.
Qed.

Lemma syncActiveTrades_changes (l : list TradeDoc) (w : World) :
  rtc change (svc w) (svc (syncActiveTrades l w)).
Proof.
  unfold syncActiveTrades. revert w.
  induction l as [|d l IH]; intros w; [ apply rtc_refl | ].
  cbn [fold_left].
  destruct (JsMap.has (d_id d) (monitoredTrades (svc w))); [ apply IH | ].
  eapply rtc_l; [ | apply IH ].
  cbn [svc emit with_svc]. apply ch_adopt. left. exists d. split; reflexivity.
Qed.

Lemma executeTradeExit_changes (who : Caller) (r : nat) (trade : MonitoredTrade)
    (c : ExitCondition) (w : World) :
  rtc change (svc w) (svc (snd (executeTradeExit who r trade c w))).
Proof. apply rtc_once. apply ch_delete. Qed.

Lemma monitorSingleTrade_changes (now : Date) (r : nat) (p : num)
    (w w' : World) (t : Task) :
  monitorSingleTrade now r p w = Some (t, w') -> rtc change (svc w) (svc w').
Proof.
  unfold monitorSingleTrade.
  destruct (heap (svc w) !! r) as [trade|] eqn:Hr; cbn [mbind option_bind];
    [ | discriminate ].
  destruct (truthy p) eqn:Hp; cbn [negb];
    [ | intros [= _ <-]; apply rtc_refl ].
  pose proof (ch_tick (svc w) r trade p now Hr Hp) as Ht.
  match goal with
  | |- context [ if ?b then _ else _ ] => destruct b
  end; unfold executeTradeExit; intros [= _ <-]; cbn [svc emit with_svc].
  - eapply rtc_l; [ exact Ht | ].
    apply rtc_once.
    exact (ch_delete
             (with_heap (svc w)
                (<[r := updateTrailingStopData (set_price_check trade p now) p]>
                   (heap (svc w)))) _).
  - apply rtc_once. exact Ht.
Qed.

Lemma start_resume_changes (resp : Response) (w w' : World) :
  start_resume resp w = Some w' -> rtc change (svc w) (svc w').
Proof.
  unfold start_resume.
  destruct resp; cbn [mbind option_bind]; try discriminate;
    intros [= <-]; rewrite monitorAllTrades_svc; cbn [svc].
  - apply rtc_once.
    exact (ch_control (svc w) _ _ _ _ (or_introl eq_refl)).
  - eapply rtc_r; [ apply loadActiveTrades_changes | ].
    exact (ch_control (loadActiveTrades l (svc w)) _ _ _ _ (or_introl eq_refl)).
Qed.

Lemma resume_changes (now : Date) (t t' : Task) (resp : Response)
    (w w' : World) :
  resume now t resp w = Some (t', w') -> rtc change (svc w) (svc w').
Proof.
  intros Hr. destruct t; cbn [resume] in Hr.
  - destruct (getCurrentPrice resp) as [p|]; cbn [mbind option_bind] in Hr;
      [ | discriminate ].
    exact (monitorSingleTrade_changes _ _ _ _ _ _ Hr).
  - destruct (heap (svc w) !! r); cbn [mbind option_bind] in Hr; [ | discriminate ].
    destruct (resume_exit now m (ExitAwaitExecute who r c) resp) as [[t1 es]|];
      cbn [mbind option_bind] in Hr; [ | discriminate ].
    injection Hr as _ <-. apply rtc_refl.
  - destruct (heap (svc w) !! r); cbn [mbind option_bind] in Hr; [ | discriminate ].
    destruct (resume_exit now m (ExitAwaitExited who r c) resp) as [[t1 es]|];
      cbn [mbind option_bind] in Hr; [ | discriminate ].
    injection Hr as _ <-. apply rtc_refl.
  - destruct (heap (svc w) !! r); cbn [mbind option_bind] in Hr; [ | discriminate ].
    destruct (resume_exit now m (ExitAwaitFailed who r c) resp) as [[t1 es]|];
      cbn [mbind option_bind] in Hr; [ | discriminate ].
    injection Hr as _ <-. apply rtc_refl.
  - destruct (start_resume resp w) as [w1|] eqn:E;
      cbn [mbind option_bind] in Hr; [ | discriminate ].
    injection Hr as _ <-. exact (start_resume_changes _ _ _ E).
  - destruct resp; try discriminate; injection Hr as _ <-;
      [ apply rtc_refl | apply syncActiveTrades_changes ].
  - destruct resp; try discriminate; injection Hr as _ <-;
      [ apply rtc_refl | ].
    apply rtc_once. cbn [svc emit with_svc]. apply ch_adopt.
    right. exists tradeData, now. reflexivity.
  - discriminate.
Qed.

Lemma stop_changes (w : World) : rtc change (svc w) (svc (stop w)).
Proof.
  unfold stop. destruct (isRunning (svc w)); cbn [negb]; [ | apply rtc_refl ].
  apply rtc_once. cbn [svc].
  exact (ch_control (svc w) [] None None false (or_intror eq_refl)).
Qed.

Lemma step_changes (w w' : World) (a : Action) :
  step w a = Some w' -> rtc change (svc w) (svc w').
Proof.
  intros Hs. destruct a; cbn [step] in Hs.
  - destruct (isRunning (svc w)); injection Hs as <-; apply rtc_refl.
  - injection Hs as <-. apply stop_changes.
  - injection Hs as <-. apply rtc_refl.
  - unfold manualExitTrade in Hs.
    destruct (find_trade (svc w) id) as [[r trade]|]; injection Hs as <-;
      [ apply rtc_once; apply ch_delete | apply rtc_refl ].
  - destruct (timer_kind w h) as [[|]|]; cbn [mbind option_bind] in Hs;
      try discriminate; injection Hs as <-;
      [ rewrite monitorAllTrades_svc | ]; apply rtc_refl.
  - destruct (tasks w !! tid) as [t|]; cbn [mbind option_bind] in Hs;
      [ | discriminate ].
    destruct (resume now t resp w) as [[t' w1]|] eqn:Er;
      cbn [mbind option_bind] in Hs; [ | discriminate ].
    injection Hs as <-. exact (resume_changes _ _ _ _ _ _ Er).
Qed.

Lemma run_changes (acts : list Action) (w w' : World) :
  run w acts = Some w' -> rtc change (svc w) (svc w').
Proof.
  revert w. induction acts as [|a acts IH]; intros w Hr; cbn [run] in Hr.
  - injection Hr as <-. apply rtc_refl.
  - destruct (step w a) as [w1|] eqn:Es; cbn [mbind option_bind] in Hr;
      [ | discriminate ].
    eapply rtc_trans; [ exact (step_changes _ _ _ Es) | exact (IH _ Hr) ].
Qed.

(** ** What the primitive changes keep *)

Lemma same_terms_refl (t : MonitoredTrade) : same_terms t t.
Proof. unfold same_terms. repeat split; reflexivity. Qed.

Lemma same_terms_trans (a b c : MonitoredTrade) :
  same_terms a b -> same_terms b c -> same_terms a c.
Proof. unfold same_terms. intuition congruence. Qed.

Lemma evolves_refl (t : MonitoredTrade) : evolves t t.
Proof.
  split; [ apply same_terms_refl | ]. split; [ lia | apply not_worse_refl ].
Qed.

Lemma evolves_trans (a b c : MonitoredTrade) :
  evolves a b -> evolves b c -> evolves a c.
Proof.
  intros [T1 [C1 N1]] [T2 [C2 N2]]. split; [ | split ].
  - exact (same_terms_trans _ _ _ T1 T2).
  - lia.
  - assert (Es : signalMessage b = signalMessage a)
      by (symmetry; apply T1).
    rewrite Es in N2. exact (not_worse_trans _ _ _ _ N1 N2).
Qed.

Lemma heap_evolves_refl (h : list MonitoredTrade) : heap_evolves h h.
Proof. intros r t Hr. exists t. split; [ exact Hr | apply evolves_refl ]. Qed.

Lemma heap_evolves_trans (h1 h2 h3 : list MonitoredTrade) :
  heap_evolves h1 h2 -> heap_evolves h2 h3 -> heap_evolves h1 h3.
Proof.
  intros H12 H23 r t Hr.
  destruct (H12 r t Hr) as [t2 [Hr2 E12]].
  destruct (H23 r t2 Hr2) as [t3 [Hr3 E23]].
  exists t3. split; [ exact Hr3 | exact (evolves_trans _ _ _ E12 E23) ].
Qed.

(** [updateTrailingStopData] assigns the extremum and the stop, nothing
    else. *)
Lemma updateTrailingStopData_keeps (t : MonitoredTrade) (p : num) :
  same_terms t (updateTrailingStopData t p)
  /\ currentPrice (updateTrailingStopData t p) = currentPrice t
  /\ lastPriceCheck (updateTrailingStopData t p) = lastPriceCheck t
  /\ priceCheckCount (updateTrailingStopData t p) = priceCheckCount t.
Proof.
  unfold updateTrailingStopData.
  destruct (negb (trailingStopEnabled t));
    [ split; [ apply same_terms_refl | repeat split ] | ].
  destruct (signalMessage t);
    match goal with
    | |- context [ if ?b then _ else _ ] => destruct b
    end;
    (split; [ first [ apply same_terms_refl
                    | unfold same_terms; repeat split; reflexivity ]
            | repeat split ]).
Qed.

(** One tick on one object. *)
Lemma tick_evolves (trade : MonitoredTrade) (price : num) (now : Date) :
  evolves trade (updateTrailingStopData (set_price_check trade price now) price).
Proof.
  set (t1 := set_price_check trade price now).
  destruct (updateTrailingStopData_keeps t1 price) as [T [_ [_ C]]].
  destruct (updateTrailingStopData_extremum t1 price) as [N _].
  split; [ | split ].
  - apply (same_terms_trans _ t1); [ | exact T ].
    unfold same_terms. repeat split; reflexivity.
  - rewrite C. cbn. lia.
  - exact N.
Qed.

Lemma change_heap_evolves (s s' : Service) :
  change s s' -> heap_evolves (heap s) (heap s').
Proof.
  intros [s0 id o Hf | s0 k | s0 r trade price now Hr Hp | s0 m mi di run Hm];
    cbn [heap adopt with_map with_heap]; try apply heap_evolves_refl.
  - intros r t Hr. exists t. split; [ | apply evolves_refl ].
    apply lookup_app_l_Some. exact Hr.
  - intros r' t Hr'. destruct (decide (r = r')) as [<-|Hne].
    + rewrite Hr in Hr'. injection Hr' as <-.
      eexists. split; [ | apply tick_evolves ].
      apply list_lookup_insert_eq. exact (lookup_lt_Some _ _ _ Hr).
    + exists t. split; [ | apply evolves_refl ].
      rewrite list_lookup_insert_ne; [ exact Hr' | exact Hne ].
Qed.

Lemma changes_heap_evolves (s s' : Service) :
  rtc change s s' -> heap_evolves (heap s) (heap s').
Proof.
  induction 1 as [s|s1 s2 s3 H12 _ IH]; [ apply heap_evolves_refl | ].
  exact (heap_evolves_trans _ _ _ (change_heap_evolves _ _ H12) IH).
Qed.

Lemma fresh_object_id (id : string) (o : MonitoredTrade) :
  fresh_object id o -> _id o = id.
Proof.
  intros [[d [-> ->]]|[d [now ->]]]; reflexivity.
Qed.

Lemma change_well_formed (s s' : Service) :
  change s s' -> well_formed s -> well_formed s'.
Proof.
  unfold well_formed, refs_valid, keys_unique.
  intros [s0 id o Hf | s0 k | s0 r trade price now Hr Hp | s0 m mi di run Hm]
    [Hv Hu]; cbn [heap monitoredTrades adopt with_map with_heap].
  - split; [ | exact (JsMap_set_NoDup _ _ _ Hu) ].
    apply List.Forall_forall. intros kv Hin.
    apply JsMap_set_In in Hin. destruct Hin as [->|Hin]; cbn [fst snd].
    + exists o. split; [ | exact (fresh_object_id _ _ Hf) ].
      apply list_lookup_middle. reflexivity.
    + rewrite List.Forall_forall in Hv.
      destruct (Hv kv Hin) as [t [Ht Hid]].
      exists t. split; [ apply lookup_app_l_Some; exact Ht | exact Hid ].
  - split; [ | exact (JsMap_delete_NoDup _ _ Hu) ].
    apply List.Forall_forall. intros kv Hin.
    rewrite List.Forall_forall in Hv.
    exact (Hv kv (JsMap_delete_In _ _ _ Hin)).
  - split; [ | exact Hu ].
    apply List.Forall_forall. intros kv Hin.
    rewrite List.Forall_forall in Hv.
    destruct (Hv kv Hin) as [t [Ht Hid]].
    destruct (change_heap_evolves _ _ (ch_tick s0 r trade price now Hr Hp)
                (snd kv) t Ht) as [t' [Ht' [T _]]].
    exists t'. split; [ exact Ht' | ].
    rewrite <- Hid. symmetry. apply T.
  - destruct Hm as [->| ->]; [ split; assumption | ].
    split; [ apply List.Forall_nil | apply NoDup_nil_2 ].
Qed.

Lemma changes_well_formed (s s' : Service) :
  rtc change s s' -> well_formed s -> well_formed s'.
Proof.
  induction 1 as [s|s1 s2 s3 H12 _ IH]; [ tauto | ].
  intros H. exact (IH (change_well_formed _ _ H12 H)).
Qed.

Lemma fresh_object_ok (id : string) (o : MonitoredTrade) :
  fresh_object id o -> object_ok o.
Proof.
  intros [[d [-> _]]|[d [now ->]]];
    (split; [ reflexivity | ]);
    (split; [ left; repeat split | ]);
    (split; [ apply not_worse_refl | ]);
    cbn [signalMessage rehydrate newMonitoredTrade];
    destruct (d_signalMessage d) eqn:Es;
    try (right; split; reflexivity);
    unfold trailing_in_band; cbn; rewrite Es; apply same_refl.
Qed.

Lemma tick_object_ok (trade : MonitoredTrade) (price : num) (now : Date) :
  truthy price = true ->
  object_ok trade ->
  object_ok (updateTrailingStopData (set_price_check trade price now) price).
Proof.
  intros Hp [He [_ [Hn Hb]]].
  set (t1 := set_price_check trade price now).
  destruct (updateTrailingStopData_keeps t1 price) as [T [C1 [C2 C3]]].
  destruct (updateTrailingStopData_extremum t1 price) as [N Hs].
  assert (Hs1 : signalMessage t1 = signalMessage trade) by reflexivity.
  split; [ | split; [ | split ] ].
  - transitivity (trailingStopEnabled t1); [ symmetry; apply T | exact He ].
  - right. split; [ rewrite C1; exact Hp | ].
    split; [ rewrite C2; eexists; reflexivity | rewrite C3; cbn; lia ].
  - rewrite Hs, Hs1.
    assert (Ee : entryPrice (updateTrailingStopData t1 price) = entryPrice trade).
    { transitivity (entryPrice t1); [ symmetry; apply T | reflexivity ]. }
    rewrite Ee. rewrite Hs1 in N.
    exact (not_worse_trans _ _ _ _ Hn N).
  - rewrite Hs, Hs1. destruct (signalMessage trade) eqn:Es.
    + exact (proj2 (updateTrailingStopData_in_band t1 price Hb)).
    + destruct Hb as [Hb|[Hh Hr]].
      * left. exact (proj2 (updateTrailingStopData_in_band t1 price Hb)).
      * unfold updateTrailingStopData.
        change (trailingStopEnabled t1) with (trailingStopEnabled trade).
        rewrite He. cbn [negb]. rewrite Hs1.
        destruct (Num.lt price (highestPriceSinceEntry t1)).
        -- left. unfold trailing_in_band. cbn. rewrite Es. apply same_refl.
        -- right. split; [ exact Hh | exact Hr ].
Qed.

Lemma change_heap_ok (s s' : Service) :
  change s s' -> Forall object_ok (heap s) -> Forall object_ok (heap s').
Proof.
  intros [s0 id o Hf | s0 k | s0 r trade price now Hr Hp | s0 m mi di run Hm] Hok;
    cbn [heap adopt with_map with_heap]; try exact Hok.
  - apply Forall_app. split; [ exact Hok | ].
    apply Forall_cons. split; [ exact (fresh_object_ok _ _ Hf) | apply Forall_nil_2 ].
  - apply Forall_insert; [ exact Hok | ].
    apply tick_object_ok; [ exact Hp | ].
    exact (proj1 (Forall_lookup _ _) Hok r trade Hr).
Qed.

Lemma changes_heap_ok (s s' : Service) :
  rtc change s s' -> Forall object_ok (heap s) -> Forall object_ok (heap s').
Proof.
  induction 1 as [s|s1 s2 s3 H12 _ IH]; [ tauto | ].
  intros H. exact (IH (change_heap_ok _ _ H12 H)).
Qed.

(** ** Reachable states *)

Lemma initial_well_formed : well_formed (svc initial).
Proof. split; [ apply List.Forall_nil | apply NoDup_nil_2 ]. Qed.

Lemma reachable_well_formed (acts : list Action) (w : World) :
  run initial acts = Some w -> well_formed (svc w).
Proof.
  intros Hr.
  exact (changes_well_formed _ _ (run_changes _ _ _ Hr) initial_well_formed).
Qed.

Lemma omap_total_length {A B : Type} (f : A -> option B) (l : list A) :
  List.Forall (fun a => exists b, f a = Some b) l ->
  length (omap f l) = length l.
Proof.
  induction 1 as [|a l [b Hb] _ IH]; [ reflexivity | ].
  cbn. rewrite Hb. cbn. rewrite IH. reflexivity.
Qed.

Lemma getMonitoredTrades_length (s : Service) :
  refs_valid s ->
  length (getMonitoredTrades s) = JsMap.size (monitoredTrades s).
Proof.
  intros Hv. unfold getMonitoredTrades, JsMap.values, JsMap.size.
  rewrite omap_total_length; [ apply length_map | ].
  apply List.Forall_forall. intros r Hin.
  apply in_map_iff in Hin. destruct Hin as [kv [<- Hin]].
  unfold refs_valid in Hv. rewrite List.Forall_forall in Hv.
  destruct (Hv kv Hin) as [t [Ht _]]. exists t. exact Ht.
Qed.

(** X3.  In every state the service can reach, the status read-out is
    coherent: monitoredTradesCount is the number of entries of trades, and
    the entries are the monitored positions in registry order. *)
Theorem getSystemStatus_count_matches_trades
    (acts : list Action) (w : World) (now : Date) :
  run initial acts = Some w ->
  st_monitoredTradesCount (getSystemStatus now (svc w))
  = length (st_trades (getSystemStatus now (svc w)))
  /\ map ts_tradeId (st_trades (getSystemStatus now (svc w)))
     = map tradeId (getMonitoredTrades (svc w)).
Proof.
  intros Hr. destruct (reachable_well_formed _ _ Hr) as [Hv _].
  cbn [getSystemStatus st_monitoredTradesCount st_trades]. split.
  - rewrite length_map. symmetry. exact (getMonitoredTrades_length _ Hv).
  - rewrite map_map. reflexivity.
Qed.

Lemma getSystemStatus_count_matches_trades_witness :
  run initial [CallStart; Resume 0 1000 (ActiveTrades [token_sell])]
  = Some sell_adopted
  /\ st_monitoredTradesCount (getSystemStatus 2000 (svc sell_adopted)) = 1%nat
  /\ map ts_tradeId (st_trades (getSystemStatus 2000 (svc sell_adopted)))
     = ["trade_sell_1"].
Proof.
  split; [ reflexivity | ].
  destruct (getSystemStatus_count_matches_trades
              [CallStart; Resume 0 1000 (ActiveTrades [token_sell])]
              sell_adopted 2000 eq_refl) as [H1 H2].
  split; [ rewrite H1; reflexivity | rewrite H2; reflexivity ].
Defined.

(** X4.  Between any two states of a run an object of the heap stays where
    it is and keeps the terms it was registered with (ids, side, entry
    price and amount, thresholds, deadline); its price-check count never
    decreases and its extremum never moves against the position. *)
Theorem run_keeps_registered_terms
    (acts : list Action) (w w' : World) (r : nat) (t : MonitoredTrade) :
  run w acts = Some w' ->
  heap (svc w) !! r = Some t ->
  exists t',
    heap (svc w') !! r = Some t'
    /\ same_terms t t'
    /\ (priceCheckCount t <= priceCheckCount t')%nat
    /\ not_worse (signalMessage t)
         (highestPriceSinceEntry t) (highestPriceSinceEntry t').
Proof.
  intros Hr Ht.
  destruct (changes_heap_evolves _ _ (run_changes _ _ _ Hr) r t Ht)
    as [t' [Ht' [T [C N]]]].
  exists t'. split; [ exact Ht' | ]. split; [ exact T | ].
  split; [ exact C | exact N ].
Qed.

Lemma run_keeps_registered_terms_witness :
  run sell_adopted [Resume 1 2000 (Price (Some (995 # 10)%Q))] = Some sell_priced
  /\ heap (svc sell_adopted) !! 0%nat = Some (rehydrate token_sell)
  /\ exists t',
       heap (svc sell_priced) !! 0%nat = Some t'
       /\ same_terms (rehydrate token_sell) t'
       /\ (priceCheckCount (rehydrate token_sell) <= priceCheckCount t')%nat
       /\ not_worse sell (highestPriceSinceEntry (rehydrate token_sell))
                         (highestPriceSinceEntry t').
Proof.
  split; [ reflexivity | ]. split; [ reflexivity | ].
  exact (run_keeps_registered_terms
           [Resume 1 2000 (Price (Some (995 # 10)%Q))]
           sell_adopted sell_priced 0%nat (rehydrate token_sell)
           eq_refl eq_refl).
Defined.



(** ** The static stop loss behind the trailing stop *)

Lemma ok_object_no_static_stop_loss
    (t : MonitoredTrade) (price : num) (now : Date) (e s : Q) :
  object_ok t ->
  entryPrice t = Some e ->
  sl t = Some s ->
  stop_loss_beyond_band (signalMessage t) e s ->
  type (checkExitConditions t price now) <> STOP_LOSS.
Proof.
  intros [He [_ [Hn Hb]]] Ee Es Hc.
  unfold checkExitConditions.
  destruct (now >=? maxExitTime t); [ discriminate | ].
  rewrite He, Es. cbn [andb]. rewrite Ee in Hn.
  destruct (signalMessage t) eqn:Eside; cbn [stop_loss_beyond_band] in Hc.
  - unfold trailing_in_band in Hb. rewrite Eside in Hb. cbn [band] in Hb.
    destruct (highestPriceSinceEntry t) as [h|]; [ | contradiction ].
    destruct (trailingStopPrice t) as [tr|]; cbn in Hb; [ | contradiction ].
    cbn in Hn.
    destruct (Num.le price (Some tr)) eqn:E1; [ discriminate | ].
    destruct (Num.le price (Some s)) eqn:E2.
    + exfalso. destruct price as [p|]; [ | discriminate ].
      cbn in E1, E2. apply Qle_bool_iff in E2.
      assert (L : (p <= tr)%Q) by lra.
      apply Qle_bool_iff in L. congruence.
    + destruct (Num.ge price (tp2 t)); [ discriminate | ].
      destruct (Num.ge price (tp1 t)); discriminate.
  - destruct Hc as [Hc H0].
    destruct (highestPriceSinceEntry t) as [h|] eqn:Eh; [ | contradiction ].
    cbn in Hn.
    assert (Htr : exists tr, trailingStopPrice t = Some tr
                             /\ (tr <= e * (101 # 100))%Q).
    { destruct Hb as [Hb|[Hh Hr]].
      - unfold trailing_in_band in Hb. rewrite Eside, Eh in Hb. cbn in Hb.
        destruct (trailingStopPrice t) as [tr|]; cbn in Hb; [ | contradiction ].
        exists tr. split; [ reflexivity | lra ].
      - rewrite Hr, Ee. cbn. eexists. split; [ reflexivity | lra ]. }
    destruct Htr as [tr [-> Htr]].
    destruct (Num.ge price (Some tr)) eqn:E1; [ discriminate | ].
    destruct (Num.ge price (Some s)) eqn:E2.
    + exfalso. destruct price as [p|]; [ | discriminate ].
      cbn in E1, E2. apply Qle_bool_iff in E2.
      assert (L : (tr <= p)%Q) by lra.
      apply Qle_bool_iff in L. congruence.
    + destruct (Num.le price (tp2 t)); [ discriminate | ].
      destruct (Num.le price (tp1 t)); discriminate.
Qed.

(** X6.  In every reachable state, a tick never exits a position with
    STOP_LOSS when its stop loss lies at or beyond 1% from the entry price
    (at most 99% of it for a buy; at least 101% of a non-negative entry for
    a sell): the trailing stop, always enabled, is reached first. *)
Theorem tick_never_fires_static_stop_loss
    (acts : list Action) (w w' : World) (r r' : nat) (trade : MonitoredTrade)
    (e s : Q) (now : Date) (resp : Response) (who : Caller)
    (c : ExitCondition) :
  run initial acts = Some w ->
  heap (svc w) !! r = Some trade ->
  entryPrice trade = Some e ->
  sl trade = Some s ->
  stop_loss_beyond_band (signalMessage trade) e s ->
  resume now (MonitorAwaitPrice r) resp w = Some (ExitAwaitExecute who r' c, w') ->
  type c <> STOP_LOSS.
Proof.
  intros Hr Ht Ee Es Hc Hres.
  assert (Hok : object_ok trade).
  { assert (Hall : Forall object_ok (heap (svc w))).
    { apply (changes_heap_ok _ _ (run_changes _ _ _ Hr)). apply Forall_nil_2. }
    exact (proj1 (Forall_lookup _ _) Hall r trade Ht). }
  cbn [resume] in Hres.
  destruct (getCurrentPrice resp) as [p|]; cbn [mbind option_bind] in Hres;
    [ | discriminate ].
  unfold monitorSingleTrade in Hres. rewrite Ht in Hres.
  cbn [mbind option_bind] in Hres.
  destruct (truthy p) eqn:Hp; cbn [negb] in Hres; [ | discriminate ].
  set (t1 := updateTrailingStopData (set_price_check trade p now) p) in *.
  assert (Hok1 : object_ok t1) by (apply tick_object_ok; assumption).
  destruct (tick_evolves trade p now) as [T _]. fold t1 in T.
  assert (E1 : entryPrice t1 = Some e) by (rewrite <- Ee; symmetry; apply T).
  assert (S1 : sl t1 = Some s) by (rewrite <- Es; symmetry; apply T).
  assert (Hc1 : stop_loss_beyond_band (signalMessage t1) e s).
  { replace (signalMessage t1) with (signalMessage trade); [ exact Hc | apply T ]. }
  pose proof (ok_object_no_static_stop_loss t1 p now e s Hok1 E1 S1 Hc1) as Hns.
  destruct (triggered (checkExitConditions t1 p now)); [ | discriminate ].
  unfold executeTradeExit in Hres. injection Hres as _ _ <- _. exact Hns.
Qed.

Lemma tick_never_fires_static_stop_loss_witness :
  run initial [CallStart; Resume 0 1000 (ActiveTrades [eth_buy])]
  = Some buy_adopted
  /\ heap (svc buy_adopted) !! 0%nat = Some (rehydrate eth_buy)
  /\ stop_loss_beyond_band buy 2400 2350
  /\ exists c w',
       resume 2000 (MonitorAwaitPrice 0) (Price (of_Z 2349)) buy_adopted
       = Some (ExitAwaitExecute FromMonitor 0 c, w')
       /\ type c = TRAILING_STOP
       /\ type c <> STOP_LOSS.
Proof.
  split; [ reflexivity | ]. split; [ reflexivity | ].
  split; [ vm_compute; discriminate | ].
  eexists. eexists. split; [ reflexivity | ]. split; [ reflexivity | ].
  eapply (tick_never_fires_static_stop_loss
            [CallStart; Resume 0 1000 (ActiveTrades [eth_buy])]
            buy_adopted _ 0%nat 0%nat (rehydrate eth_buy) 2400 2350 2000
            (Price (of_Z 2349)) FromMonitor);
    [ reflexivity | reflexivity | reflexivity | reflexivity
    | vm_compute; discriminate | reflexivity ].
Defined.

(** ** Exits and the registry *)

Lemma JsMap_delete_length {V : Type} (k : string) (m : list (string * V)) :
  JsMap.has k m = true -> S (length (JsMap.delete k m)) = length m.
Proof.
  unfold JsMap.has. induction m as [|[k' v'] m IH]; cbn; [ discriminate | ].
  destruct (String.eqb k k'); cbn; [ reflexivity | ].
  intros H. rewrite (IH H). reflexivity.
Qed.

Lemma JsMap_delete_absent {V : Type} (k : string) (m : list (string * V)) :
  JsMap.has k m = false -> JsMap.delete k m = m.
Proof.
  unfold JsMap.has. induction m as [|[k' v'] m IH]; cbn; [ reflexivity | ].
  destruct (String.eqb k k'); cbn; [ discriminate | ].
  intros H. rewrite (IH H). reflexivity.
Qed.

Lemma get_ref_delete_ne (k k' : string) (m : list (string * nat)) :
  k <> k' -> get_ref k' (JsMap.delete k m) = get_ref k' m.
Proof.
  intros Hne. unfold get_ref. induction m as [|[k0 v0] m IH]; [ reflexivity | ].
  cbn [JsMap.delete]. destruct (String.eqb k k0) eqn:E.
  - apply String.eqb_eq in E. subst k0. cbn [List.find fst].
    destruct (String.eqb k' k) eqn:E'; [ | reflexivity ].
    apply String.eqb_eq in E'. congruence.
  - cbn [List.find fst]. destruct (String.eqb k' k0); [ reflexivity | exact IH ].
Qed.

Lemma get_ref_has (k : string) (m : list (string * nat)) :
  JsMap.has k m = true <-> exists r, get_ref k m = Some r.
Proof.
  unfold JsMap.has, get_ref. induction m as [|[k0 v0] m IH]; cbn.
  - split; [ discriminate | intros [r H]; discriminate ].
  - destruct (String.eqb k k0); cbn; [ | exact IH ].
    split; [ intros _; eexists; reflexivity | reflexivity ].
Qed.

(** X7.  [executeTradeExit], whoever calls it, takes out of the registry
    exactly the entry filed under the trade's [_id]: afterwards the
    registry has no entry for that id and every other entry is as before;
    the count drops by one when the entry was there and is unchanged when
    it was already gone.  In both cases the executor is called, with the
    opposite side and the full entry amount. *)
Theorem executeTradeExit_unregisters
    (acts : list Action) (w : World) (who : Caller) (r : nat)
    (trade : MonitoredTrade) (c : ExitCondition) :
  run initial acts = Some w ->
  let w' := snd (executeTradeExit who r trade c w) in
  JsMap.has (_id trade) (monitoredTrades (svc w')) = false
  /\ (forall k, k <> _id trade ->
        get_ref k (monitoredTrades (svc w')) = get_ref k (monitoredTrades (svc w)))
  /\ (if JsMap.has (_id trade) (monitoredTrades (svc w))
      then S (JsMap.size (monitoredTrades (svc w')))
           = JsMap.size (monitoredTrades (svc w))
      else monitoredTrades (svc w') = monitoredTrades (svc w))
  /\ heap (svc w') = heap (svc w)
  /\ log w' = (log w ++ [ExecuteTrade (exitTradeData_of trade c) (entryAmount trade)])%list
  /\ x_signalMessage (exitTradeData_of trade c) <> signalMessage trade.
Proof.
  intros Hr. destruct (reachable_well_formed _ _ Hr) as [_ Hu].
  cbn [executeTradeExit snd svc emit with_svc with_map monitoredTrades heap log].
  split; [ exact (JsMap_has_delete _ _ Hu) | ].
  split; [ intros k Hk; apply get_ref_delete_ne; congruence | ].
  split; [ | split; [ reflexivity | split; [ reflexivity | ] ] ].
  - destruct (JsMap.has (_id trade) (monitoredTrades (svc w))) eqn:E.
    + exact (JsMap_delete_length _ _ E).
    + exact (JsMap_delete_absent _ _ E).
  - cbn. destruct (signalMessage trade); discriminate.
Qed.

Lemma executeTradeExit_unregisters_witness :
  run initial [CallStart; Resume 0 1000 (ActiveTrades [token_sell])]
  = Some sell_adopted
  /\ JsMap.has "64f0decade" (monitoredTrades (svc sell_adopted)) = true
  /\ JsMap.has "64f0decade"
       (monitoredTrades
          (svc (snd (executeTradeExit FromManual 0 (rehydrate token_sell)
                       (manual_condition (rehydrate token_sell)) sell_adopted))))
     = false.
Proof.
  split; [ reflexivity | ]. split; [ reflexivity | ].
  exact (proj1 (executeTradeExit_unregisters
                  [CallStart; Resume 0 1000 (ActiveTrades [token_sell])]
                  sell_adopted FromManual 0 (rehydrate token_sell)
                  (manual_condition (rehydrate token_sell)) eq_refl)).
Defined.

(** ** Adoption: database sync and start *)

Lemma get_ref_set_eq (k : string) (v : nat) (m : list (string * nat)) :
  get_ref k (JsMap.set k v m) = Some v.
Proof.
  unfold get_ref. induction m as [|[k0 v0] m IH]; cbn.
  - rewrite String.eqb_refl. reflexivity.
  - destruct (String.eqb k k0) eqn:E; cbn.
    + rewrite String.eqb_refl. reflexivity.
    + rewrite E. exact IH.
Qed.

Lemma get_ref_set_ne (k k' : string) (v : nat) (m : list (string * nat)) :
  k <> k' -> get_ref k' (JsMap.set k v m) = get_ref k' m.
Proof.
  intros Hne. unfold get_ref. induction m as [|[k0 v0] m IH]; cbn.
  - destruct (String.eqb k' k) eqn:E; [ | reflexivity ].
    apply String.eqb_eq in E. congruence.
  - destruct (String.eqb k k0) eqn:E; cbn.
    + apply String.eqb_eq in E. subst k0.
      destruct (String.eqb k' k) eqn:E'; [ | reflexivity ].
      apply String.eqb_eq in E'. congruence.
    + destruct (String.eqb k' k0); [ reflexivity | exact IH ].
Qed.

Lemma get_ref_In (k : string) (r : nat) (m : list (string * nat)) :
  get_ref k m = Some r -> In (k, r) m.
Proof.
  unfold get_ref. intros H.
  destruct (List.find (fun kv => String.eqb k (fst kv)) m) as [[k0 r0]|] eqn:E;
    [ | discriminate ].
  cbn in H. injection H as ->.
  apply List.find_some in E. destruct E as [Hin He].
  cbn in He. apply String.eqb_eq in He. subst k0. exact Hin.
Qed.

Lemma monitored_adopt_eq (s : Service) (id : string) (o : MonitoredTrade) :
  monitored (adopt s id o) id = Some o.
Proof.
  unfold monitored. cbn [adopt monitoredTrades heap].
  rewrite get_ref_set_eq. cbn [mbind option_bind].
  apply list_lookup_middle. reflexivity.
Qed.

Lemma monitored_adopt_ne (s : Service) (id k : string) (o : MonitoredTrade) :
  refs_valid s -> k <> id -> monitored (adopt s id o) k = monitored s k.
Proof.
  intros Hv Hne. unfold monitored. cbn [adopt monitoredTrades heap].
  rewrite get_ref_set_ne by congruence.
  destruct (get_ref k (monitoredTrades s)) as [r|] eqn:E; [ | reflexivity ].
  cbn [mbind option_bind].
  apply get_ref_In in E. unfold refs_valid in Hv.
  rewrite List.Forall_forall in Hv. destruct (Hv _ E) as [t [Ht _]].
  cbn [snd] in Ht. rewrite Ht. apply lookup_app_l_Some. exact Ht.
Qed.

Lemma JsMap_has_set_mono {V : Type} (k k' : string) (v : V)
    (m : list (string * V)) :
  JsMap.has k m = true -> JsMap.has k (JsMap.set k' v m) = true.
Proof.
  intros H. apply JsMap_has_In. rewrite JsMap_set_keys.
  apply JsMap_has_In in H.
  destruct (JsMap.has k' m); [ exact H | ].
  apply in_or_app. left. exact H.
Qed.

Lemma sync_has_mono (k : string) (l : list TradeDoc) (w : World) :
  JsMap.has k (monitoredTrades (svc w)) = true ->
  JsMap.has k (monitoredTrades (svc (syncActiveTrades l w))) = true.
Proof.
  unfold syncActiveTrades. revert w.
  induction l as [|d l IH]; intros w H; [ exact H | ].
  cbn [fold_left]. apply IH.
  destruct (JsMap.has (d_id d) (monitoredTrades (svc w))); [ exact H | ].
  cbn [svc emit with_svc adopt monitoredTrades].
  apply JsMap_has_set_mono. exact H.
Qed.

Lemma sync_adopts (d : TradeDoc) (l : list TradeDoc) (w : World) :
  In d l ->
  JsMap.has (d_id d) (monitoredTrades (svc (syncActiveTrades l w))) = true.
Proof.
  revert w. induction l as [|d0 l IH]; intros w Hin; [ destruct Hin | ].
  destruct Hin as [->|Hin].
  - change (syncActiveTrades (d :: l) w)
      with (syncActiveTrades l
              (if JsMap.has (d_id d) (monitoredTrades (svc w)) then w
               else emit (with_svc w (adopt (svc w) (d_id d) (rehydrate d)))
                         [Emit "tradeAdded" (d_id d)])).
    apply sync_has_mono.
    destruct (JsMap.has (d_id d) (monitoredTrades (svc w))) eqn:E; [ exact E | ].
    cbn [svc emit with_svc adopt monitoredTrades]. apply JsMap_has_set.
  - apply (IH _ Hin).
Qed.

Lemma sync_noop (l : list TradeDoc) (w : World) :
  (forall d, In d l -> JsMap.has (d_id d) (monitoredTrades (svc w)) = true) ->
  syncActiveTrades l w = w.
Proof.
  unfold syncActiveTrades. induction l as [|d l IH]; intros H; [ reflexivity | ].
  cbn [fold_left]. rewrite (H d (or_introl eq_refl)).
  apply IH. intros d' Hd'. apply H. right. exact Hd'.
Qed.

Lemma sync_keeps (l : list TradeDoc) (w : World) (id : string)
    (t : MonitoredTrade) :
  well_formed (svc w) ->
  monitored (svc w) id = Some t ->
  monitored (svc (syncActiveTrades l w)) id = Some t.
Proof.
  unfold syncActiveTrades. revert w.
  induction l as [|d l IH]; intros w Hwf Hm; [ exact Hm | ].
  cbn [fold_left].
  destruct (JsMap.has (d_id d) (monitoredTrades (svc w))) eqn:E;
    [ exact (IH w Hwf Hm) | ].
  apply IH.
  - cbn [svc emit with_svc].
    apply (change_well_formed (svc w)); [ | exact Hwf ].
    apply ch_adopt. left. exists d. split; reflexivity.
  - cbn [svc emit with_svc].
    rewrite monitored_adopt_ne; [ exact Hm | exact (proj1 Hwf) | ].
    intros ->. unfold monitored in Hm.
    destruct (get_ref (d_id d) (monitoredTrades (svc w))) as [r|] eqn:Er;
      [ | discriminate ].
    assert (Hh : JsMap.has (d_id d) (monitoredTrades (svc w)) = true)
      by (apply get_ref_has; exists r; exact Er).
    congruence.
Qed.

(** X8.  The database sync only adds.  In every reachable state, after it
    has gone through the list of active trades every position that was
    monitored is still monitored as the very same object (its counters and
    trailing stop untouched), every listed id is monitored, and a second
    sync over the same list changes nothing at all. *)
Theorem syncWithDatabase_only_adds
    (acts : list Action) (w : World) (l : list TradeDoc) :
  run initial acts = Some w ->
  (forall id t, monitored (svc w) id = Some t ->
                monitored (svc (syncActiveTrades l w)) id = Some t)
  /\ (forall d, In d l ->
        JsMap.has (d_id d) (monitoredTrades (svc (syncActiveTrades l w))) = true)
  /\ syncActiveTrades l (syncActiveTrades l w) = syncActiveTrades l w.
Proof.
  intros Hr. pose proof (reachable_well_formed _ _ Hr) as Hwf.
  split; [ intros id t; exact (sync_keeps l w id t Hwf) | ].
  split; [ intros d Hd; exact (sync_adopts d l w Hd) | ].
  apply sync_noop. intros d Hd. exact (sync_adopts d l w Hd).
Qed.

Lemma syncWithDatabase_only_adds_witness :
  run initial sell_first_price = Some sell_priced
  /\ monitored (svc sell_priced) "64f0decade" = Some sell_after_first_price
  /\ monitored (svc (syncActiveTrades [token_sell; eth_buy] sell_priced))
       "64f0decade" = Some sell_after_first_price
  /\ JsMap.has "64f0c0ffee"
       (monitoredTrades (svc (syncActiveTrades [token_sell; eth_buy] sell_priced)))
     = true.
Proof.
  split; [ reflexivity | ]. split; [ reflexivity | ].
  destruct (syncWithDatabase_only_adds sell_first_price sell_priced
              [token_sell; eth_buy] eq_refl) as [H1 [H2 _]].
  split; [ apply H1; reflexivity | apply (H2 eth_buy); right; left; reflexivity ].
Defined.

Lemma load_well_formed (l : list TradeDoc) (s : Service) :
  well_formed s -> well_formed (loadActiveTrades l s).
Proof. apply changes_well_formed. apply loadActiveTrades_changes. Qed.

Lemma load_other (l : list TradeDoc) (s : Service) (id : string) :
  well_formed s ->
  ~ In id (map d_id l) ->
  monitored (loadActiveTrades l s) id = monitored s id.
Proof.
  unfold loadActiveTrades. revert s.
  induction l as [|d l IH]; intros s Hwf Hn; [ reflexivity | ].
  cbn [fold_left]. cbn [map] in Hn.
  rewrite IH.
  - apply monitored_adopt_ne; [ exact (proj1 Hwf) | ].
    intros ->. apply Hn. left. reflexivity.
  - apply (change_well_formed s); [ | exact Hwf ].
    apply ch_adopt. left. exists d. split; reflexivity.
  - intros H. apply Hn. right. exact H.
Qed.

Lemma load_resets (l : list TradeDoc) (s : Service) (d : TradeDoc) :
  well_formed s ->
  NoDup (map d_id l) ->
  In d l ->
  monitored (loadActiveTrades l s) (d_id d) = Some (rehydrate d).
Proof.
  revert s. induction l as [|d0 l IH]; intros s Hwf Hnd Hin; [ destruct Hin | ].
  cbn [map] in Hnd. apply NoDup_cons in Hnd. destruct Hnd as [Hn Hnd].
  assert (Hwf1 : well_formed (adopt s (d_id d0) (rehydrate d0))).
  { apply (change_well_formed s); [ | exact Hwf ].
    apply ch_adopt. left. exists d0. split; reflexivity. }
  change (loadActiveTrades (d0 :: l) s)
    with (loadActiveTrades l (adopt s (d_id d0) (rehydrate d0))).
  destruct Hin as [->|Hin].
  - rewrite load_other; [ apply monitored_adopt_eq | exact Hwf1 | ].
    intros H. apply Hn. apply list_elem_of_In. exact H.
  - exact (IH _ Hwf1 Hnd Hin).
Qed.

(** X9.  [start] takes every stored trade afresh.  In every reachable
    state, once the load has answered with a list of distinct ids, each
    listed id is monitored as the plain rehydration of its document: what
    was registered under that id before (a position added before the start,
    with its counters and trailing stop) is replaced; the service is
    running and holds two new timers. *)
Theorem start_rehydrates_afresh
    (acts : list Action) (w : World) (l : list TradeDoc) :
  run initial acts = Some w ->
  NoDup (map d_id l) ->
  exists w',
    start_resume (ActiveTrades l) w = Some w'
    /\ (forall d, In d l -> monitored (svc w') (d_id d) = Some (rehydrate d))
    /\ (forall id, ~ In id (map d_id l) ->
          monitored (svc w') id = monitored (svc w) id)
    /\ isRunning (svc w') = true
    /\ monitoringInterval (svc w') = Some (nextTimer w)
    /\ dbSyncInterval (svc w') = Some (S (nextTimer w)).
Proof.
  intros Hr Hnd. pose proof (reachable_well_formed _ _ Hr) as Hwf.
  eexists. split; [ reflexivity | ].
  rewrite monitorAllTrades_svc. cbn [svc].
  split; [ | split; [ | repeat split ] ].
  - intros d Hd. exact (load_resets l (svc w) d Hwf Hnd Hd).
  - intros id Hn. exact (load_other l (svc w) id Hwf Hn).
Qed.

Lemma start_rehydrates_afresh_witness :
  run initial added_never_started = Some added_only
  /\ NoDup (map d_id [eth_buy])
  /\ monitored (svc added_only) "64f0c0ffee"
     = Some (newMonitoredTrade "64f0c0ffee" eth_buy 1000)
  /\ exists w',
       start_resume (ActiveTrades [eth_buy]) added_only = Some w'
       /\ monitored (svc w') "64f0c0ffee" = Some (rehydrate eth_buy).
Proof.
  split; [ reflexivity | ].
  assert (Hnd : NoDup (map d_id [eth_buy])).
  { cbn. apply NoDup_singleton. }
  split; [ exact Hnd | ]. split; [ reflexivity | ].
  destruct (start_rehydrates_afresh added_never_started added_only [eth_buy]
              eq_refl Hnd) as [w' [Hs [Hm _]]].
  exists w'. split; [ exact Hs | ].
  apply (Hm eth_buy). left. reflexivity.
Defined.

(** ** Restart *)





(** ** The outcome of one exit *)

(** X11.  One exit, whatever the executor and the store answer: the
    executor is not called again; status exited is written once exactly
    when the reversing trade succeeded; status failed is written once
    exactly when the trade or the exited write failed, so a trade whose
    exited write fails is recorded as failed although it was executed;
    tradeExited is emitted only when both succeeded, tradeExitFailed only
    when the failed write went through. *)
Theorem single_exit_outcome
    (env : ExitEnv) (trade : MonitoredTrade) (who : Caller) (r : nat)
    (c : ExitCondition) :
  let executed := succeeds (snd (on_executeTrade env)) in
  let recorded := succeeds (snd (on_exited_write env)) in
  let failure_recorded := succeeds (snd (on_failed_write env)) in
  let es := snd (drive_exit 3 env trade (ExitAwaitExecute who r c)) in
  fst (drive_exit 3 env trade (ExitAwaitExecute who r c))
  = finish who (negb (executed && recorded) && negb failure_recorded)
  /\ List.filter is_ExecuteTrade es = []
  /\ writes exited es = (if executed then 1 else 0)%nat
  /\ writes failed es = (if executed && recorded then 0 else 1)%nat
  /\ (In (Emit "tradeExited" (_id trade)) es <-> executed && recorded = true)
  /\ (In (Emit "tradeExitFailed" (_id trade)) es
      <-> executed && recorded = false /\ failure_recorded = true).
Proof.
  destruct who, env as [[n1 [|m1]] [n2 [|m2]] [n3 [|m3]]]; cbn;
    (split; [ reflexivity | ]); (split; [ reflexivity | ]);
    (split; [ reflexivity | ]); (split; [ reflexivity | ]);
    split; split; intros H;
    first
      [ solve [ repeat split; reflexivity ]
      | solve [ discriminate ]
      | solve [ destruct H; discriminate ]
      | solve [ repeat (first [ left; reflexivity | right ]) ]
      | solve [ exfalso;
                repeat (destruct H as [H|H]; [ discriminate | ]);
                destruct H ] ].
Qed.

(** ** Edges of the exit decision *)

Lemma le_None_r (a : num) : Num.le a None = false.
Proof. destruct a; reflexivity. Qed.

(** X12.  NaN and undefined never fire, and null counts as 0.  With a
    price that is NaN or undefined only the deadline can close the
    position; a stop loss, take profit or trailing stop that is NaN or
    undefined is never the reason of an exit.  A threshold that is null is
    compared as the number 0: before the deadline every non-negative price
    closes a buy whose tp1 or tp2 is null and a sell whose stop loss is
    null. *)
Theorem NaN_never_fires_null_counts_as_0
    (trade : MonitoredTrade) (price : num) (now : Date) :
  let c := checkExitConditions trade price now in
  (price = None -> triggered c = (now >=? maxExitTime trade))
  /\ (trailingStopPrice trade = None -> type c <> TRAILING_STOP)
  /\ (sl trade = None -> type c <> STOP_LOSS)
  /\ (tp2 trade = None -> type c <> TP2)
  /\ (tp1 trade = None -> triggered c = true -> type c <> TP1)
  /\ (forall p : Q,
        price = Some p -> (0 <= p)%Q ->
        (signalMessage trade = buy ->
         tp2 trade = Num.null \/ tp1 trade = Num.null -> triggered c = true)
        /\ (signalMessage trade = sell ->
            sl trade = Num.null -> triggered c = true)).
Proof.
  cbv zeta. unfold checkExitConditions, Num.ge.
  destruct (now >=? maxExitTime trade).
  { split; [ reflexivity | ]. do 4 (split; [ intros; discriminate | ]).
    intros p _ _. split; intros; reflexivity. }
  assert (Hnone : forall x, Num.le None x = false) by reflexivity.
  assert (Hnull : forall p : Q, (0 <= p)%Q -> Num.le Num.null (Some p) = true).
  { intros p Hp. cbn. apply Qle_bool_iff. exact Hp. }
  destruct (signalMessage trade).
  - split; [ intros ->; rewrite ?Hnone, ?le_None_r, ?andb_false_r; reflexivity | ].
    split; [ intros E; rewrite E, ?Hnone, ?le_None_r, ?andb_false_r | ].
    { destruct (Num.le price (sl trade)); [ discriminate | ].
      destruct (Num.le (tp2 trade) price); [ discriminate | ].
      destruct (Num.le (tp1 trade) price); discriminate. }
    split; [ intros E; rewrite E, ?Hnone, ?le_None_r | ].
    { destruct (trailingStopEnabled trade && Num.le price (trailingStopPrice trade));
        [ discriminate | ].
      destruct (Num.le (tp2 trade) price); [ discriminate | ].
      destruct (Num.le (tp1 trade) price); discriminate. }
    split; [ intros E; rewrite E, ?Hnone, ?le_None_r | ].
    { destruct (trailingStopEnabled trade && Num.le price (trailingStopPrice trade));
        [ discriminate | ].
      destruct (Num.le price (sl trade)); [ discriminate | ].
      destruct (Num.le (tp1 trade) price); discriminate. }
    split; [ intros E; rewrite E, ?Hnone, ?le_None_r | ].
    { destruct (trailingStopEnabled trade && Num.le price (trailingStopPrice trade));
        [ discriminate | ].
      destruct (Num.le price (sl trade)); [ discriminate | ].
      destruct (Num.le (tp2 trade) price); discriminate. }
    intros p -> Hp. split; [ | intros; discriminate ].
    intros _ [E|E]; rewrite E, (Hnull p Hp);
      destruct (trailingStopEnabled trade
                && Num.le (Some p) (trailingStopPrice trade));
      try reflexivity;
      destruct (Num.le (Some p) (sl trade)); try reflexivity;
      destruct (Num.le (tp2 trade) (Some p)); reflexivity.
  - split; [ intros ->; rewrite ?Hnone, ?le_None_r, ?andb_false_r; reflexivity | ].
    split; [ intros E; rewrite E, ?Hnone, ?le_None_r, ?andb_false_r | ].
    { destruct (Num.le (sl trade) price); [ discriminate | ].
      destruct (Num.le price (tp2 trade)); [ discriminate | ].
      destruct (Num.le price (tp1 trade)); discriminate. }
    split; [ intros E; rewrite E, ?Hnone, ?le_None_r | ].
    { destruct (trailingStopEnabled trade && Num.le (trailingStopPrice trade) price);
        [ discriminate | ].
      destruct (Num.le price (tp2 trade)); [ discriminate | ].
      destruct (Num.le price (tp1 trade)); discriminate. }
    split; [ intros E; rewrite E, ?Hnone, ?le_None_r | ].
    { destruct (trailingStopEnabled trade && Num.le (trailingStopPrice trade) price);
        [ discriminate | ].
      destruct (Num.le (sl trade) price); [ discriminate | ].
      destruct (Num.le price (tp1 trade)); discriminate. }
    split; [ intros E; rewrite E, ?Hnone, ?le_None_r | ].
    { destruct (trailingStopEnabled trade && Num.le (trailingStopPrice trade) price);
        [ discriminate | ].
      destruct (Num.le (sl trade) price); [ discriminate | ].
      destruct (Num.le price (tp2 trade)); discriminate. }
    intros p -> Hp. split; [ intros; discriminate | ].
    intros _ E. rewrite E, (Hnull p Hp).
    destruct (trailingStopEnabled trade
              && Num.le (trailingStopPrice trade) (Some p)); reflexivity.
Qed.

(** ** The sign of the recorded profit *)

Lemma checkExitConditions_keeps_price
    (trade : MonitoredTrade) (price : num) (now : Date) :
  ecPrice (checkExitConditions trade price now) = price.
Proof.
  unfold checkExitConditions.
  destruct (now >=? maxExitTime trade); [ reflexivity | ].
  destruct (signalMessage trade);
    repeat match goal with
    | |- context [ if ?b then _ else _ ] => destruct b
    end; reflexivity.
Qed.

Lemma le_true (a b : num) :
  Num.le a b = true -> exists x y, a = Some x /\ b = Some y /\ (x <= y)%Q.
Proof.
  destruct a as [x|], b as [y|]; cbn; try discriminate.
  intros H. apply Qle_bool_iff in H. exists x, y. repeat split. exact H.
Qed.

(** X13.  With a non-negative amount, thresholds on their proper sides of
    the entry price and products within the range of the finite doubles,
    an exit that a tick's [checkExitConditions] triggers as TP1 or TP2
    never records a loss and one it triggers as STOP_LOSS never records a
    gain, rounded as the recorded value is.  (A manual exit is recorded as
    TP1 too, but [checkExitConditions] does not trigger it and it is not
    covered.) *)
Theorem exit_kind_fixes_profit_sign
    (trade : MonitoredTrade) (price : num) (now : Date) (a e : Q) :
  parseFloat (entryAmount trade) = Some a ->
  (0 <= a)%Q ->
  entryPrice trade = Some e ->
  thresholds_ordered trade e ->
  (forall p : Q, price = Some p -> profitLoss_in_range a e p) ->
  let c := checkExitConditions trade price now in
  triggered c = true ->
  (type c = TP1 \/ type c = TP2 ->
   exists pl, profitLoss trade c = Some pl /\ (0 <= pl)%Q)
  /\ (type c = STOP_LOSS ->
      exists pl, profitLoss trade c = Some pl /\ (pl <= 0)%Q).
Proof.
  intros Ha Hpos Ee Ho _. cbv zeta.
  unfold thresholds_ordered in Ho.
  unfold profitLoss. rewrite Ha, Ee.
  rewrite checkExitConditions_keeps_price.
  unfold checkExitConditions, Num.ge in *.
  destruct (now >=? maxExitTime trade).
  { intros _. split; [ intros [H|H]; discriminate | discriminate ]. }
  destruct (signalMessage trade).
  - destruct Ho as [H1 [H2 H3]].
    apply le_true in H1. destruct H1 as [e1 [t1 [He1 [Ht1 L1]]]].
    apply le_true in H2. destruct H2 as [e2 [t2 [He2 [Ht2 L2]]]].
    apply le_true in H3. destruct H3 as [s3 [e3 [Hs3 [He3 L3]]]].
    injection He1 as <-. injection He2 as <-. injection He3 as <-.
    rewrite Ht1, Ht2, Hs3.
    destruct (trailingStopEnabled trade && Num.le price (trailingStopPrice trade)).
    { intros _. split; [ intros [H|H]; discriminate | discriminate ]. }
    destruct (Num.le price (Some s3)) eqn:E3.
    { intros _. apply le_true in E3. destruct E3 as [p [s' [-> [Hs' Lp]]]].
      injection Hs' as <-.
      split; [ intros [H|H]; discriminate | ].
      intros _. cbv beta zeta iota delta [Num.mul64 Num.sub64]. eexists.
      split; [ reflexivity | ].
      first [ apply rounded_gain | apply rounded_loss ]; lra. }
    destruct (Num.le (Some t2) price) eqn:E2.
    { intros _. apply le_true in E2. destruct E2 as [t' [p [Ht' [-> Lp]]]].
      injection Ht' as <-.
      split; [ | discriminate ].
      intros _. cbv beta zeta iota delta [Num.mul64 Num.sub64]. eexists.
      split; [ reflexivity | ].
      first [ apply rounded_gain | apply rounded_loss ]; lra. }
    destruct (Num.le (Some t1) price) eqn:E1; [ | discriminate ].
    intros _. apply le_true in E1. destruct E1 as [t' [p [Ht' [-> Lp]]]].
    injection Ht' as <-.
    split; [ | discriminate ].
    intros _. cbv beta zeta iota delta [Num.mul64 Num.sub64]. eexists.
      split; [ reflexivity | ].
      first [ apply rounded_gain | apply rounded_loss ]; lra.
  - destruct Ho as [H1 [H2 H3]].
    apply le_true in H1. destruct H1 as [t1 [e1 [Ht1 [He1 L1]]]].
    apply le_true in H2. destruct H2 as [t2 [e2 [Ht2 [He2 L2]]]].
    apply le_true in H3. destruct H3 as [e3 [s3 [He3 [Hs3 L3]]]].
    injection He1 as <-. injection He2 as <-. injection He3 as <-.
    rewrite Ht1, Ht2, Hs3.
    destruct (trailingStopEnabled trade && Num.le (trailingStopPrice trade) price).
    { intros _. split; [ intros [H|H]; discriminate | discriminate ]. }
    destruct (Num.le (Some s3) price) eqn:E3.
    { intros _. apply le_true in E3. destruct E3 as [s' [p [Hs' [-> Lp]]]].
      injection Hs' as <-.
      split; [ intros [H|H]; discriminate | ].
      intros _. cbv beta zeta iota delta [Num.mul64 Num.sub64]. eexists.
      split; [ reflexivity | ].
      first [ apply rounded_gain | apply rounded_loss ]; lra. }
    destruct (Num.le price (Some t2)) eqn:E2.
    { intros _. apply le_true in E2. destruct E2 as [p [t' [-> [Ht' Lp]]]].
      injection Ht' as <-.
      split; [ | discriminate ].
      intros _. cbv beta zeta iota delta [Num.mul64 Num.sub64]. eexists.
      split; [ reflexivity | ].
      first [ apply rounded_gain | apply rounded_loss ]; lra. }
    destruct (Num.le price (Some t1)) eqn:E1; [ | discriminate ].
    intros _. apply le_true in E1. destruct E1 as [p [t' [-> [Ht' Lp]]]].
    injection Ht' as <-.
    split; [ | discriminate ].
    intros _. cbv beta zeta iota delta [Num.mul64 Num.sub64]. eexists.
      split; [ reflexivity | ].
      first [ apply rounded_gain | apply rounded_loss ]; lra.
Qed.

Lemma exit_kind_fixes_profit_sign_witness :
  parseFloat (entryAmount (rehydrate eth_buy))
  = Some (3602879701896397 # 36028797018963968)%Q
  /\ (0 <= 3602879701896397 # 36028797018963968)%Q
  /\ entryPrice (rehydrate eth_buy) = Some 2400%Q
  /\ thresholds_ordered (rehydrate eth_buy) 2400
  /\ profitLoss_in_range (3602879701896397 # 36028797018963968) 2400 2505
  /\ type (checkExitConditions (rehydrate eth_buy) (of_Z 2505) 2000) = TP1
  /\ exists pl,
       profitLoss (rehydrate eth_buy)
         (checkExitConditions (rehydrate eth_buy) (of_Z 2505) 2000) = Some pl
       /\ (0 <= pl)%Q.
Proof.
  assert (Ho : thresholds_ordered (rehydrate eth_buy) 2400)
    by (repeat split; reflexivity).
  assert (Hpos : (0 <= 3602879701896397 # 36028797018963968)%Q)
    by (vm_compute; discriminate).
  assert (Ha : parseFloat (entryAmount (rehydrate eth_buy))
               = Some (3602879701896397 # 36028797018963968)%Q)
    by (vm_compute; reflexivity).
  assert (Hr : profitLoss_in_range (3602879701896397 # 36028797018963968)
                 2400 2505).
  { split; [ vm_compute; reflexivity | ].
    split; vm_compute; discriminate. }
  assert (Hrs : forall p : Q,
            of_Z 2505 = Some p ->
            profitLoss_in_range (3602879701896397 # 36028797018963968)
              2400 p).
  { intros p [= <-]. exact Hr. }
  split; [ exact Ha | ]. split; [ exact Hpos | ].
  split; [ reflexivity | ]. split; [ exact Ho | ]. split; [ exact Hr | ].
  split; [ reflexivity | ].
  apply (proj1 (exit_kind_fixes_profit_sign (rehydrate eth_buy) (of_Z 2505)
                  2000 (3602879701896397 # 36028797018963968) 2400
                  Ha Hpos eq_refl Ho Hrs eq_refl)).
  left. reflexivity.
Defined.

(** ** A stored sell at its first price *)

(** X14.  A sell taken from the store, with a positive entry price, is
    closed by its very first tick with TRAILING_STOP whenever that first
    price is at or above the entry price and the deadline has not passed:
    the stop it was rehydrated with lies below the entry. *)
Theorem rehydrated_sell_exits_at_first_price
    (trade : TradeDoc) (e p : Q) (now : Date) (r : nat) (w : World) :
  d_signalMessage trade = sell ->
  Num.or (d_entryPrice trade) (d_currentPrice trade) = Some e ->
  (0 < e)%Q ->
  (e <= p)%Q ->
  now < d_maxExitTime trade ->
  heap (svc w) !! r = Some (rehydrate trade) ->
  exists c w',
    resume now (MonitorAwaitPrice r) (Price (Some p)) w
    = Some (ExitAwaitExecute FromMonitor r c, w')
    /\ type c = TRAILING_STOP
    /\ ecPrice c = Some p
    /\ In (ExecuteTrade
             (exitTradeData_of
                (set_price_check (rehydrate trade) (Some p) now) c)
             (or_str (d_entryAmount trade) "0"))
          (log w').
Proof.
  intros Hs He Hpos Hle Hnow Hr.
  assert (Htruthy : truthy (Some p) = true).
  { cbn. destruct (Qeq_bool p 0) eqn:E; [ | reflexivity ].
    apply Qeq_bool_iff in E. lra. }
  assert (Hlt : Qlt_bool p e = false).
  { unfold Qlt_bool. apply negb_false_iff. apply Qle_bool_iff. exact Hle. }
  assert (Hge : Qle_bool (e * (99 # 100)) p = true).
  { apply Qle_bool_iff. lra. }
  assert (Hup : updateTrailingStopData
                  (set_price_check (rehydrate trade) (Some p) now) (Some p)
                = set_price_check (rehydrate trade) (Some p) now).
  { unfold updateTrailingStopData. cbn. rewrite Hs, He. cbn. rewrite Hlt.
    reflexivity. }
  assert (Hc : checkExitConditions
                 (set_price_check (rehydrate trade) (Some p) now) (Some p) now
               = fired TRAILING_STOP (Some p)
                   (Some (Num.mul (Some e) c0_99))).
  { unfold checkExitConditions. cbn.
    destruct (Z.geb_spec now (d_maxExitTime trade)) as [G|G]; [ lia | ].
    rewrite Hs, He. cbn. unfold Num.ge. cbn. rewrite Hge. reflexivity. }
  cbn [resume getCurrentPrice mbind option_bind]. unfold monitorSingleTrade.
  rewrite Hr. cbn [mbind option_bind]. rewrite Htruthy. cbn [negb].
  rewrite Hup, Hc. cbn [triggered fired].
  eexists. eexists. split; [ reflexivity | ].
  split; [ reflexivity | ]. split; [ reflexivity | ].
  cbn [log emit with_svc]. apply in_or_app. right. left. reflexivity.
Qed.

Lemma rehydrated_sell_exits_at_first_price_witness :
  d_signalMessage token_sell = sell
  /\ Num.or (d_entryPrice token_sell) (d_currentPrice token_sell) = Some 100%Q
  /\ (0 < 100)%Q /\ (100 <= 100)%Q
  /\ 2000 < d_maxExitTime token_sell
  /\ heap (svc sell_adopted) !! 0%nat = Some (rehydrate token_sell)
  /\ exists c w',
       resume 2000 (MonitorAwaitPrice 0) (Price (Some 100%Q)) sell_adopted
       = Some (ExitAwaitExecute FromMonitor 0 c, w')
       /\ type c = TRAILING_STOP.
Proof.
  assert (H1 : (0 < 100)%Q) by reflexivity.
  assert (H2 : (100 <= 100)%Q) by (vm_compute; discriminate).
  assert (H3 : 2000 < d_maxExitTime token_sell) by reflexivity.
  split; [ reflexivity | ]. split; [ reflexivity | ].
  split; [ exact H1 | ]. split; [ exact H2 | ]. split; [ exact H3 | ].
  split; [ reflexivity | ].
  destruct (rehydrated_sell_exits_at_first_price token_sell 100 100 2000 0
              sell_adopted eq_refl eq_refl H1 H2 H3 eq_refl)
    as [c [w' [Hres [Ht _]]]].
  exists c, w'. split; [ exact Hres | exact Ht ].
Defined.

(** ** Registration round trip *)

(** X15.  Once the store has answered a registration with an id, the
    registry returns under that id the position built from the request:
    entry price taken from entryPrice or, failing that, currentPrice;
    extremum at the entry price; no price yet and a check count of 0;
    status active.  Every other id is monitored as before. *)
Theorem addTradeToMonitoring_round_trip
    (acts : list Action) (w : World) (tradeData : TradeDoc) (now : Date)
    (mongoId : string) :
  run initial acts = Some w ->
  exists w' t,
    resume now (AddAwaitStore tradeData) (MongoId mongoId) w
    = Some (Done Returned, w')
    /\ monitored (svc w') mongoId = Some t
    /\ _id t = mongoId /\ tradeId t = d_tradeId tradeData
    /\ entryPrice t = Num.or (d_entryPrice tradeData) (d_currentPrice tradeData)
    /\ highestPriceSinceEntry t = entryPrice t
    /\ never_priced t /\ status t = active /\ executedAt t = now
    /\ (forall k, k <> mongoId -> monitored (svc w') k = monitored (svc w) k)
    /\ log w' = (log w ++ [Emit "tradeAdded" mongoId])%list.
Proof.
  intros Hr. destruct (reachable_well_formed _ _ Hr) as [Hv _].
  eexists. exists (newMonitoredTrade mongoId tradeData now).
  split; [ reflexivity | ]. cbn [svc emit with_svc].
  split; [ apply monitored_adopt_eq | ].
  do 4 (split; [ reflexivity | ]).
  split; [ repeat split | ].
  do 2 (split; [ reflexivity | ]).
  split; [ | reflexivity ].
  intros k Hk. apply monitored_adopt_ne; [ exact Hv | exact Hk ].
Qed.

Lemma addTradeToMonitoring_round_trip_witness :
  run initial [CallAddTrade eth_buy] = Some (spawn (emit initial
      [StoreExecutedTrade eth_buy]) [AddAwaitStore eth_buy])
  /\ exists w',
       resume 1000 (AddAwaitStore eth_buy) (MongoId "64f0c0ffee")
         (spawn (emit initial [StoreExecutedTrade eth_buy]) [AddAwaitStore eth_buy])
       = Some (Done Returned, w')
       /\ monitored (svc w') "64f0c0ffee"
          = Some (newMonitoredTrade "64f0c0ffee" eth_buy 1000).
Proof.
  split; [ reflexivity | ].
  destruct (addTradeToMonitoring_round_trip [CallAddTrade eth_buy]
              (spawn (emit initial [StoreExecutedTrade eth_buy])
                     [AddAwaitStore eth_buy])
              eth_buy 1000 "64f0c0ffee" eq_refl) as [w' [t [H1 _]]].
  exists w'. split; [ exact H1 | ].
  injection H1 as <-. reflexivity.
Defined.

(** ** Looking a trade up by its tradeId *)

Lemma find_trade_getTradeStatus (s : Service) (id : string) :
  snd <$> find_trade s id = getTradeStatus s id.
Proof.
  unfold find_trade, getTradeStatus, getMonitoredTrades.
  induction (JsMap.values (monitoredTrades s)) as [|r l IH]; [ reflexivity | ].
  cbn [omap list_omap].
  destruct (heap s !! r) as [t|]; cbn [fmap option_fmap option_map];
    [ | exact IH ].
  cbn [List.find snd]. destruct (String.eqb (tradeId t) id); [ reflexivity | ].
  exact IH.
Qed.

Lemma find_trade_found (s : Service) (id : string) (r : nat)
    (trade : MonitoredTrade) :
  find_trade s id = Some (r, trade) ->
  heap s !! r = Some trade
  /\ In trade (getMonitoredTrades s)
  /\ tradeId trade = id.
Proof.
  intros E.
  pose proof (find_trade_getTradeStatus s id) as G. rewrite E in G.
  cbn [fmap option_fmap option_map snd] in G. symmetry in G.
  unfold getTradeStatus in G. apply List.find_some in G.
  destruct G as [Hin He]. apply String.eqb_eq in He.
  split; [ | split; [ exact Hin | exact He ] ].
  unfold find_trade in E. apply List.find_some in E. destruct E as [Hr _].
  apply list_elem_of_In in Hr. apply list_elem_of_omap in Hr.
  destruct Hr as [r0 [_ Hr0]].
  destruct (heap s !! r0) as [t0|] eqn:E0; [ | discriminate ].
  cbn in Hr0. injection Hr0 as <- <-. exact E0.
Qed.

Lemma find_trade_missing (s : Service) (id : string) :
  find_trade s id = None ->
  forall t, In t (getMonitoredTrades s) -> tradeId t <> id.
Proof.
  intros E t Hin Ht.
  pose proof (find_trade_getTradeStatus s id) as G. rewrite E in G.
  cbn [fmap option_fmap option_map] in G. symmetry in G.
  unfold getTradeStatus in G.
  pose proof (List.find_none _ _ G t Hin) as F. cbn in F.
  rewrite Ht, String.eqb_refl in F. discriminate F.
Qed.

(** C10.  [manualExitTrade] answers false, touching nothing, when no
    monitored position has the tradeId.  When one has, it takes such a
    position, deletes its entry from the registry and calls the executor
    with the reversing trade; whatever the executor and the store then
    answer, it answers true, also when the trade or the exited write fails
    (status failed is then written), and false only when the failed write
    throws as well. *)
Theorem manualExitTrade_result (id : string) (w : World) (env : ExitEnv) :
  ((forall t, In t (getMonitoredTrades (svc w)) -> tradeId t <> id) ->
   manualExitTrade id w = (Done (ReturnedBool false), w))
  /\ ((exists t, In t (getMonitoredTrades (svc w)) /\ tradeId t = id) ->
      exists r trade w',
        heap (svc w) !! r = Some trade
        /\ In trade (getMonitoredTrades (svc w))
        /\ tradeId trade = id
        /\ manualExitTrade id w
           = (ExitAwaitExecute FromManual r (manual_condition trade), w')
        /\ monitoredTrades (svc w')
           = JsMap.delete (_id trade) (monitoredTrades (svc w))
        /\ log w'
           = (log w
              ++ [ExecuteTrade (exitTradeData_of trade (manual_condition trade))
                    (entryAmount trade)])%list
        /\ x_tradeId (exitTradeData_of trade (manual_condition trade)) = id
        /\ x_signalMessage (exitTradeData_of trade (manual_condition trade))
           <> signalMessage trade
        /\ fst (drive_exit 3 env trade
                  (ExitAwaitExecute FromManual r (manual_condition trade)))
           = Done (ReturnedBool (manual_result env))
        /\ (succeeds (snd (on_executeTrade env))
            && succeeds (snd (on_exited_write env)) = false ->
            exists m now,
              In (UpdateTradeStatus (_id trade) failed (FailData m now))
                 (snd (drive_exit 3 env trade
                         (ExitAwaitExecute FromManual r
                            (manual_condition trade)))))
        /\ (manual_result env = false <->
            (succeeds (snd (on_executeTrade env))
             && succeeds (snd (on_exited_write env)) = false)
            /\ succeeds (snd (on_failed_write env)) = false)).
Proof.
  split.
  - intros Hnone. unfold manualExitTrade.
    destruct (find_trade (svc w) id) as [[r trade]|] eqn:E; [ | reflexivity ].
    exfalso. apply find_trade_found in E. destruct E as [_ [Hin Ht]].
    exact (Hnone trade Hin Ht).
  - intros [t [Hin Ht]]. unfold manualExitTrade.
    destruct (find_trade (svc w) id) as [[r trade]|] eqn:E.
    2: { exfalso. exact (find_trade_missing _ _ E t Hin Ht). }
    apply find_trade_found in E. destruct E as [Hr [Hin' Ht']].
    exists r, trade,
      (snd (executeTradeExit FromManual r trade (manual_condition trade) w)).
    split; [ exact Hr | ]. split; [ exact Hin' | ]. split; [ exact Ht' | ].
    split; [ reflexivity | ]. split; [ reflexivity | ].
    split; [ reflexivity | ]. split; [ exact Ht' | ].
    split; [ cbn; destruct (signalMessage trade); discriminate | ].
    split; [ apply drive_exit_from_execute | ].
    split; [ apply failed_exit_is_written | ].
    unfold manual_result.
    destruct (succeeds (snd (on_executeTrade env))
              && succeeds (snd (on_exited_write env)));
      destruct (succeeds (snd (on_failed_write env))); intuition congruence.
Qed.

Lemma manualExitTrade_result_witness :
  (exists t, In t (getMonitoredTrades (svc sell_adopted))
             /\ tradeId t = "trade_sell_1")
  /\ exists r trade w',
       manualExitTrade "trade_sell_1" sell_adopted
       = (ExitAwaitExecute FromManual r (manual_condition trade), w')
       /\ monitoredTrades (svc w') = []
       /\ executor_calls "trade_sell_1" w' = 1%nat
       /\ fst (drive_exit 3 executor_down trade
                 (ExitAwaitExecute FromManual r (manual_condition trade)))
          = Done (ReturnedBool true)
       /\ exists m now,
            In (UpdateTradeStatus (_id trade) failed (FailData m now))
               (snd (drive_exit 3 executor_down trade
                       (ExitAwaitExecute FromManual r
                          (manual_condition trade)))).
Proof.
  assert (Hex : exists t, In t (getMonitoredTrades (svc sell_adopted))
                          /\ tradeId t = "trade_sell_1").
  { exists (rehydrate token_sell). split; [ left; reflexivity | reflexivity ]. }
  split; [ exact Hex | ].
  destruct (proj2 (manualExitTrade_result "trade_sell_1" sell_adopted
                     executor_down) Hex)
    as [r [trade [w' [_ [_ [_ [Hm [Hd [Hl [_ [_ [Ha [Hf _]]]]]]]]]]]]].
  exists r, trade, w'.
  split; [ exact Hm | ].
  assert (Hw : w' = snd (manualExitTrade "trade_sell_1" sell_adopted))
    by (rewrite Hm; reflexivity).
  split; [ rewrite Hw; reflexivity | ].
  split; [ rewrite Hw; reflexivity | ].
  split; [ exact Ha | ]. apply Hf. reflexivity.
Defined.

(** X16.  [manualExitTrade] and [getTradeStatus] agree on what is
    monitored: the manual exit answers false at once, touching nothing,
    exactly when [getTradeStatus] answers null for the tradeId; otherwise
    it dispatches the exit of the very trade [getTradeStatus] returns. *)
Theorem manualExitTrade_exits_what_getTradeStatus_shows
    (id : string) (w : World) :
  match getTradeStatus (svc w) id with
  | None => manualExitTrade id w = (Done (ReturnedBool false), w)
  | Some trade =>
      tradeId trade = id
      /\ exists r,
           heap (svc w) !! r = Some trade
           /\ manualExitTrade id w
              = executeTradeExit FromManual r trade (manual_condition trade) w
  end.
Proof.
  rewrite <- find_trade_getTradeStatus. unfold manualExitTrade.
  destruct (find_trade (svc w) id) as [[r trade]|] eqn:E;
    cbn [fmap option_fmap option_map snd]; [ | reflexivity ].
  unfold find_trade in E. apply List.find_some in E.
  destruct E as [Hin He]. cbn [snd] in He. apply String.eqb_eq in He.
  split; [ exact He | ]. exists r. split; [ | reflexivity ].
  apply list_elem_of_In in Hin. apply list_elem_of_omap in Hin.
  destruct Hin as [r0 [_ Hr0]].
  destruct (heap (svc w) !! r0) as [t0|] eqn:E0; [ | discriminate ].
  cbn in Hr0. injection Hr0 as <- <-. exact E0.
Qed.

(** * Token detection *)

Import TokenDetection.

(** ** The ranking order *)

Lemma compare_rank_le (a b : TokenChainInfo) :
  compare_rank a b <= 0
  <-> getSourcePriority (source b) < getSourcePriority (source a)
      \/ (getSourcePriority (source a) = getSourcePriority (source b)
          /\ (verified b = true -> verified a = true)).
Proof.
  unfold compare_rank.
  destruct (Z.eqb_spec (getSourcePriority (source b) - getSourcePriority (source a)) 0)
    as [E|E]; cbn [negb].
  - destruct (verified a), (verified b); split; intros H; try lia;
      try (right; split; [ lia | intros; congruence ]).
  - split; [ intros H; left; lia | intros [H|[H _]]; lia ].
Qed.

Lemma compare_rank_total (a b : TokenChainInfo) :
  compare_rank a b <= 0 \/ compare_rank b a <= 0.
Proof.
  rewrite !compare_rank_le.
  destruct (Z.lt_trichotomy (getSourcePriority (source a))
                            (getSourcePriority (source b))) as [H|[H|H]].
  - right. left. exact H.
  - destruct (verified a) eqn:Ea.
    + left. right. split; [ exact H | reflexivity ].
    + right. right. split; [ symmetry; exact H | intros; congruence ].
  - left. left. exact H.
Qed.

Lemma compare_rank_trans (a b c : TokenChainInfo) :
  compare_rank a b <= 0 -> compare_rank b c <= 0 -> compare_rank a c <= 0.
Proof.
  rewrite !compare_rank_le.
  intros [H1|[H1 V1]] [H2|[H2 V2]].
  - left. lia.
  - left. lia.
  - left. lia.
  - right. split; [ lia | intros V; exact (V1 (V2 V)) ].
Qed.

(** ** The stable sort *)

Lemma insert_by_perm {A : Type} (cmp : A -> A -> Z) (x : A) (l : list A) :
  Permutation (insert_by cmp x l) (x :: l).
Proof.
  induction l as [|y l IH]; cbn; [ reflexivity | ].
  destruct (cmp x y <=? 0); [ reflexivity | ].
  rewrite IH. apply perm_swap.
Qed.

Lemma sort_by_perm {A : Type} (cmp : A -> A -> Z) (l : list A) :
  Permutation (sort_by cmp l) l.
Proof.
  unfold sort_by. induction l as [|x l IH]; cbn; [ reflexivity | ].
  rewrite insert_by_perm. apply perm_skip. exact IH.
Qed.

Lemma insert_by_sorted (x : TokenChainInfo) (l : list TokenChainInfo) :
  StronglySorted (fun a b => compare_rank a b <= 0) l ->
  StronglySorted (fun a b => compare_rank a b <= 0) (insert_by compare_rank x l).
Proof.
  induction 1 as [|y l Hs IH Hy]; cbn.
  - apply SSorted_cons; [ apply SSorted_nil | apply List.Forall_nil ].
  - destruct (Z.leb_spec (compare_rank x y) 0) as [L|L].
    + apply SSorted_cons; [ apply SSorted_cons; assumption | ].
      apply List.Forall_cons; [ exact L | ].
      rewrite List.Forall_forall in Hy |- *. intros z Hz.
      exact (compare_rank_trans _ _ _ L (Hy z Hz)).
    + apply SSorted_cons; [ exact IH | ].
      assert (Hyx : compare_rank y x <= 0).
      { destruct (compare_rank_total x y); [ lia | assumption ]. }
      rewrite List.Forall_forall in Hy |- *. intros z Hz.
      apply (Permutation_in _ (insert_by_perm compare_rank x l)) in Hz.
      destruct Hz as [<-|Hz]; [ exact Hyx | exact (Hy z Hz) ].
Qed.

Lemma sort_by_sorted (l : list TokenChainInfo) :
  StronglySorted (fun a b => compare_rank a b <= 0) (sort_by compare_rank l).
Proof.
  unfold sort_by. induction l as [|x l IH]; cbn; [ apply SSorted_nil | ].
  apply insert_by_sorted. exact IH.
Qed.

Lemma sort_by_sorted_id (l : list TokenChainInfo) :
  StronglySorted (fun a b => compare_rank a b <= 0) l ->
  sort_by compare_rank l = l.
Proof.
  unfold sort_by. induction 1 as [|x l Hs IH Hx]; [ reflexivity | ].
  cbn [fold_right]. rewrite IH.
  destruct l as [|y l]; [ reflexivity | ].
  cbn [insert_by]. apply List.Forall_inv in Hx.
  destruct (Z.leb_spec (compare_rank x y) 0); [ reflexivity | lia ].
Qed.

(** ** The [Map] of [deduplicateAndRank] *)

Lemma get_set_eq {V : Type} (k : string) (v : V) (m : list (string * V)) :
  get k (JsMap.set k v m) = Some v.
Proof.
  unfold get. induction m as [|[k0 v0] m IH]; cbn.
  - rewrite String.eqb_refl. reflexivity.
  - destruct (String.eqb k k0) eqn:E; cbn.
    + rewrite String.eqb_refl. reflexivity.
    + rewrite E. exact IH.
Qed.

Lemma get_set_ne {V : Type} (k k' : string) (v : V) (m : list (string * V)) :
  k <> k' -> get k' (JsMap.set k v m) = get k' m.
Proof.
  intros Hne. unfold get. induction m as [|[k0 v0] m IH]; cbn.
  - destruct (String.eqb k' k) eqn:E; [ | reflexivity ].
    apply String.eqb_eq in E. congruence.
  - destruct (String.eqb k k0) eqn:E; cbn.
    + apply String.eqb_eq in E. subst k0.
      destruct (String.eqb k' k) eqn:E'; [ | reflexivity ].
      apply String.eqb_eq in E'. congruence.
    + destruct (String.eqb k' k0); [ reflexivity | exact IH ].
Qed.

Lemma get_has {V : Type} (k : string) (m : list (string * V)) :
  JsMap.has k m = true <-> exists v, get k m = Some v.
Proof.
  unfold JsMap.has, get. induction m as [|[k0 v0] m IH]; cbn.
  - split; [ discriminate | intros [v H]; discriminate ].
  - destruct (String.eqb k k0); cbn; [ | exact IH ].
    split; [ intros _; eexists; reflexivity | reflexivity ].
Qed.

Lemma get_In {V : Type} (k : string) (v : V) (m : list (string * V)) :
  get k m = Some v -> In (k, v) m.
Proof.
  unfold get. intros H.
  destruct (List.find (fun kv => String.eqb k (fst kv)) m) as [[k0 v0]|] eqn:E;
    [ | discriminate ].
  cbn in H. injection H as ->.
  apply List.find_some in E. destruct E as [Hin He].
  cbn in He. apply String.eqb_eq in He. subst k0. exact Hin.
Qed.

Lemma In_get {V : Type} (k : string) (v : V) (m : list (string * V)) :
  NoDup (map fst m) -> In (k, v) m -> get k m = Some v.
Proof.
  unfold get. induction m as [|[k0 v0] m IH]; cbn; [ tauto | ].
  intros Hd Hin. apply NoDup_cons in Hd. destruct Hd as [Hn Hd].
  destruct (String.eqb k k0) eqn:E; cbn.
  - apply String.eqb_eq in E. subst k0.
    destruct Hin as [Hin|Hin]; [ congruence | ].
    exfalso. apply Hn. apply list_elem_of_In.
    apply in_map_iff. exists (k, v). split; [ reflexivity | exact Hin ].
  - destruct Hin as [Hin|Hin]; [ | exact (IH Hd Hin) ].
    injection Hin as -> ->. rewrite String.eqb_refl in E. discriminate.
Qed.

Lemma keep_best_best_of (seen : list TokenChainInfo)
    (m : list (string * TokenChainInfo)) (x : TokenChainInfo) :
  best_of seen m -> best_of (x :: seen) (keep_best m x).
Proof.
  intros [Hd [Hk Hb]]. unfold keep_best.
  destruct (JsMap.has (key_of x) m) eqn:Eh; cbn [negb orb].
  - destruct (proj1 (get_has _ _) Eh) as [old Eo]. rewrite Eo.
    cbn [from_option].
    destruct (Z.gtb_spec (getSourcePriority (source x))
                         (getSourcePriority (source old))) as [G|G].
    + split; [ exact (JsMap_set_NoDup _ _ _ Hd) | ]. split.
      * intros k v Hin. apply JsMap_set_In in Hin.
        destruct Hin as [Hin|Hin].
        -- injection Hin as -> ->. split; [ reflexivity | left; reflexivity ].
        -- destruct (Hk k v Hin) as [H1 H2]. split; [ exact H1 | right; exact H2 ].
      * intros y [<-|Hy].
        -- exists x. split; [ apply get_set_eq | lia ].
        -- destruct (Hb y Hy) as [v [Hv Hp]].
           destruct (String.eqb_spec (key_of x) (key_of y)) as [E|E].
           ++ exists x. rewrite <- E. split; [ apply get_set_eq | ].
              rewrite <- E, Eo in Hv. injection Hv as <-. lia.
           ++ exists v. split; [ rewrite get_set_ne by exact E; exact Hv | exact Hp ].
    + split; [ exact Hd | ]. split.
      * intros k v Hin. destruct (Hk k v Hin) as [H1 H2].
        split; [ exact H1 | right; exact H2 ].
      * intros y [<-|Hy]; [ exists old; split; [ exact Eo | lia ] | ].
        exact (Hb y Hy).
  - split; [ exact (JsMap_set_NoDup _ _ _ Hd) | ]. split.
    + intros k v Hin. apply JsMap_set_In in Hin.
      destruct Hin as [Hin|Hin].
      * injection Hin as -> ->. split; [ reflexivity | left; reflexivity ].
      * destruct (Hk k v Hin) as [H1 H2]. split; [ exact H1 | right; exact H2 ].
    + intros y [<-|Hy].
      * exists x. split; [ apply get_set_eq | lia ].
      * destruct (Hb y Hy) as [v [Hv Hp]].
        exists v. split; [ | exact Hp ].
        rewrite get_set_ne; [ exact Hv | ].
        intros E. rewrite E in Eh.
        assert (JsMap.has (key_of y) m = true)
          by (apply get_has; exists v; exact Hv).
        congruence.
Qed.

Lemma fold_keep_best_best_of (l seen : list TokenChainInfo)
    (m : list (string * TokenChainInfo)) :
  best_of seen m -> best_of (rev l ++ seen) (fold_left keep_best l m).
Proof.
  revert seen m. induction l as [|x l IH]; intros seen m H; [ exact H | ].
  cbn [fold_left rev]. rewrite <- app_assoc. cbn [app].
  apply IH. apply keep_best_best_of. exact H.
Qed.

Lemma best_of_all (l : list TokenChainInfo) :
  best_of l (fold_left keep_best l []).
Proof.
  pose proof (fold_keep_best_best_of l [] []) as H.
  assert (H0 : best_of [] []).
  { split; [ apply NoDup_nil_2 | ]. split; intros; contradiction. }
  specialize (H H0). rewrite app_nil_r in H.
  destruct H as [Hd [Hk Hb]]. split; [ exact Hd | ]. split.
  - intros k v Hin. destruct (Hk k v Hin) as [H1 H2].
    split; [ exact H1 | ]. apply in_rev. exact H2.
  - intros x Hx. apply Hb. apply in_rev in Hx. exact Hx.
Qed.

Lemma values_keys (m : list (string * TokenChainInfo)) :
  (forall k v, In (k, v) m -> k = key_of v) ->
  map key_of (JsMap.values m) = map fst m.
Proof.
  unfold JsMap.values. induction m as [|[k v] m IH]; intros H; [ reflexivity | ].
  cbn. rewrite IH.
  - rewrite <- (H k v (or_introl eq_refl)). reflexivity.
  - intros k' v' Hin. apply H. right. exact Hin.
Qed.

Lemma In_values (v : TokenChainInfo) (m : list (string * TokenChainInfo)) :
  In v (JsMap.values m) <-> exists k, In (k, v) m.
Proof.
  unfold JsMap.values. rewrite in_map_iff. split.
  - intros [[k v'] [E H]]. cbn in E. subst v'. exists k. exact H.
  - intros [k H]. exists (k, v). split; [ reflexivity | exact H ].
Qed.

Lemma StronglySorted_weaken {A : Type} (R R' : A -> A -> Prop) (l : list A) :
  (forall a b, R a b -> R' a b) -> StronglySorted R l -> StronglySorted R' l.
Proof.
  intros Himp. induction 1 as [|x l Hs IH Hx]; [ apply SSorted_nil | ].
  apply SSorted_cons; [ exact IH | ].
  rewrite List.Forall_forall in Hx |- *. intros y Hy. exact (Himp _ _ (Hx y Hy)).
Qed.

(** X17.  [deduplicateAndRank] returns its entries ranked: the source
    priority never increases along the list and, among entries of equal
    priority, verified ones come first; so its head, which the caller takes
    as primary chain, has the highest source priority of all the entries
    given. *)
Theorem deduplicateAndRank_is_ranked (tokenInfos : list TokenChainInfo) :
  StronglySorted
    (fun a b =>
       getSourcePriority (source b) <= getSourcePriority (source a)
       /\ (getSourcePriority (source a) = getSourcePriority (source b) ->
           verified b = true -> verified a = true))
    (deduplicateAndRank tokenInfos)
  /\ (forall primary, head (deduplicateAndRank tokenInfos) = Some primary ->
        forall x, In x tokenInfos ->
                  getSourcePriority (source x)
                  <= getSourcePriority (source primary)).
Proof.
  unfold deduplicateAndRank.
  set (m := fold_left keep_best tokenInfos []).
  pose proof (sort_by_sorted (JsMap.values m)) as Hs.
  pose proof (sort_by_perm compare_rank (JsMap.values m)) as Hp.
  split.
  - eapply StronglySorted_weaken; [ | exact Hs ].
    intros a b H. apply compare_rank_le in H.
    destruct H as [H|[H V]]; split; try lia; try (intros; lia).
    intros _. exact V.
  - intros primary Hh x Hx.
    destruct (best_of_all tokenInfos) as [_ [_ Hb]].
    destruct (Hb x Hx) as [v [Hv Hle]]. fold m in Hv.
    assert (Hin : In v (sort_by compare_rank (JsMap.values m))).
    { apply (Permutation_in _ (Permutation_sym Hp)).
      apply In_values. exists (key_of x). exact (get_In _ _ _ Hv). }
    destruct (sort_by compare_rank (JsMap.values m)) as [|p rest];
      [ discriminate | ].
    cbn in Hh. injection Hh as ->.
    destruct Hin as [->|Hin]; [ exact Hle | ].
    apply StronglySorted_inv in Hs. destruct Hs as [_ Hall].
    rewrite List.Forall_forall in Hall.
    pose proof (proj1 (compare_rank_le _ _) (Hall v Hin)) as [H|[H _]]; lia.
Qed.

(** X18.  [deduplicateAndRank] keeps one entry per network and address:
    the keys networkKey:contractAddress of its result are pairwise
    distinct, every entry of the result is one of the entries given, and
    every entry given is represented by an entry of the same key whose
    source priority is at least its own.  The result is empty only for an
    empty input. *)
Theorem deduplicateAndRank_keeps_the_best (tokenInfos : list TokenChainInfo) :
  NoDup (map key_of (deduplicateAndRank tokenInfos))
  /\ (forall v, In v (deduplicateAndRank tokenInfos) -> In v tokenInfos)
  /\ (forall x, In x tokenInfos ->
        exists v,
          In v (deduplicateAndRank tokenInfos)
          /\ key_of v = key_of x
          /\ getSourcePriority (source x) <= getSourcePriority (source v))
  /\ (deduplicateAndRank tokenInfos = [] <-> tokenInfos = []).
Proof.
  unfold deduplicateAndRank.
  set (m := fold_left keep_best tokenInfos []).
  pose proof (sort_by_perm compare_rank (JsMap.values m)) as Hp.
  destruct (best_of_all tokenInfos) as [Hd [Hk Hb]]. fold m in Hd, Hk, Hb.
  assert (Hrep : forall x, In x tokenInfos ->
            exists v, In v (sort_by compare_rank (JsMap.values m))
                      /\ key_of v = key_of x
                      /\ getSourcePriority (source x)
                         <= getSourcePriority (source v)).
  { intros x Hx. destruct (Hb x Hx) as [v [Hv Hle]].
    pose proof (get_In _ _ _ Hv) as Hin.
    exists v. split; [ | split; [ | exact Hle ] ].
    - apply (Permutation_in _ (Permutation_sym Hp)).
      apply In_values. exists (key_of x). exact Hin.
    - symmetry. exact (proj1 (Hk _ _ Hin)). }
  split; [ | split; [ | split; [ exact Hrep | ] ] ].
  - rewrite Hp. rewrite values_keys; [ exact Hd | ].
    intros k v Hin. exact (proj1 (Hk k v Hin)).
  - intros v Hv. apply (Permutation_in _ Hp) in Hv.
    apply In_values in Hv. destruct Hv as [k Hin].
    exact (proj2 (Hk k v Hin)).
  - split.
    + intros E. destruct tokenInfos as [|x l]; [ reflexivity | ].
      destruct (Hrep x (or_introl eq_refl)) as [v [Hv _]].
      rewrite E in Hv. destruct Hv.
    + intros ->. reflexivity.
Qed.

Lemma JsMap_set_absent {V : Type} (k : string) (v : V) (m : list (string * V)) :
  JsMap.has k m = false -> JsMap.set k v m = (m ++ [(k, v)])%list.
Proof.
  unfold JsMap.has. induction m as [|[k0 v0] m IH]; cbn; [ reflexivity | ].
  destruct (String.eqb k k0); cbn; [ discriminate | ].
  intros H. rewrite (IH H). reflexivity.
Qed.

Lemma fold_keep_best_distinct (l : list TokenChainInfo)
    (m : list (string * TokenChainInfo)) :
  NoDup (map fst m ++ map key_of l) ->
  fold_left keep_best l m = (m ++ map (fun v => (key_of v, v)) l)%list.
Proof.
  revert m. induction l as [|x l IH]; intros m Hd.
  - cbn. rewrite app_nil_r. reflexivity.
  - cbn [fold_left map].
    assert (Hh : JsMap.has (key_of x) m = false).
    { destruct (JsMap.has (key_of x) m) eqn:E; [ | reflexivity ].
      apply JsMap_has_In in E. apply NoDup_app in Hd.
      destruct Hd as [_ [Hd _]]. exfalso.
      apply (Hd (key_of x)); [ apply list_elem_of_In; exact E | ].
      cbn. left. }
    unfold keep_best at 2. rewrite Hh. cbn [negb orb].
    rewrite JsMap_set_absent by exact Hh.
    rewrite IH.
    + rewrite <- app_assoc. reflexivity.
    + rewrite map_app. cbn [map fst]. rewrite <- app_assoc. exact Hd.
Qed.

Lemma deduplicateAndRank_keeps_the_best_keys (tokenInfos : list TokenChainInfo) :
  NoDup (map fst (@nil (string * TokenChainInfo))
         ++ map key_of (deduplicateAndRank tokenInfos))
  /\ StronglySorted (fun a b => compare_rank a b <= 0)
       (deduplicateAndRank tokenInfos).
Proof.
  unfold deduplicateAndRank.
  set (m := fold_left keep_best tokenInfos []).
  pose proof (sort_by_perm compare_rank (JsMap.values m)) as Hp.
  destruct (best_of_all tokenInfos) as [Hd [Hk _]]. fold m in Hd, Hk.
  split; [ | apply sort_by_sorted ].
  cbn [map app]. rewrite Hp. rewrite values_keys; [ exact Hd | ].
  intros k v Hin. exact (proj1 (Hk k v Hin)).
Qed.

(** X19.  [deduplicateAndRank] is idempotent: ranking a list that is
    already deduplicated and ranked returns it unchanged. *)
Theorem deduplicateAndRank_idempotent (tokenInfos : list TokenChainInfo) :
  deduplicateAndRank (deduplicateAndRank tokenInfos)
  = deduplicateAndRank tokenInfos.
Proof.
  destruct (deduplicateAndRank_keeps_the_best_keys tokenInfos) as [Hd Hs].
  set (out := deduplicateAndRank tokenInfos) in *.
  unfold deduplicateAndRank at 1.
  rewrite fold_keep_best_distinct by exact Hd.
  cbn [app]. unfold JsMap.values. rewrite map_map. cbn [snd].
  rewrite map_id. apply sort_by_sorted_id. exact Hs.
Qed.

(** ** Choosing the chain *)

Lemma filter_partition_perm {A : Type} (f : A -> bool) (l : list A) :
  Permutation (List.filter f l ++ List.filter (fun x => negb (f x)) l) l.
Proof.
  induction l as [|x l IH]; [ reflexivity | ].
  cbn [List.filter]. destruct (f x); cbn [negb app].
  - apply perm_skip. exact IH.
  - rewrite <- Permutation_middle. apply perm_skip. exact IH.
Qed.

Lemma head_filter_find {A : Type} (f : A -> bool) (l : list A) :
  head (List.filter f l) = List.find f l.
Proof.
  induction l as [|x l IH]; [ reflexivity | ].
  cbn. destruct (f x); [ reflexivity | exact IH ].
Qed.

(** X20.  [selectOptimalChain] neither drops nor invents a chain: when it
    returns, success, error and the listed chains up to their order are
    those of the result it was given; a result without a chain list comes
    back unchanged. *)
Theorem selectOptimalChain_keeps_chains
    (result r' : ChainDetectionResult)
    (userSafeDeployments : option (list Deployment)) :
  selectOptimalChain result userSafeDeployments = Some r' ->
  success r' = success result
  /\ error r' = error result
  /\ (tokenInfo result = None -> r' = result)
  /\ (forall infos, tokenInfo result = Some infos ->
        exists infos', tokenInfo r' = Some infos' /\ Permutation infos' infos).
Proof.
  unfold selectOptimalChain.
  destruct (tokenInfo result) as [infos|] eqn:Ei.
  2:{ intros [= <-]. split; [ reflexivity | ]. split; [ reflexivity | ].
      split; [ reflexivity | ]. intros infos0 E0. discriminate. }
  assert (Hsame : Some result = Some r' ->
            success r' = success result /\ error r' = error result
            /\ (Some infos = None -> r' = result)
            /\ (forall infos0, Some infos = Some infos0 ->
                  exists infos', tokenInfo r' = Some infos'
                                 /\ Permutation infos' infos0)).
  { intros [= <-]. split; [ reflexivity | ]. split; [ reflexivity | ].
    split; [ discriminate | ].
    intros infos0 [= <-]. exists infos. split; [ exact Ei | reflexivity ]. }
  destruct userSafeDeployments as [[|d ds]|]; try exact Hsame.
  destruct (negb (success result)); [ exact Hsame | ].
  clear Hsame.
  generalize (filter_partition_perm
                (on_user_network (userNetworks (d :: ds))) infos).
  destruct (List.filter (on_user_network (userNetworks (d :: ds))) infos)
    as [|first rest]; intros Hperm.
  - destruct (match primaryChain result with
              | Some p => Some p
              | None => head infos
              end); [ | discriminate ].
    intros [= <-]. cbn.
    split; [ reflexivity | ]. split; [ reflexivity | ].
    split; [ discriminate | ].
    intros infos0 [= <-]. exists infos. split; [ reflexivity | reflexivity ].
  - intros [= <-]. cbn.
    split; [ reflexivity | ]. split; [ reflexivity | ].
    split; [ discriminate | ].
    intros infos0 [= <-]. eexists. split; [ reflexivity | exact Hperm ].
Qed.

Lemma selectOptimalChain_keeps_chains_witness :
  exists r',
    selectOptimalChain (found true [uni_eth; uni_arb]) (Some [safe_on_arbitrum])
    = Some r'
    /\ tokenInfo r' = Some [uni_arb; uni_eth]
    /\ success r' = success (found true [uni_eth; uni_arb]).
Proof.
  eexists. split; [ reflexivity | ]. split; [ reflexivity | ].
  exact (proj1 (selectOptimalChain_keeps_chains
                  (found true [uni_eth; uni_arb]) _ (Some [safe_on_arbitrum])
                  eq_refl)).
Defined.

(** X21.  With a successful result and at least one deployment,
    [selectOptimalChain] prefers the user's networks: when some listed
    chain is on a network where the user has an active Safe, the first
    such chain becomes primary chain and the chains on such networks are
    moved, in their order, in front of the others; when none is, the list
    and the primary chain stay and the recommended action names the
    primary chain's network and symbol. *)
Theorem selectOptimalChain_prefers_user_networks
    (result : ChainDetectionResult) (infos : list TokenChainInfo)
    (d : Deployment) (ds : list Deployment) :
  success result = true ->
  tokenInfo result = Some infos ->
  let nets := userNetworks (d :: ds) in
  match List.find (on_user_network nets) infos with
  | Some first =>
      exists r',
        selectOptimalChain result (Some (d :: ds)) = Some r'
        /\ primaryChain r' = Some first
        /\ on_user_network nets first = true
        /\ tokenInfo r'
           = Some (List.filter (on_user_network nets) infos
                   ++ List.filter (fun i => negb (on_user_network nets i)) infos)%list
        /\ head (List.filter (on_user_network nets) infos) = Some first
        /\ recommendedAction r' = recommendedAction result
  | None =>
      forall primary,
        (primaryChain result = Some primary
         \/ (primaryChain result = None /\ head infos = Some primary)) ->
        exists r',
          selectOptimalChain result (Some (d :: ds)) = Some r'
          /\ tokenInfo r' = Some infos
          /\ primaryChain r' = primaryChain result
          /\ recommendedAction r'
             = Some ("Deploy Safe on " +:+ networkKey primary
                     +:+ " network to trade " +:+ symbol primary)
  end.
Proof.
  intros Hs Hi nets. unfold selectOptimalChain. rewrite Hi, Hs. cbn [negb].
  fold nets.
  pose proof (head_filter_find (on_user_network nets) infos) as Hh.
  destruct (List.find (on_user_network nets) infos) as [first|] eqn:Ef.
  - destruct (List.filter (on_user_network nets) infos) as [|f rest] eqn:El;
      [ discriminate | ].
    cbn in Hh. injection Hh as ->.
    eexists. split; [ reflexivity | ]. cbn.
    split; [ reflexivity | ].
    split; [ exact (proj2 (List.find_some _ _ Ef)) | ].
    repeat split.
  - destruct (List.filter (on_user_network nets) infos) as [|f rest] eqn:El;
      [ | discriminate ].
    intros primary [Hp|[Hp Hd]]; rewrite Hp; [ | rewrite Hd ];
      eexists; (split; [ reflexivity | ]); cbn;
      (split; [ reflexivity | ]); (split; [ | reflexivity ]);
      congruence.
Qed.

Lemma selectOptimalChain_prefers_user_networks_witness :
  success (found true [uni_eth; uni_arb]) = true
  /\ tokenInfo (found true [uni_eth; uni_arb]) = Some [uni_eth; uni_arb]
  /\ exists r',
       selectOptimalChain (found true [uni_eth; uni_arb])
         (Some [safe_on_arbitrum]) = Some r'
       /\ primaryChain r' = Some uni_arb
       /\ tokenInfo r' = Some [uni_arb; uni_eth].
Proof.
  split; [ reflexivity | ]. split; [ reflexivity | ].
  pose proof (selectOptimalChain_prefers_user_networks
                (found true [uni_eth; uni_arb]) [uni_eth; uni_arb]
                safe_on_arbitrum [] eq_refl eq_refl) as H.
  cbn in H. destruct H as [r' [H1 [H2 [_ [H3 _]]]]].
  exists r'. split; [ exact H1 | ]. split; [ exact H2 | exact H3 ].
Defined.

(** X22.  [selectOptimalChain] throws in one case only: a successful
    result with an empty chain list and no primary chain, asked about a
    non-empty list of deployments. *)
Theorem selectOptimalChain_throws_iff
    (result : ChainDetectionResult)
    (userSafeDeployments : option (list Deployment)) :
  selectOptimalChain result userSafeDeployments = None
  <-> success result = true
      /\ tokenInfo result = Some []
      /\ primaryChain result = None
      /\ exists d ds, userSafeDeployments = Some (d :: ds).
Proof.
  unfold selectOptimalChain. split.
  - destruct (tokenInfo result) as [infos|]; [ | discriminate ].
    destruct userSafeDeployments as [[|d ds]|]; try discriminate.
    destruct (success result); cbn [negb]; [ | discriminate ].
    destruct (List.filter (on_user_network (userNetworks (d :: ds))) infos);
      [ | discriminate ].
    destruct (primaryChain result); [ discriminate | ].
    destruct infos; [ | discriminate ].
    intros _. repeat split. exists d, ds. reflexivity.
  - intros [Hs [Hi [Hp [d [ds ->]]]]]. rewrite Hi, Hs, Hp. reflexivity.
Qed.

(** ** Detection *)

Lemma isCacheValid_uncached (now : Z) (cached : ChainDetectionResult) :
  cachedAt cached = None -> isCacheValid now cached = false.
Proof. unfold isCacheValid. intros ->. reflexivity. Qed.

Lemma get_Forall {V : Type} (P : V -> Prop) (k : string) (v : V)
    (m : list (string * V)) :
  Forall (fun kv => P (snd kv)) m -> get k m = Some v -> P v.
Proof.
  intros Hall Hg. apply get_In in Hg.
  rewrite Forall_forall in Hall.
  exact (Hall (k, v) (proj2 (list_elem_of_In _ _) Hg)).
Qed.

Lemma set_Forall {V : Type} (P : string * V -> Prop) (k : string) (v : V)
    (m : list (string * V)) :
  Forall P m -> P (k, v) -> Forall P (JsMap.set k v m).
Proof.
  intros Hall Hv. rewrite Forall_forall in Hall |- *.
  intros kv Hin. apply list_elem_of_In in Hin. apply JsMap_set_In in Hin.
  destruct Hin as [->|Hin]; [ exact Hv | ].
  apply Hall. apply list_elem_of_In. exact Hin.
Qed.

Lemma select_found (x : TokenChainInfo) (l : list TokenChainInfo)
    (userSafeDeployments : option (list Deployment)) :
  exists r',
    selectOptimalChain (found true (x :: l)) userSafeDeployments = Some r'
    /\ good_result r' (x :: l)
    /\ cachedAt r' = None.
Proof.
  unfold selectOptimalChain. cbn [tokenInfo found success negb].
  assert (Hsame : exists r',
            Some (found true (x :: l)) = Some r'
            /\ good_result r' (x :: l) /\ cachedAt r' = None).
  { eexists. split; [ reflexivity | ]. split; [ | reflexivity ].
    split; [ reflexivity | ]. split; [ reflexivity | ].
    exists (x :: l), x. split; [ reflexivity | ]. split; [ reflexivity | ].
    split; [ reflexivity | left; reflexivity ]. }
  destruct userSafeDeployments as [[|d ds]|]; try exact Hsame.
  generalize (filter_partition_perm
                (on_user_network (userNetworks (d :: ds))) (x :: l)).
  destruct (List.filter (on_user_network (userNetworks (d :: ds))) (x :: l))
    as [|first rest]; intros Hperm.
  - cbn [primaryChain found head]. eexists. split; [ reflexivity | ].
    split; [ | reflexivity ].
    split; [ reflexivity | ]. split; [ reflexivity | ].
    exists (x :: l), x. split; [ reflexivity | ]. split; [ reflexivity | ].
    split; [ reflexivity | left; reflexivity ].
  - eexists. split; [ reflexivity | ]. split; [ | reflexivity ].
    split; [ reflexivity | ]. split; [ reflexivity | ].
    eexists. exists first. split; [ reflexivity | ].
    split; [ exact Hperm | ]. split; [ reflexivity | left; reflexivity ].
Qed.

Section DetectionFacts.

Variable toUpperCase : string -> string.
Variable getTokenInfo : string -> option Detect.TokenInfo.
Variable getNetworkByKey : string -> option Detect.Network.
Variable token_map_keys : list string.
Variable type_error_message : string.

Lemma checkKnownTokens_shape (tokenSymbol : string) :
  Detect.checkKnownTokens getTokenInfo getNetworkByKey tokenSymbol = not_found
  \/ exists chainInfos,
       Detect.checkKnownTokens getTokenInfo getNetworkByKey tokenSymbol
       = found true chainInfos
       /\ Forall (fun i => source i = known /\ verified i = true) chainInfos.
Proof.
  unfold Detect.checkKnownTokens.
  destruct (getTokenInfo tokenSymbol) as [ti|]; [ right | left; reflexivity ].
  eexists. split; [ reflexivity | ].
  induction (Detect.ti_addresses ti) as [|e es IH]; [ apply Forall_nil_2 | ].
  cbn [omap list_omap]. destruct (getNetworkByKey (fst e)); cbn; [ | exact IH ].
  apply Forall_cons. split; [ split; reflexivity | exact IH ].
Qed.

(** X23.  The cache of [detectTokenChains] is written and never read back.
    No result the service stores carries a [cachedAt], so [isCacheValid]
    is false for every entry: every call runs the detection again,
    whatever the cache holds and whatever the clock says; and the cache
    keeps this form after each call. *)
Theorem detection_cache_is_never_read
    (tokenSymbol : string) (userSafeDeployments : option (list Deployment))
    (now : Z) (cache : list (string * ChainDetectionResult))
    (coinGecko dexScreener : option ChainDetectionResult) :
  uncached cache ->
  fst (Detect.detect_begin toUpperCase getTokenInfo getNetworkByKey
         type_error_message tokenSymbol userSafeDeployments now cache)
  = fst (Detect.detect_begin toUpperCase getTokenInfo getNetworkByKey
           type_error_message tokenSymbol userSafeDeployments 0 [])
  /\ uncached
       (snd (Detect.detect_begin toUpperCase getTokenInfo getNetworkByKey
               type_error_message tokenSymbol userSafeDeployments now cache))
  /\ uncached
       (snd (Detect.detect_finish toUpperCase getNetworkByKey token_map_keys
               type_error_message tokenSymbol userSafeDeployments
               coinGecko dexScreener cache)).
Proof.
  intros Hu. unfold Detect.detect_begin, Detect.detect_finish.
  assert (Hmiss :
    match get (toUpperCase tokenSymbol) cache with
    | Some cached => if isCacheValid now cached then Some cached else None
    | None => None
    end = None).
  { destruct (get (toUpperCase tokenSymbol) cache) as [cached|] eqn:E;
      [ | reflexivity ].
    rewrite isCacheValid_uncached; [ reflexivity | ].
    exact (get_Forall (fun r => cachedAt r = None) _ _ _ Hu E). }
  rewrite Hmiss. cbn [get List.find fmap option_fmap option_map].
  split; [ | split ].
  - destruct (success _ && _); reflexivity.
  - destruct (success _ && _); cbn [snd]; [ | exact Hu ].
    apply set_Forall; [ exact Hu | ].
    destruct (checkKnownTokens_shape tokenSymbol) as [->|[ci [-> _]]];
      reflexivity.
  - destruct (Nat.eqb _ 0).
    + destruct (success _); cbn [snd]; apply set_Forall; try exact Hu;
        [ | reflexivity ].
      unfold Detect.tryFallbackAddresses. reflexivity.
    + cbn [snd]. apply set_Forall; [ exact Hu | reflexivity ].
Qed.

Lemma tryFallbackAddresses_fails (tokenSymbol : string) :
  Detect.tryFallbackAddresses toUpperCase getNetworkByKey tokenSymbol
  = not_found.
Proof. reflexivity. Qed.

Lemma deduplicateAndRank_nil (l : list TokenChainInfo) :
  deduplicateAndRank l = [] -> l = [].
Proof.
  intros E. destruct l as [|x l]; [ reflexivity | exfalso ].
  destruct (best_of_all (x :: l)) as [_ [_ Hb]].
  destruct (Hb x (or_introl eq_refl)) as [v [Hv _]].
  apply get_In in Hv.
  assert (Hin : In v (deduplicateAndRank (x :: l))).
  { unfold deduplicateAndRank.
    apply (Permutation_in _ (Permutation_sym (sort_by_perm compare_rank _))).
    apply In_values. eexists. exact Hv. }
  rewrite E in Hin. destruct Hin.
Qed.

(** X24.  Known tokens cut the detection short.  With a cache as the
    service builds it, [detectTokenChains] returns before any API query
    exactly when [checkKnownTokens] lists at least one chain; the result is
    then successful, lists exactly those chains (all from source known and
    verified) up to order with a primary chain among them, and was stored
    in the cache under the upper-cased symbol. *)
Theorem known_tokens_answer_at_once
    (tokenSymbol : string) (userSafeDeployments : option (list Deployment))
    (now : Z) (cache : list (string * ChainDetectionResult)) :
  uncached cache ->
  match Detect.detect_begin toUpperCase getTokenInfo getNetworkByKey
          type_error_message tokenSymbol userSafeDeployments now cache with
  | (Detect.Returns r, cache') =>
      exists x l,
        Detect.checkKnownTokens getTokenInfo getNetworkByKey tokenSymbol
        = found true (x :: l)
        /\ good_result r (x :: l)
        /\ Forall (fun i => source i = known /\ verified i = true) (x :: l)
        /\ get (toUpperCase tokenSymbol) cache' = Some (found true (x :: l))
  | (Detect.AwaitsQueries, cache') =>
      cache' = cache
      /\ (Detect.checkKnownTokens getTokenInfo getNetworkByKey tokenSymbol
          = not_found
          \/ Detect.checkKnownTokens getTokenInfo getNetworkByKey tokenSymbol
             = found true [])
  end.
Proof.
  intros Hu. unfold Detect.detect_begin.
  assert (Hmiss :
    match get (toUpperCase tokenSymbol) cache with
    | Some cached => if isCacheValid now cached then Some cached else None
    | None => None
    end = None).
  { destruct (get (toUpperCase tokenSymbol) cache) as [cached|] eqn:E;
      [ | reflexivity ].
    rewrite isCacheValid_uncached; [ reflexivity | ].
    exact (get_Forall (fun r => cachedAt r = None) _ _ _ Hu E). }
  rewrite Hmiss.
  destruct (checkKnownTokens_shape tokenSymbol) as [->|[ci [-> Hk]]].
  - cbn. split; [ reflexivity | left; reflexivity ].
  - destruct ci as [|x l]; cbn [success found tokenInfo default length andb].
    + cbn. split; [ reflexivity | right; reflexivity ].
    + replace (0 <? Z.of_nat (length (x :: l))) with true
        by (symmetry; apply Z.ltb_lt; cbn [length]; lia).
      unfold Detect.select_or_fail.
      destruct (select_found x l userSafeDeployments) as [r' [-> [Hg _]]].
      exists x, l. split; [ reflexivity | ]. split; [ exact Hg | ].
      split; [ exact Hk | apply get_set_eq ].
Qed.

(** X25.  Once the two API queries have settled, [detectTokenChains]
    fails exactly when no fulfilled, successful query (CoinGecko,
    DexScreener, the table of common addresses) brought a chain, and then
    returns the not-found error; otherwise it succeeds with the
    deduplicated and ranked chains of all three up to order and a primary
    chain among them.  The catch-all failure is never returned, and the
    result is stored in the cache either way. *)
Theorem detection_outcome
    (tokenSymbol : string) (userSafeDeployments : option (list Deployment))
    (coinGecko dexScreener : option ChainDetectionResult)
    (cache : list (string * ChainDetectionResult)) :
  let common :=
    Detect.queryCommonAddresses toUpperCase getNetworkByKey tokenSymbol in
  let allTokenInfo :=
    concat (map Detect.settled_infos [coinGecko; dexScreener; Some common]) in
  let out :=
    Detect.detect_finish toUpperCase getNetworkByKey token_map_keys
      type_error_message tokenSymbol userSafeDeployments
      coinGecko dexScreener cache in
  match allTokenInfo with
  | [] =>
      fst out = Detect.errorResult token_map_keys tokenSymbol
      /\ success (fst out) = false
      /\ get (toUpperCase tokenSymbol) (snd out) = Some (fst out)
  | _ :: _ =>
      good_result (fst out) (deduplicateAndRank allTokenInfo)
      /\ get (toUpperCase tokenSymbol) (snd out)
         = Some (found true (deduplicateAndRank allTokenInfo))
  end.
Proof.
  cbv zeta. unfold Detect.detect_finish.
  destruct (concat (map Detect.settled_infos
                      [coinGecko; dexScreener;
                       Some (Detect.queryCommonAddresses toUpperCase
                               getNetworkByKey tokenSymbol)]))
    as [|i is_] eqn:Eall.
  - cbn [length Nat.eqb]. rewrite tryFallbackAddresses_fails.
    cbn [success not_found fst snd].
    split; [ reflexivity | ]. split; [ reflexivity | apply get_set_eq ].
  - cbn [length Nat.eqb fst snd].
    destruct (deduplicateAndRank (i :: is_)) as [|x l] eqn:Ed.
    { apply deduplicateAndRank_nil in Ed. discriminate. }
    unfold Detect.select_or_fail.
    destruct (select_found x l userSafeDeployments) as [r' [-> [Hg _]]].
    split; [ exact Hg | apply get_set_eq ].
Qed.

End DetectionFacts.

Lemma detection_cache_is_never_read_witness :
  uncached [("UNI", found true [uni_eth])]
  /\ fst (Detect.detect_begin sample_upper sample_tokens sample_networks
            "TypeError" "UNI" None 1000 [("UNI", found true [uni_eth])])
     = Detect.AwaitsQueries.
Proof.
  assert (Hu : uncached [("UNI", found true [uni_eth])]).
  { apply Forall_cons. split; [ reflexivity | apply Forall_nil_2 ]. }
  split; [ exact Hu | ].
  rewrite (proj1 (detection_cache_is_never_read sample_upper sample_tokens
                    sample_networks [] "TypeError" "UNI" None 1000
                    [("UNI", found true [uni_eth])] None None Hu)).
  reflexivity.
Defined.

Lemma known_tokens_answer_at_once_witness :
  uncached []
  /\ exists r cache',
       Detect.detect_begin sample_upper sample_tokens sample_networks
         "TypeError" "WETH" (Some [safe_on_arbitrum]) 1000 []
       = (Detect.Returns r, cache')
       /\ success r = true
       /\ recommendedAction r
          = Some "Deploy Safe on ethereum network to trade WETH".
Proof.
  assert (Hu : uncached []) by apply Forall_nil_2.
  split; [ exact Hu | ].
  pose proof (known_tokens_answer_at_once sample_upper sample_tokens
                sample_networks "TypeError" "WETH" (Some [safe_on_arbitrum])
                1000 [] Hu) as H.
  destruct (Detect.detect_begin sample_upper sample_tokens sample_networks
              "TypeError" "WETH" (Some [safe_on_arbitrum]) 1000 [])
    as [[r|] cache'] eqn:E; [ | vm_compute in E; discriminate ].
  destruct H as [x [l [_ [[Hs _] _]]]].
  exists r, cache'. split; [ reflexivity | ]. split; [ exact Hs | ].
  vm_compute in E. injection E as <- _. reflexivity.
Defined.

(** ** The two API queries *)

Import Queries.

Lemma with_retry_unrolled (f : nat -> option ChainDetectionResult) :
  with_retry f
  = match f 1%nat with
    | Some r => (r, 1%nat)
    | None => (from_option id not_found (f 2%nat), 2%nat)
    end.
Proof.
  unfold with_retry, MAX_RETRIES. cbn.
  destruct (f 1%nat); [ reflexivity | ].
  destruct (f 2%nat); reflexivity.
Qed.

Lemma found_or_not_cases (chainInfos : list TokenChainInfo) :
  match tokenInfo (found_or_not chainInfos) with
  | None => found_or_not chainInfos = not_found /\ chainInfos = []
  | Some chains =>
      found_or_not chainInfos = found true chains
      /\ chains <> [] /\ chains = chainInfos
  end.
Proof.
  destruct chainInfos as [|x l]; cbn.
  - split; reflexivity.
  - split; [ reflexivity | ]. split; [ discriminate | reflexivity ].
Qed.

Lemma existsb_eqb_false (k : string) (l : list string) :
  existsb (String.eqb k) l = false -> k ∉ l.
Proof.
  intros H Hin. apply list_elem_of_In in Hin.
  assert (E : existsb (String.eqb k) l = true).
  { apply existsb_exists. exists k. split; [ exact Hin | apply String.eqb_refl ]. }
  congruence.
Qed.

Section QueryFacts.

Variable toUpperCase : string -> string.
Variable toLowerCase : string -> string.
Variable getNetworkByKey : string -> option Detect.Network.

Lemma upper_or_same (s tokenSymbol : string) :
  toUpperCase s = toUpperCase tokenSymbol ->
  upper_or toUpperCase (Some s) tokenSymbol = toUpperCase tokenSymbol.
Proof.
  intros E. unfold upper_or.
  destruct (String.eqb (toUpperCase s) EmptyString); [ reflexivity | exact E ].
Qed.

Lemma dex_round_cases (tokenSymbol : string)
    (st : list string * list TokenChainInfo) (pair : Pair) :
  dex_round toUpperCase getNetworkByKey tokenSymbol st pair = st
  \/ exists info key network,
       dex_listing toUpperCase getNetworkByKey tokenSymbol pair info
       /\ getNetworkByKey key = Some network
       /\ networkKey info = Detect.n_networkKey network
       /\ ((key +:+ ":" +:+ contractAddress info) ∉ fst st)
       /\ dex_round toUpperCase getNetworkByKey tokenSymbol st pair
          = ((fst st ++ [key +:+ ":" +:+ contractAddress info])%list,
             (snd st ++ [info])%list).
Proof.
  unfold dex_round.
  destruct (p_baseToken pair) as [baseToken|] eqn:Eb; [ | left; reflexivity ].
  destruct (bt_symbol baseToken) as [s|] eqn:Es; cbn [from_option negb];
    [ | left; reflexivity ].
  destruct (String.eqb (toUpperCase s) (toUpperCase tokenSymbol)) eqn:Eu;
    cbn [negb]; [ | left; reflexivity ].
  apply String.eqb_eq in Eu.
  destruct (get (p_chainId pair) chainMap) as [key|] eqn:Ek;
    [ | left; reflexivity ].
  destruct (getNetworkByKey key) as [network|] eqn:En; [ | left; reflexivity ].
  destruct (existsb (String.eqb (key +:+ ":" +:+ bt_address baseToken)) (fst st))
    eqn:Ex; [ left; reflexivity | ].
  right. rewrite (upper_or_same s tokenSymbol Eu).
  eexists _, key, network.
  split; [ exists baseToken, s, key, network; repeat (split; [ eassumption | ]);
           reflexivity | ].
  split; [ exact En | ]. split; [ reflexivity | ].
  split; [ apply existsb_eqb_false; exact Ex | reflexivity ].
Qed.

Lemma dex_fold_listing (tokenSymbol : string) (pairs : list Pair)
    (l : list Pair) (st : list string * list TokenChainInfo) :
  (forall pair, In pair l -> In pair pairs) ->
  Forall (fun info =>
            exists pair,
              In pair pairs
              /\ dex_listing toUpperCase getNetworkByKey tokenSymbol pair info)
         (snd st) ->
  Forall (fun info =>
            exists pair,
              In pair pairs
              /\ dex_listing toUpperCase getNetworkByKey tokenSymbol pair info)
         (snd (fold_left (dex_round toUpperCase getNetworkByKey tokenSymbol)
                 l st)).
Proof.
  revert st. induction l as [|pair l IH]; intros st Hin Hst; [ exact Hst | ].
  cbn [fold_left]. apply IH.
  - intros p Hp. apply Hin. right. exact Hp.
  - destruct (dex_round_cases tokenSymbol st pair)
      as [-> | [info [key [network [Hl [_ [_ [_ ->]]]]]]]]; [ exact Hst | ].
    cbn [snd]. apply Forall_app. split; [ exact Hst | ].
    apply Forall_cons. split; [ | apply Forall_nil_2 ].
    exists pair. split; [ apply Hin; left; reflexivity | exact Hl ].
Qed.

Lemma dex_fold_keys (tokenSymbol : string)
    (Hnet : networks_keyed getNetworkByKey)
    (l : list Pair) (st : list string * list TokenChainInfo) :
  fst st = map key_of (snd st) ->
  NoDup (fst st) ->
  NoDup (map key_of
           (snd (fold_left (dex_round toUpperCase getNetworkByKey tokenSymbol)
                   l st))).
Proof.
  revert st. induction l as [|pair l IH]; intros st Hk Hd.
  - cbn. rewrite <- Hk. exact Hd.
  - cbn [fold_left].
    destruct (dex_round_cases tokenSymbol st pair)
      as [-> | [info [key [network [_ [En [Hn [Hnew ->]]]]]]]].
    + apply IH; assumption.
    + assert (Ekey : key +:+ ":" +:+ contractAddress info = key_of info).
      { unfold key_of. rewrite Hn. rewrite (Hnet key network En). reflexivity. }
      rewrite Ekey in *. apply IH; cbn [fst snd].
      * rewrite map_app. rewrite Hk. reflexivity.
      * apply NoDup_app. split; [ exact Hd | ].
        split; [ | apply NoDup_singleton ].
        intros x Hx Hx'. apply list_elem_of_singleton in Hx'. subst x.
        exact (Hnew Hx).
Qed.

Lemma dex_attempt_outcome (tokenSymbol : string)
    (response : Axios (option (list Pair))) (r : ChainDetectionResult) :
  dex_attempt toUpperCase getNetworkByKey tokenSymbol response = Some r ->
  match tokenInfo r with
  | None => r = not_found
  | Some chains =>
      r = found true chains
      /\ chains <> []
      /\ exists pairs,
           response = Resolves (Some pairs)
           /\ chains
              = snd (fold_left
                       (dex_round toUpperCase getNetworkByKey tokenSymbol)
                       pairs ([], []))
  end.
Proof.
  unfold dex_attempt. destruct response as [data|]; [ | discriminate ].
  intros [= <-].
  pose proof (found_or_not_cases
                (snd (fold_left
                        (dex_round toUpperCase getNetworkByKey tokenSymbol)
                        (default [] data) ([], [])))) as H.
  destruct (tokenInfo (found_or_not _)) as [chains|]; [ | exact (proj1 H) ].
  destruct H as [H1 [H2 H3]].
  split; [ exact H1 | ]. split; [ exact H2 | ].
  destruct data as [pairs|].
  - exists pairs. split; [ reflexivity | exact H3 ].
  - cbn in H3. congruence.
Qed.

(** X26.  [queryDexScreenerWithRetry] sends the request once, and a second
    time exactly when the first one threw; an answer is never retried,
    also when it lists nothing.  What it returns is the bare
    [{ success: false }] or a successful result with at least one chain,
    headed by its [primaryChain], and every chain comes from a pair of the
    answer of the last request whose base token bears the requested symbol
    (compared in upper case) on one of the five mapped chains that
    [NetworkUtils] knows: under the requested symbol in upper case, with
    18 decimals, verified exactly when the pair's [fdv] exceeds one
    million. *)
Theorem queryDexScreenerWithRetry_outcome (tokenSymbol : string)
    (responses : nat -> Axios (option (list Pair))) :
  let out :=
    queryDexScreenerWithRetry toUpperCase getNetworkByKey tokenSymbol responses
  in
  (snd out = 1%nat \/ snd out = 2%nat)
  /\ (snd out = 2%nat <-> responses 1%nat = Throws)
  /\ match tokenInfo (fst out) with
     | None => fst out = not_found
     | Some chains =>
         fst out = found true chains
         /\ chains <> []
         /\ exists pairs,
              responses (snd out) = Resolves (Some pairs)
              /\ Forall (fun info =>
                           exists pair,
                             In pair pairs
                             /\ dex_listing toUpperCase getNetworkByKey
                                  tokenSymbol pair info)
                        chains
     end.
Proof.
  cbv zeta. unfold queryDexScreenerWithRetry. rewrite with_retry_unrolled.
  assert (Hone : forall n r,
            dex_attempt toUpperCase getNetworkByKey tokenSymbol (responses n)
            = Some r ->
            match tokenInfo r with
            | None => r = not_found
            | Some chains =>
                r = found true chains
                /\ chains <> []
                /\ exists pairs,
                     responses n = Resolves (Some pairs)
                     /\ Forall (fun info =>
                                  exists pair,
                                    In pair pairs
                                    /\ dex_listing toUpperCase getNetworkByKey
                                         tokenSymbol pair info)
                               chains
            end).
  { intros n r Hr. apply dex_attempt_outcome in Hr.
    destruct (tokenInfo r) as [chains|]; [ | exact Hr ].
    destruct Hr as [H1 [H2 [pairs [H3 H4]]]].
    split; [ exact H1 | ]. split; [ exact H2 | ].
    exists pairs. split; [ exact H3 | ]. subst chains.
    apply dex_fold_listing; [ intros p Hp; exact Hp | apply Forall_nil_2 ]. }
  destruct (dex_attempt toUpperCase getNetworkByKey tokenSymbol (responses 1%nat))
    as [r1|] eqn:E1.
  - cbn [fst snd].
    split; [ left; reflexivity | ].
    split.
    + split; [ discriminate | ].
      intros Ht. rewrite Ht in E1. discriminate.
    + exact (Hone 1%nat r1 E1).
  - cbn [fst snd].
    split; [ right; reflexivity | ].
    split.
    + split; [ intros _ | reflexivity ].
      destruct (responses 1%nat); [ discriminate | reflexivity ].
    + destruct (dex_attempt toUpperCase getNetworkByKey tokenSymbol
                  (responses 2%nat)) as [r2|] eqn:E2; cbn [from_option id].
      * exact (Hone 2%nat r2 E2).
      * reflexivity.
Qed.

(** X27.  When [NetworkUtils.getNetworkByKey] answers with the network of
    the key it was asked for, [queryDexScreenerWithRetry] lists no
    (network, address) twice, so [deduplicateAndRank] drops none of its
    chains: it only reorders them. *)
Theorem dexscreener_lists_each_address_once (tokenSymbol : string)
    (responses : nat -> Axios (option (list Pair)))
    (chains : list TokenChainInfo) :
  networks_keyed getNetworkByKey ->
  tokenInfo (fst (queryDexScreenerWithRetry toUpperCase getNetworkByKey
                    tokenSymbol responses))
  = Some chains ->
  NoDup (map key_of chains)
  /\ Permutation (deduplicateAndRank chains) chains.
Proof.
  intros Hnet Hc.
  assert (Hd : NoDup (map key_of chains)).
  { unfold queryDexScreenerWithRetry in Hc. rewrite with_retry_unrolled in Hc.
    assert (Hone : forall n r,
              dex_attempt toUpperCase getNetworkByKey tokenSymbol (responses n)
              = Some r ->
              tokenInfo r = Some chains -> NoDup (map key_of chains)).
    { intros n r Hr Ht. apply dex_attempt_outcome in Hr. rewrite Ht in Hr.
      destruct Hr as [_ [_ [pairs [_ ->]]]].
      apply dex_fold_keys; [ exact Hnet | reflexivity | apply NoDup_nil_2 ]. }
    destruct (dex_attempt toUpperCase getNetworkByKey tokenSymbol
                (responses 1%nat)) as [r1|] eqn:E1.
    - exact (Hone 1%nat r1 E1 Hc).
    - cbn [fst] in Hc.
      destruct (dex_attempt toUpperCase getNetworkByKey tokenSymbol
                  (responses 2%nat)) as [r2|] eqn:E2; cbn in Hc.
      + exact (Hone 2%nat r2 E2 Hc).
      + discriminate. }
  split; [ exact Hd | ].
  unfold deduplicateAndRank.
  rewrite fold_keep_best_distinct by exact Hd.
  rewrite sort_by_perm. cbn [app]. unfold JsMap.values.
  rewrite map_map. cbn [snd]. rewrite map_id. reflexivity.
Qed.

Lemma gecko_entry_listing (tokenSymbol : string) (coinData : CoinData)
    (entry : string * option string) (info : TokenChainInfo) :
  In entry (default [] (cd_platforms coinData)) ->
  gecko_entry toUpperCase getNetworkByKey tokenSymbol coinData entry
  = Some info ->
  gecko_listing getNetworkByKey coinData info
  /\ symbol info = upper_or toUpperCase (cd_symbol coinData) tokenSymbol.
Proof.
  destruct entry as [platform address]. intros Hin.
  unfold gecko_entry. cbn [fst snd].
  destruct (get platform platformMap) as [key|] eqn:Ek; [ | discriminate ].
  destruct address as [address|]; [ | discriminate ].
  destruct (String.eqb address EmptyString) eqn:Ea; [ discriminate | ].
  destruct (getNetworkByKey key) as [network|] eqn:En; [ | discriminate ].
  intros [= <-]. split; [ | reflexivity ].
  exists platform, key, network,
    (match cd_decimal_place coinData platform with
     | Some z => if z =? 0 then 18 else z
     | None => 18
     end).
  cbn [contractAddress chainId networkKey decimals name verified source].
  split; [ exact Hin | ].
  split; [ intros ->; discriminate | ].
  split; [ exact Ek | ]. split; [ exact En | ].
  do 3 (split; [ reflexivity | ]).
  split.
  - destruct (cd_decimal_place coinData platform) as [z|]; [ | discriminate ].
    destruct (z =? 0) eqn:Ez; [ discriminate | ].
    apply Z.eqb_neq. exact Ez.
  - split; [ reflexivity | ]. split; reflexivity.
Qed.

Lemma gecko_chains_listing (tokenSymbol : string) (coinData : CoinData) :
  Forall (fun info =>
            gecko_listing getNetworkByKey coinData info
            /\ symbol info
               = upper_or toUpperCase (cd_symbol coinData) tokenSymbol)
         (gecko_chains toUpperCase getNetworkByKey tokenSymbol coinData).
Proof.
  unfold gecko_chains. apply Forall_forall. intros info Hin.
  apply list_elem_of_omap in Hin. destruct Hin as [entry [He Hi]].
  apply list_elem_of_In in He.
  exact (gecko_entry_listing tokenSymbol coinData entry info He Hi).
Qed.

(** X28.  [queryCoinGeckoWithRetry] makes one attempt or two, never a
    third.  What it returns is the bare [{ success: false }] or a
    successful result with at least one chain, headed by its
    [primaryChain]; the chains are those of the coin whose symbol is the
    first of the search to equal the requested one in lower case, and each
    is verified, from source coingecko, at a non-empty address of one of
    the five mapped platforms known to [NetworkUtils], and has a number of
    decimals other than zero (a [decimal_place] of 0 is read as 18). *)
Theorem queryCoinGeckoWithRetry_outcome (tokenSymbol : string)
    (search : nat -> Axios (option (list Coin)))
    (coin : nat -> string -> Axios CoinData) :
  let out :=
    queryCoinGeckoWithRetry toUpperCase toLowerCase getNetworkByKey
      tokenSymbol search coin
  in
  (snd out = 1%nat \/ snd out = 2%nat)
  /\ match tokenInfo (fst out) with
     | None => fst out = not_found
     | Some chains =>
         fst out = found true chains
         /\ chains <> []
         /\ exists coins exactMatch coinData,
              search (snd out) = Resolves (Some coins)
              /\ List.find
                   (fun c => from_option
                               (fun s => String.eqb (toLowerCase s)
                                           (toLowerCase tokenSymbol))
                               false (coin_symbol c))
                   coins
                 = Some exactMatch
              /\ coin (snd out) (coin_id exactMatch) = Resolves coinData
              /\ Forall (fun info =>
                           gecko_listing getNetworkByKey coinData info
                           /\ symbol info
                              = upper_or toUpperCase (cd_symbol coinData)
                                  tokenSymbol)
                        chains
     end.
Proof.
  cbv zeta. unfold queryCoinGeckoWithRetry. rewrite with_retry_unrolled.
  assert (Hone : forall n r,
            fst (gecko_attempt toUpperCase toLowerCase getNetworkByKey
                   tokenSymbol (search n) (coin n)) = Some r ->
            match tokenInfo r with
            | None => r = not_found
            | Some chains =>
                r = found true chains
                /\ chains <> []
                /\ exists coins exactMatch coinData,
                     search n = Resolves (Some coins)
                     /\ List.find
                          (fun c => from_option
                                      (fun s => String.eqb (toLowerCase s)
                                                  (toLowerCase tokenSymbol))
                                      false (coin_symbol c))
                          coins
                        = Some exactMatch
                     /\ coin n (coin_id exactMatch) = Resolves coinData
                     /\ Forall (fun info =>
                                  gecko_listing getNetworkByKey coinData info
                                  /\ symbol info
                                     = upper_or toUpperCase
                                         (cd_symbol coinData) tokenSymbol)
                               chains
            end).
  { intros n r. unfold gecko_attempt.
    destruct (search n) as [data|]; [ | discriminate ].
    destruct (List.find _ (default [] data)) as [exactMatch|] eqn:Ef;
      [ | intros [= <-]; reflexivity ].
    destruct (coin n (coin_id exactMatch)) as [coinData|] eqn:Ec;
      [ | discriminate ].
    cbn [fst]. intros [= <-].
    pose proof (found_or_not_cases
                  (gecko_chains toUpperCase getNetworkByKey tokenSymbol
                     coinData)) as H.
    destruct (tokenInfo (found_or_not _)) as [chains|]; [ | exact (proj1 H) ].
    destruct H as [H1 [H2 H3]].
    split; [ exact H1 | ]. split; [ exact H2 | ].
    destruct data as [coins|]; [ | discriminate ].
    exists coins, exactMatch, coinData.
    split; [ reflexivity | ]. split; [ exact Ef | ]. split; [ exact Ec | ].
    subst chains. apply gecko_chains_listing. }
  destruct (fst (gecko_attempt toUpperCase toLowerCase getNetworkByKey
                   tokenSymbol (search 1%nat) (coin 1%nat))) as [r1|] eqn:E1.
  - cbn [fst snd]. split; [ left; reflexivity | exact (Hone 1%nat r1 E1) ].
  - cbn [fst snd]. split; [ right; reflexivity | ].
    destruct (fst (gecko_attempt toUpperCase toLowerCase getNetworkByKey
                     tokenSymbol (search 2%nat) (coin 2%nat)))
      as [r2|] eqn:E2; cbn [from_option id].
    + exact (Hone 2%nat r2 E2).
    + reflexivity.
Qed.

(** X29.  A CoinGecko search that answers without a coin of the requested
    symbol ends the query at once: one request, no retry, nothing found,
    whatever the coin endpoint would answer. *)
Theorem coingecko_without_exact_match (tokenSymbol : string)
    (search : nat -> Axios (option (list Coin)))
    (coin : nat -> string -> Axios CoinData) (data : option (list Coin)) :
  search 1%nat = Resolves data ->
  Forall (fun c => forall s, coin_symbol c = Some s ->
                             toLowerCase s <> toLowerCase tokenSymbol)
         (default [] data) ->
  gecko_attempt toUpperCase toLowerCase getNetworkByKey tokenSymbol
    (search 1%nat) (coin 1%nat)
  = (Some not_found, 1%nat)
  /\ queryCoinGeckoWithRetry toUpperCase toLowerCase getNetworkByKey
       tokenSymbol search coin
     = (not_found, 1%nat).
Proof.
  intros Hs Hall.
  assert (Ha : gecko_attempt toUpperCase toLowerCase getNetworkByKey
                 tokenSymbol (search 1%nat) (coin 1%nat)
               = (Some not_found, 1%nat)).
  { unfold gecko_attempt. rewrite Hs.
    destruct (List.find _ (default [] data)) as [m|] eqn:Ef; [ | reflexivity ].
    exfalso. apply List.find_some in Ef. destruct Ef as [Hin Hm].
    rewrite Forall_forall in Hall.
    apply list_elem_of_In in Hin. specialize (Hall m Hin).
    destruct (coin_symbol m) as [s|]; [ | discriminate ].
    cbn in Hm. apply String.eqb_eq in Hm. exact (Hall s eq_refl Hm). }
  split; [ exact Ha | ].
  unfold queryCoinGeckoWithRetry. rewrite with_retry_unrolled.
  rewrite Ha. reflexivity.
Qed.

End QueryFacts.

Lemma sample_networks_keyed : networks_keyed sample_networks.
Proof.
  intros key network H. unfold sample_networks in H.
  destruct (String.eqb key "ethereum") eqn:E1.
  - apply String.eqb_eq in E1. injection H as <-. symmetry. exact E1.
  - destruct (String.eqb key "arbitrum") eqn:E2; [ | discriminate ].
    apply String.eqb_eq in E2. injection H as <-. symmetry. exact E2.
Qed.

Lemma dexscreener_lists_each_address_once_witness :
  networks_keyed sample_networks
  /\ exists chains,
       tokenInfo (fst (queryDexScreenerWithRetry sample_upper sample_networks
                         "UNI" dex_answers))
       = Some chains
       /\ length chains = 2%nat
       /\ NoDup (map key_of chains)
       /\ Permutation (deduplicateAndRank chains) chains.
Proof.
  split; [ exact sample_networks_keyed | ].
  exists (default []
            (tokenInfo (fst (queryDexScreenerWithRetry sample_upper
                               sample_networks "UNI" dex_answers)))).
  assert (E : tokenInfo (fst (queryDexScreenerWithRetry sample_upper
                                sample_networks "UNI" dex_answers))
              = Some (default []
                        (tokenInfo (fst (queryDexScreenerWithRetry sample_upper
                                           sample_networks "UNI" dex_answers)))))
    by (vm_compute; reflexivity).
  split; [ exact E | ]. split; [ vm_compute; reflexivity | ].
  exact (dexscreener_lists_each_address_once sample_upper sample_networks
           "UNI" dex_answers _ sample_networks_keyed E).
Defined.

Lemma coingecko_without_exact_match_witness :
  gecko_search 1%nat = Resolves (Some [ {| coin_id := "unicorn-token";
                                           coin_symbol := Some "unic" |};
                                        {| coin_id := "unnamed";
                                           coin_symbol := None |} ])
  /\ queryCoinGeckoWithRetry sample_upper sample_lower sample_networks
       "uni" gecko_search gecko_coin
     = (not_found, 1%nat).
Proof.
  split; [ reflexivity | ].
  refine (proj2 (coingecko_without_exact_match sample_upper sample_lower
                   sample_networks "uni" gecko_search gecko_coin _
                   eq_refl _)).
  apply Forall_cons. split.
  - intros s [= <-]. discriminate.
  - apply Forall_cons. split; [ intros s H; discriminate | apply Forall_nil_2 ].
Defined.
